(** * vscode-huff: the macro debugger's source assembly and session pipeline

    A shallow embedding of

      - src/features/debugger/macro/macroDebugger.js   (module [Debugger])
      - src/features/viewer/macroDebugger.js           (module [Viewer])
      - src/features/debugger/function/debugger.js     ([flattenFile], module
        [FunctionDebugger]; the session, module [FunctionSession])
      - src/features/viewer/utils.js                   (module [Utils])

    JavaScript strings are modelled as [string]: sequences of code units.
    The development covers texts whose code units are below 256, so a code
    unit is an [ascii]. *)

From Stdlib Require Import ZArith NArith List Ascii String Bool Lia.
From stdpp Require Import base option gmap strings list.

Local Open Scope N_scope.

(** ** JavaScript strings *)

Module JS.

Definition LF : string := String "010"%char EmptyString.
Definition TAB : string := String "009"%char EmptyString.
Definition DQ : string := String "034"%char EmptyString.

(** [\s] of ECMAScript, restricted to code units below 256. *)
Definition isWhiteSpace (c : ascii) : bool :=
  match N_of_ascii c with
  | 9 | 10 | 11 | 12 | 13 | 32 | 160 => true
  | _ => false
  end.

(** Line terminators, which [.] does not match without the [s] flag. *)
Definition isLineTerminator (c : ascii) : bool :=
  match N_of_ascii c with
  | 10 | 13 => true
  | _ => false
  end.

(** [\d] *)
Definition isDigit (c : ascii) : bool :=
  (48 <=? N_of_ascii c) && (N_of_ascii c <=? 57).

Definition digitValue (c : ascii) : nat := N.to_nat (N_of_ascii c - 48).

(** [s.slice(n)] for [0 <= n]. *)
Fixpoint sliceFrom (n : nat) (s : string) : string :=
  match n, s with
  | O, _ => s
  | S n', String _ t => sliceFrom n' t
  | S _, EmptyString => EmptyString
  end.

(** [s.slice(0, n)] for [0 <= n]. *)
Fixpoint sliceTo (n : nat) (s : string) : string :=
  match n, s with
  | S n', String c t => String c (sliceTo n' t)
  | _, _ => EmptyString
  end.

(** When [s] starts with [p], what follows [p] in [s]. *)
Fixpoint stripPrefix (p s : string) : option string :=
  match p, s with
  | EmptyString, _ => Some s
  | String a p', String b s' =>
      if Ascii.eqb a b then stripPrefix p' s' else None
  | String _ _, EmptyString => None
  end.

(** [arr.join(sep)] on an array of strings. *)
Fixpoint join (sep : string) (arr : list string) : string :=
  match arr with
  | [] => EmptyString
  | [x] => x
  | x :: rest => x +:+ sep +:+ join sep rest
  end.

(** [s.split(c)] for a one-character separator: never the empty array. *)
Fixpoint split (sep : ascii) (s : string) : list string :=
  match s with
  | EmptyString => [EmptyString]
  | String c t =>
      if Ascii.eqb c sep then EmptyString :: split sep t
      else match split sep t with
           | x :: rest => String c x :: rest
           | [] => [String c EmptyString]
           end
  end.

(** [arr.slice(0, -1)] *)
Definition sliceButLast {A} (arr : list A) : list A := removelast arr.

(** [s.replace(pat, EmptyString)] with a string pattern: the first
    occurrence of [pat] is removed. *)
Fixpoint removeFirst (pat s : string) : string :=
  match stripPrefix pat s with
  | Some t => t
  | None => match s with
            | String c t => String c (removeFirst pat t)
            | EmptyString => EmptyString
            end
  end.

(** [s.includes(pat)] *)
Fixpoint includes (pat s : string) : bool :=
  match stripPrefix pat s with
  | Some _ => true
  | None => match s with
            | String _ t => includes pat t
            | EmptyString => false
            end
  end.

(** The number of places at which [pat] occurs in [s]. *)
Fixpoint occurrences (pat s : string) : nat :=
  (match stripPrefix pat s with Some _ => 1 | None => 0 end)%nat +
  match s with
  | String _ t => occurrences pat t
  | EmptyString => 0%nat
  end.

End JS.

(** ** Regular expressions

    The fragment of ECMAScript regular expressions that the sources use, with
    the backtracking matcher of the language specification in continuation
    passing style. Quantifiers only occur on character classes. None of the
    sources' patterns has an assertion that looks behind the current position
    ([^], [$], [\b]), so a match attempt depends on the text from the current
    position onwards only. *)

Module RegExp.
Import JS.

Inductive regex : Type :=
| Lit (s : string)                 (* literal characters *)
| Cls (p : ascii -> bool)          (* one character of a class *)
| Opt (p : ascii -> bool)          (* [p?] *)
| Star (p : ascii -> bool)         (* [p*], greedy *)
| StarLazy (p : ascii -> bool)     (* [p*?] *)
| Plus (p : ascii -> bool)         (* [p+], greedy *)
| Seq (r1 r2 : regex)
| Group (name : string) (r : regex)  (* [(?<name>r)] *)
| Ahead (r : regex).               (* [(?=r)] *)

Fixpoint seq (rs : list regex) : regex :=
  match rs with
  | [] => Lit EmptyString
  | [r] => r
  | r :: rest => Seq r (seq rest)
  end.

(** Character classes *)
Definition any (_ : ascii) : bool := true.              (* [[\s\S]], [.] with flag s *)
Definition dot (c : ascii) : bool := negb (isLineTerminator c).  (* [.] *)
Definition ws : ascii -> bool := isWhiteSpace.          (* [\s] *)
Definition digit : ascii -> bool := isDigit.            (* [[\d]] *)
Definition notChar (x : ascii) (c : ascii) : bool := negb (Ascii.eqb c x).

(** Captures: group name, start and end offsets from the start of the match. *)
Definition Caps : Type := list (string * (nat * nat)).
Definition Result : Type := option (nat * Caps).

Section Quantifiers.
Variable p : ascii -> bool.
Variable k : string -> nat -> Result.

Fixpoint starGreedy (s : string) (i : nat) : Result :=
  match s with
  | String c t =>
      if p c then
        match starGreedy t (S i) with
        | Some r => Some r
        | None => k s i
        end
      else k s i
  | EmptyString => k s i
  end.

Fixpoint starLazy (s : string) (i : nat) : Result :=
  match k s i with
  | Some r => Some r
  | None =>
      match s with
      | String c t => if p c then starLazy t (S i) else None
      | EmptyString => None
      end
  end.
End Quantifiers.

(** [matcher r s i caps k]: match [r] at the front of [s], [i] characters
    into the match, then continue with [k]; backtrack when [k] fails. *)
Fixpoint matcher (r : regex) (s : string) (i : nat) (caps : Caps)
    (k : string -> nat -> Caps -> Result) : Result :=
  match r with
  | Lit l =>
      match stripPrefix l s with
      | Some t => k t (i + String.length l)%nat caps
      | None => None
      end
  | Cls p =>
      match s with
      | String c t => if p c then k t (S i) caps else None
      | EmptyString => None
      end
  | Opt p =>
      match s with
      | String c t =>
          if p c then
            match k t (S i) caps with
            | Some r => Some r
            | None => k s i caps
            end
          else k s i caps
      | EmptyString => k s i caps
      end
  | Star p => starGreedy p (fun t j => k t j caps) s i
  | StarLazy p => starLazy p (fun t j => k t j caps) s i
  | Plus p =>
      match s with
      | String c t =>
          if p c then starGreedy p (fun t' j => k t' j caps) t (S i) else None
      | EmptyString => None
      end
  | Seq r1 r2 =>
      matcher r1 s i caps (fun t j cs => matcher r2 t j cs k)
  | Group name r1 =>
      matcher r1 s i caps (fun t j cs => k t j ((name, (i, j)) :: cs))
  | Ahead r1 =>
      match matcher r1 s i caps (fun _ j cs => Some (j, cs)) with
      | Some (_, cs) => k s i cs
      | None => None
      end
  end.

(** A match attempt at the front of [s]: its length and captures. *)
Definition matchAt (r : regex) (s : string) : Result :=
  matcher r s 0 [] (fun _ j cs => Some (j, cs)).

(** [r.exec(s)] with [lastIndex = 0]: index, length and captures of the
    leftmost match. *)
Fixpoint execFrom (r : regex) (i : nat) (s : string) : option (nat * nat * Caps) :=
  match matchAt r s with
  | Some (n, cs) => Some (i, n, cs)
  | None =>
      match s with
      | String _ t => execFrom r (S i) t
      | EmptyString => None
      end
  end.

Definition exec (r : regex) (s : string) : option (nat * nat * Caps) :=
  execFrom r 0 s.

(** [r.test(s)] with [lastIndex = 0] *)
Definition test (r : regex) (s : string) : bool :=
  match exec r s with Some _ => true | None => false end.

(** The names of the groups of a pattern, in the order of their opening
    parentheses. *)
Fixpoint groupNames (r : regex) : list string :=
  match r with
  | Seq r1 r2 => groupNames r1 ++ groupNames r2
  | Group name r1 => name :: groupNames r1
  | Ahead r1 => groupNames r1
  | _ => []
  end.

(** The text a group captured, within the text [s] the match starts at;
    [None] for a group that took no part in the match. *)
Definition captured (s : string) (cs : Caps) (name : string) : option string :=
  match List.find (fun e => String.eqb (fst e) name) cs with
  | Some (_, (a, b)) => Some (sliceTo (b - a) (sliceFrom a s))
  | None => None
  end.

(** *** Replacement templates: GetSubstitution *)

Section Substitution.
Variable matched : string.       (* [$&] *)
Variable before : string.        (* [$`] *)
Variable after : string.         (* [$'] *)
Variable numbered : list (option string).   (* [$1], [$2], ... *)
Variable named : option (list (string * option string)).  (* [$<name>] *)

Definition groupText (g : option (option string)) (ref : string) : string :=
  match g with
  | Some (Some t) => t
  | Some None => EmptyString
  | None => ref
  end.

Definition numberedRef (index : nat) (ref : string) : string :=
  match index with
  | O => ref
  | S j => groupText (nth_error numbered j) ref
  end.

Definition namedRef (groups : list (string * option string)) (name : string) : string :=
  match List.find (fun e => String.eqb (fst e) name) groups with
  | Some (_, Some t) => t
  | _ => EmptyString
  end.

(** [inName]: [Some acc] while reading the name of a [$<name>] reference
    whose closing [>] is known to come. *)
Fixpoint substitute (inName : option string) (template : string) : string :=
  match inName, template with
  | Some acc, String c rest =>
      if Ascii.eqb c ">" then
        match named with
        | Some groups => namedRef groups acc +:+ substitute None rest
        | None => EmptyString
        end
      else substitute (Some (acc +:+ String c EmptyString)) rest
  | Some _, EmptyString => EmptyString
  | None, String c rest =>
      if Ascii.eqb c "$" then
        match rest with
        | String d rest1 =>
            if Ascii.eqb d "$" then String "$" (substitute None rest1)
            else if Ascii.eqb d "&" then matched +:+ substitute None rest1
            else if Ascii.eqb d "`" then before +:+ substitute None rest1
            else if Ascii.eqb d "'" then after +:+ substitute None rest1
            else if isDigit d then
              match rest1 with
              | String e rest2 =>
                  if isDigit e &&
                     (10 * digitValue d + digitValue e <=? List.length numbered)%nat
                  then numberedRef (10 * digitValue d + digitValue e)
                         (String "$" (String d (String e EmptyString)))
                       +:+ substitute None rest2
                  else numberedRef (digitValue d) (String "$" (String d EmptyString))
                       +:+ substitute None rest1
              | EmptyString =>
                  numberedRef (digitValue d) (String "$" (String d EmptyString))
              end
            else if Ascii.eqb d "<" then
              match named with
              | Some _ =>
                  if includes ">" rest1 then substitute (Some EmptyString) rest1
                  else String "$" (substitute None rest)
              | None => String "$" (substitute None rest)
              end
            else String "$" (substitute None rest)
        | EmptyString => String "$" EmptyString
        end
      else String c (substitute None rest)
  | None, EmptyString => EmptyString
  end.
End Substitution.

(** What a replacement makes of one match. *)
Definition Replacer : Type :=
  string (* matched *) -> string (* before *) -> string (* after *) ->
  list (option string) -> option (list (string * option string)) -> string.

(** A replacement string, with its [$] patterns. *)
Definition template (t : string) : Replacer :=
  fun matched before after numbered named =>
    substitute matched before after numbered named None t.

Definition applyReplacer (r : regex) (f : Replacer) (whole : string)
    (i n : nat) (cs : Caps) (s : string) : string :=
  let names := groupNames r in
  f (sliceTo n s) (sliceTo i whole) (sliceFrom n s)
    (map (captured s cs) names)
    (match names with
     | [] => None
     | _ => Some (map (fun nm => (nm, captured s cs nm)) names)
     end).

(** [whole.replace(r, f)] for [r] with the flag [g]: [s] is what is left of
    [whole] from index [i], of which the first [skip] characters belong to
    the match last replaced. After an empty match the search resumes one
    character further. *)
Fixpoint replaceAllFrom (r : regex) (f : Replacer) (whole : string)
    (i skip : nat) (s : string) : string :=
  match s with
  | EmptyString =>
      match skip, matchAt r s with
      | O, Some (n, cs) => applyReplacer r f whole i n cs s
      | _, _ => EmptyString
      end
  | String c t =>
      match skip with
      | S skip' => replaceAllFrom r f whole (S i) skip' t
      | O =>
          match matchAt r s with
          | Some (O, cs) =>
              applyReplacer r f whole i 0 cs s
              +:+ String c (replaceAllFrom r f whole (S i) 0 t)
          | Some (S n, cs) =>
              applyReplacer r f whole i (S n) cs s
              +:+ replaceAllFrom r f whole (S i) n t
          | None => String c (replaceAllFrom r f whole (S i) 0 t)
          end
      end
  end.

Definition replaceAll (r : regex) (f : Replacer) (s : string) : string :=
  replaceAllFrom r f s 0 0 s.

(** [whole.replace(r, f)] for [r] without the flag [g]: the leftmost match
    only. *)
Fixpoint replaceFirstFrom (r : regex) (f : Replacer) (whole : string)
    (i : nat) (s : string) : string :=
  match matchAt r s with
  | Some (n, cs) => applyReplacer r f whole i n cs s +:+ sliceFrom n s
  | None =>
      match s with
      | String c t => String c (replaceFirstFrom r f whole (S i) t)
      | EmptyString => EmptyString
      end
  end.

Definition replaceFirst (r : regex) (f : Replacer) (s : string) : string :=
  replaceFirstFrom r f s 0 s.

(** The matches [s.match(r)] finds for [r] with the flag [g], counted. *)
Fixpoint countMatchesFrom (r : regex) (skip : nat) (s : string) : nat :=
  match s with
  | EmptyString =>
      match skip, matchAt r s with
      | O, Some _ => 1%nat
      | _, _ => 0%nat
      end
  | String c t =>
      match skip with
      | S skip' => countMatchesFrom r skip' t
      | O =>
          match matchAt r s with
          | Some (n, _) => S (countMatchesFrom r (Nat.pred n) t)
          | None => countMatchesFrom r 0 t
          end
      end
  end.

Definition countMatches (r : regex) (s : string) : nat := countMatchesFrom r 0 s.

End RegExp.

(** ** keccak256

    The hash [createKeccakHash('keccak256')] of the keccak package: Keccak with rate
    1088 and capacity 512, the original padding (first padding byte 0x01)
    and a 32-byte digest. Lanes are 64-bit words, the state is the list of
    its 25 lanes, lane [(x, y)] at index [x + 5 * y]. *)

Module Keccak.

Definition mask64 : N := 0xFFFFFFFFFFFFFFFF.

Definition rotl64 (x : N) (n : N) : N :=
  N.lor (N.land (N.shiftl x n) mask64) (N.shiftr x (64 - n)).

Definition lane (st : list N) (x y : nat) : N :=
  nth ((x mod 5) + 5 * (y mod 5))%nat st 0.

Definition roundConstants : list N :=
  [ 0x0000000000000001; 0x0000000000008082; 0x800000000000808A;
    0x8000000080008000; 0x000000000000808B; 0x0000000080000001;
    0x8000000080008081; 0x8000000000008009; 0x000000000000008A;
    0x0000000000000088; 0x0000000080008009; 0x000000008000000A;
    0x000000008000808B; 0x800000000000008B; 0x8000000000008089;
    0x8000000000008003; 0x8000000000008002; 0x8000000000000080;
    0x000000000000800A; 0x800000008000000A; 0x8000000080008081;
    0x8000000000008080; 0x0000000080000001; 0x8000000080008008 ].

Definition rotationOffsets : list N :=
  [ 0; 1; 62; 28; 27;
    36; 44; 6; 55; 20;
    3; 10; 43; 25; 39;
    41; 45; 15; 21; 8;
    18; 2; 61; 56; 14 ].

Definition coords : list (nat * nat) :=
  flat_map (fun y => map (fun x => (x, y)) (seq 0 5)) (seq 0 5).

Definition theta (a : list N) : list N :=
  let c x := N.lxor (lane a x 0) (N.lxor (lane a x 1)
               (N.lxor (lane a x 2) (N.lxor (lane a x 3) (lane a x 4)))) in
  let d x := N.lxor (c (x + 4)%nat) (rotl64 (c (x + 1)%nat) 1) in
  map (fun '(x, y) => N.lxor (lane a x y) (d x)) coords.

(** rho and pi: lane [(x, y)] of the result is lane [(x + 3y, x)] rotated. *)
Definition rhoPi (a : list N) : list N :=
  map (fun '(x, y) =>
         let x0 := ((x + 3 * y) mod 5)%nat in
         rotl64 (lane a x0 x) (nth (x0 + 5 * x)%nat rotationOffsets 0))
      coords.

Definition chi (b : list N) : list N :=
  map (fun '(x, y) =>
         N.lxor (lane b x y)
           (N.land (N.lxor (lane b (x + 1) y) mask64) (lane b (x + 2) y)))
      coords.

Definition iota (rc : N) (a : list N) : list N :=
  match a with
  | a0 :: rest => N.lxor a0 rc :: rest
  | [] => []
  end.

Definition round (a : list N) (rc : N) : list N :=
  iota rc (chi (rhoPi (theta a))).

Definition keccakF (a : list N) : list N := fold_left round roundConstants a.

(** Little-endian bytes of a lane and back. *)
Fixpoint laneOfBytes (bs : list N) : N :=
  match bs with
  | [] => 0
  | b :: rest => b + 256 * laneOfBytes rest
  end.

Fixpoint bytesOfLane (n : nat) (w : N) : list N :=
  match n with
  | O => []
  | S n' => (w mod 256) :: bytesOfLane n' (w / 256)
  end.

Fixpoint chunks {A} (size : nat) (fuel : nat) (l : list A) : list (list A) :=
  match fuel, l with
  | _, [] => []
  | O, _ => []
  | S fuel', _ => firstn size l :: chunks size fuel' (skipn size l)
  end.

Definition rateBytes : nat := 136.

(** pad10*1 with Keccak's domain byte: 0x01, zeros, and 0x80 on the last byte
    of the block. *)
Definition pad (msg : list N) : list N :=
  let q := (rateBytes - (List.length msg mod rateBytes))%nat in
  if (q =? 1)%nat then msg ++ [0x81]
  else msg ++ [0x01] ++ repeat 0 (q - 2) ++ [0x80].

Fixpoint xorInto (st : list N) (block : list N) : list N :=
  match st, block with
  | s :: st', b :: block' => N.lxor s b :: xorInto st' block'
  | _, [] => st
  | [], _ => []
  end.

Definition absorb (st : list N) (block : list N) : list N :=
  keccakF (xorInto st (map laneOfBytes (chunks 8 (List.length block) block))).

Definition keccak256 (msg : list N) : list N :=
  let padded := pad msg in
  let st := fold_left absorb (chunks rateBytes (List.length padded) padded)
              (repeat 0 25) in
  firstn 32 (flat_map (bytesOfLane 8) st).

Definition hexDigit (n : N) : ascii :=
  ascii_of_N (if n <? 10 then 48 + n else 87 + n).

(** [digest('hex')]: two lower-case hexadecimal digits a byte. *)
Fixpoint hex (bs : list N) : string :=
  match bs with
  | [] => EmptyString
  | b :: rest => String (hexDigit (b / 16)) (String (hexDigit (b mod 16)) (hex rest))
  end.

(** [Buffer.from(s)]: the UTF-8 encoding of a string of code units below
    256. *)
Fixpoint bufferFrom (s : string) : list N :=
  match s with
  | EmptyString => []
  | String c t =>
      let n := N_of_ascii c in
      if n <? 128 then n :: bufferFrom t
      else (192 + n / 64) :: (128 + n mod 64) :: bufferFrom t
  end.

End Keccak.

(** ** Values, configuration objects and effects *)

Module Runtime.
Import JS.

(** [{ key, value }]: one storage override of [config.stateValues]. *)
Record StateOverride : Type := { key : string; value : string }.

(** The values the configuration objects of the sources hold. *)
Inductive JsValue : Type :=
| VUndefined
| VNull
| VBool (b : bool)
| VString (s : string)
| VStates (l : list StateOverride).

(** ToBoolean: what [if (v)] and [v ? a : b] test. *)
Definition toBoolean (v : JsValue) : bool :=
  match v with
  | VUndefined | VNull => false
  | VBool b => b
  | VString EmptyString => false
  | VString _ => true
  | VStates _ => true
  end.

(** [Object.prototype.toString] on a plain object. *)
Definition objectToString {A : Type} (_ : A) : string := "[object Object]".

(** ToString: what a template literal and [+] on a string make of a value. *)
Definition toString (v : JsValue) : string :=
  match v with
  | VUndefined => "undefined"
  | VNull => "null"
  | VBool true => "true"
  | VBool false => "false"
  | VString s => s
  | VStates l => join "," (map objectToString l)
  end.

(** [{ body, takes, returns }] *)
Record Macro : Type := { body : string; takes : N; returns : N }.

(** A thrown value. *)
Inductive Exn : Type :=
| Error (message : string)
| TypeError (message : string).

Inductive Outcome (A : Type) : Type :=
| Ok (a : A)
| Throw (e : Exn).
Arguments Ok {A} a.
Arguments Throw {A} e.

(** What a session does to the world outside, in order; a call of a
    collaborator that may throw comes with its answer. *)
Inductive Event : Type :=
| ShowErrorMessage (message : string)
| ConsoleLog (message : string)
| ReadFileSync (path : string) (answer : Outcome string)
| CompileFromFile (source : string) (filename : JsValue) (cwd : string)
    (answer : Outcome string)
| DeployContract (bytecode : string) (config : gmap string JsValue) (cwd : string)
    (answer : Outcome string)
| WriteHevmCommand (command : string) (filename : JsValue) (cwd : string)
    (answer : Outcome unit)
| RunInUserTerminal (command : string)
| RegisterError (e : Exn) (message : string).

(** The collaborators of the pipeline. What they answer may depend on
    everything that happened before, the trace so far. *)
Record Host : Type := {
  (* [checkInstallations()]: the messages it shows to the user, and its
     answer *)
  checkInstallations : list Event -> list string * bool;
  (* [fs.readFileSync(path).toString()] *)
  readFileSync : list Event -> string -> Outcome string;
  (* [path.join(a, b)] *)
  pathJoin : string -> string -> string;
  compileFromFile : list Event -> string -> JsValue -> string -> Outcome string;
  (* [deployContract(bytecode, config, cwd)] and [.toString()] of its result *)
  deployContract : list Event -> string -> gmap string JsValue -> string -> Outcome string;
  writeHevmCommand : list Event -> string -> JsValue -> string -> Outcome unit;
  craftTerminalCommand : string -> gmap string JsValue -> string;
  formatEvenBytes : JsValue -> string;
  (* options.js *)
  hevmConfig : gmap string JsValue;
  (* settings.js; [wslMountedDriveRegex.exec(dir)?.groups?.drive] *)
  isWsl : bool;
  wslMountedDrive : string -> option string
}.

(** [checkHevmInstallation] of viewer/utils.js, for [commandExists('hevm')]
    resolving ([true]) or rejecting ([false]). *)
Definition checkHevmInstallation (commandExists : bool) : list string * bool :=
  if commandExists then ([], true)
  else (["Hevm installation required - install here: https://github.com/dapphub/dapptools#installation"],
        false).

(** The store: arrays that callers share by reference, and the trace. *)
Record State : Type := {
  heap : gmap positive (list string);
  trace : list Event
}.

(** Computations that read and write the store and may throw. What a
    computation did before it throws stays done. *)
Definition M (A : Type) : Type := State -> State * Outcome A.

Definition ret {A} (a : A) : M A := fun st => (st, Ok a).
Definition throw {A} (e : Exn) : M A := fun st => (st, Throw e).
Definition bind {A B} (m : M A) (f : A -> M B) : M B :=
  fun st =>
    match m st with
    | (st', Ok a) => f a st'
    | (st', Throw e) => (st', Throw e)
    end.
Definition tryCatch {A} (m : M A) (handler : Exn -> M A) : M A :=
  fun st =>
    match m st with
    | (st', Ok a) => (st', Ok a)
    | (st', Throw e) => handler e st'
    end.
Definition lift {A} (o : Outcome A) : M A := fun st => (st, o).

Definition emit (es : list Event) : M unit :=
  fun st => ({| heap := heap st; trace := trace st ++ es |}, Ok tt).

(** A call of a collaborator: its answer comes from the trace so far, and
    the call is recorded. *)
Definition call {A} (answer : list Event -> Outcome A)
    (event : Outcome A -> Event) : M A :=
  fun st =>
    ({| heap := heap st; trace := trace st ++ [event (answer (trace st))] |},
     answer (trace st)).

(** [arr.reverse()]: reverses the array in place and returns it. *)
Definition reverseInPlace (arr : positive) : M (list string) :=
  fun st =>
    match heap st !! arr with
    | Some elements =>
        ({| heap := <[arr := rev elements]> (heap st); trace := trace st |},
         Ok (rev elements))
    | None => (st, Throw (TypeError "argsObject.reverse is not a function"))
    end.

(** Reading an array, as [arr.join] does. *)
Definition readArray (arr : positive) : M (list string) :=
  fun st =>
    match heap st !! arr with
    | Some elements => (st, Ok elements)
    | None => (st, Throw (TypeError "argsObject.join is not a function"))
    end.

(** [xs.map(f)] for an [f] with effects. *)
Fixpoint mapM {A B} (f : A -> M B) (xs : list A) : M (list B) :=
  match xs with
  | [] => ret []
  | x :: rest =>
      bind (f x) (fun y => bind (mapM f rest) (fun ys => ret (y :: ys)))
  end.

(** What an [async] function's promise settles to. *)
Inductive Completion : Type :=
| ReturnedUndefined
| ReturnedNull.

Definition get (config : gmap string JsValue) (field : string) : JsValue :=
  default VUndefined (config !! field).

(** [{...defaults, ...options}] *)
Definition spread (defaults options : gmap string JsValue) : gmap string JsValue :=
  options ∪ defaults.

(** The elements a [for (const state of v)] loop visits, as the pairs
    [(state.value, state.key)] in their string form. *)
Definition iterate (v : JsValue) : Outcome (list (string * string)) :=
  match v with
  | VStates l => Ok (map (fun st => (value st, key st)) l)
  | VString s =>
      Ok (map (fun _ => ("undefined", "undefined")) (list_ascii_of_string s))
  | _ => Throw (TypeError "stateValues is not iterable")
  end.

(** Kinds of events *)
Definition isDeploy (e : Event) : bool :=
  match e with DeployContract _ _ _ _ => true | _ => false end.
Definition isWrite (e : Event) : bool :=
  match e with WriteHevmCommand _ _ _ _ => true | _ => false end.
Definition isRun (e : Event) : bool :=
  match e with RunInUserTerminal _ => true | _ => false end.
Definition isRegisterError (e : Event) : bool :=
  match e with RegisterError _ _ => true | _ => false end.

(** A file read, a compilation or a deployment that threw. *)
Definition failedStep (e : Event) : bool :=
  match e with
  | ReadFileSync _ (Throw _)
  | CompileFromFile _ _ _ (Throw _)
  | DeployContract _ _ _ (Throw _) => true
  | _ => false
  end.

(** What a failed step threw. *)
Definition thrownBy (e : Event) : option Exn :=
  match e with
  | ReadFileSync _ (Throw x)
  | CompileFromFile _ _ _ (Throw x)
  | DeployContract _ _ _ (Throw x) => Some x
  | _ => None
  end.

(** The answers of the deployments of a trace, and the commands written. *)
Definition deployAnswers (evs : list Event) : list (Outcome string) :=
  flat_map (fun e => match e with
                     | DeployContract _ _ _ answer => [answer]
                     | _ => []
                     end) evs.

Definition commandsWritten (evs : list Event) : list string :=
  flat_map (fun e => match e with
                     | WriteHevmCommand command _ _ _ => [command]
                     | _ => []
                     end) evs.

(** The runtime byte codes that the deployments of a trace answered. *)
Definition runtimeCodes (evs : list Event) : list string :=
  flat_map (fun e => match e with
                     | DeployContract _ _ _ (Ok runtime) => [runtime]
                     | _ => []
                     end) evs.

(** The text of an outcome; the empty text for an outcome that threw. *)
Definition okText (o : Outcome string) : string :=
  match o with
  | Ok text => text
  | Throw _ => EmptyString
  end.

(** The paths of the files read in a trace. *)
Definition pathsRead (evs : list Event) : list string :=
  flat_map (fun e => match e with
                     | ReadFileSync path _ => [path]
                     | _ => []
                     end) evs.

(** The texts of the files read in a trace. *)
Definition textsRead (evs : list Event) : list string :=
  flat_map (fun e => match e with
                     | ReadFileSync _ (Ok text) => [text]
                     | _ => []
                     end) evs.

(** The events of a computation that took the store [st] to [st']. *)
Definition newEvents (st st' : State) : list Event :=
  skipn (List.length (trace st)) (trace st').

End Runtime.

Declare Scope js_scope.
Delimit Scope js_scope with js.
Notation "x <- m ;; k" := (Runtime.bind m (fun x => k))
  (at level 100, m at next level, right associativity) : js_scope.
Notation "m ;;; k" := (Runtime.bind m (fun _ => k))
  (at level 100, right associativity) : js_scope.

Local Open Scope js_scope.

(** ** src/features/debugger/macro/macroDebugger.js *)

Module Debugger.
Import JS RegExp Runtime.

(** [/#define\s?macro\s?MAIN[\s\S]*?{[\s\S]*?}/gms] *)
Definition mainRegex : regex :=
  seq [Lit "#define"; Opt ws; Lit "macro"; Opt ws; Lit "MAIN";
       StarLazy any; Lit "{"; StarLazy any; Lit "}"].

(** [/#include\s\x22.*\x22/gm], writing [\x22] for the double quote *)
Definition includeRegex : regex :=
  seq [Lit "#include"; Cls ws; Lit DQ; Star dot; Lit DQ].

(** [/#include\s?\x22/] *)
Definition importDirectiveRegex : regex :=
  seq [Lit "#include"; Opt ws; Lit DQ].

(** [/<.*>/gm] *)
Definition jumpLabelRegex : regex :=
  seq [Lit "<"; Star dot; Lit ">"].

(** The pattern of a constructor definition, with the flags [gms]:
      #define\s+macro\s+CONSTRUCTOR\s?\(
      (?<args> [^\)]* ) \)\s?=\s?
      takes\s?\( (?<takes> [\d] ) \)\s?
      returns\s?\( (?<returns> [\d] ) \)\s?{
      (?<body> [\s\S]*? (?=}) )
    (laid out with spaces that the source does not have). *)
Definition constructorRegex : regex :=
  seq [Lit "#define"; Plus ws; Lit "macro"; Plus ws; Lit "CONSTRUCTOR";
       Opt ws; Lit "("; Group "args" (Star (notChar ")")); Lit ")";
       Opt ws; Lit "="; Opt ws; Lit "takes"; Opt ws;
       Lit "("; Group "takes" (Cls digit); Lit ")";
       Opt ws; Lit "returns"; Opt ws;
       Lit "("; Group "returns" (Cls digit); Lit ")";
       Opt ws; Lit "{";
       Group "body" (Seq (StarLazy any) (Ahead (Lit "}")))].

(** [createKeccakHash('keccak256').update(Buffer.from(macro.toString()))
      .digest('hex').toString('hex').slice(0, 42)] *)
Definition hevmContractAddress (macro : Macro) : string :=
  sliceTo 42 (Keccak.hex (Keccak.keccak256 (Keccak.bufferFrom (objectToString macro)))).

(** [currentFile.split('/').slice(0, -1).join('/')] *)
Definition dirPath (currentFile : string) : string :=
  join "/" (sliceButLast (split "/" currentFile)).

(** The paths of [createCompiledMacro]: the imports resolved against the
    directory of the current file, then the current file. *)
Definition resolveImport (h : Host) (cwd currentFile importPath : string) : string :=
  pathJoin h (cwd +:+ "/" +:+ dirPath currentFile)
    (removeFirst DQ
       (replaceFirst importDirectiveRegex (template EmptyString) importPath)).

Definition resolvePaths (h : Host) (cwd currentFile : string)
    (imports : list string) : list string :=
  map (resolveImport h cwd currentFile) imports ++ [cwd +:+ "/" +:+ currentFile].

(** One file of the flattened source: read, entry points removed, include
    directives removed. *)
Definition stripFile (text : string) : string :=
  replaceAll includeRegex (template EmptyString)
    (replaceAll mainRegex (template EmptyString) text).

Definition readStripped (h : Host) (path : string) : M string :=
  text <- call (fun tr => readFileSync h tr path) (ReadFileSync path) ;;
  ret (stripFile text).

Definition errorBlock : string := "error:" +:+ LF +:+ TAB +:+ "0x0 dup1 stop".

(** The macro body with its jump labels replaced and the error block
    appended. *)
Definition neutralise (macroBody : string) : string :=
  replaceAll jumpLabelRegex (template "error") macroBody +:+ errorBlock.

Definition isolateBody (macroBody : string) : M string :=
  if test jumpLabelRegex macroBody then
    emit [ConsoleLog "jump label found in macro"] ;;;
    ret (neutralise macroBody)
  else ret macroBody.

(** The value of [isolateBody]. *)
Definition isolated (macroBody : string) : string :=
  if test jumpLabelRegex macroBody then neutralise macroBody else macroBody.

(** The entry point that [createCompiledMacro] writes. *)
Definition entryPoint (args : list string) (macroBody : string) : string :=
  "#define macro MAIN() = takes(0) returns (0) {" +:+ LF
  +:+ "  " +:+ join " " args +:+ LF
  +:+ "  " +:+ macroBody +:+ LF
  +:+ "}".

Definition createCompiledMacro (h : Host) (cwd : string) (macro : Macro)
    (argsObject : positive) (currentFile : string) (imports : list string)
    : M string :=
  let paths := resolvePaths h cwd currentFile imports in
  files <- mapM (readStripped h) paths ;;
  macroBody <- isolateBody (body macro) ;;
  args <- reverseInPlace argsObject ;;
  ret (LF +:+ join LF files +:+ LF +:+ entryPoint args macroBody).

(** The [--state] clause of [runMacroDebugger]. *)
Definition stateClause (config : gmap string JsValue) (cwd : string) : string :=
  if toBoolean (get config "stateChecked") || toBoolean (get config "storageChecked")
  then "--state "
       +:+ (if toBoolean (get config "mountedDrive")
            then "/mnt/" +:+ toString (get config "mountedDrive")
            else EmptyString)
       +:+ cwd +:+ "/" +:+ toString (get config "statePath")
  else EmptyString.

Definition calldataClause (h : Host) (config : gmap string JsValue) : string :=
  if toBoolean (get config "calldataChecked")
  then "--calldata " +:+ formatEvenBytes h (get config "calldataValue")
  else EmptyString.

Definition valueClause (config : gmap string JsValue) : string :=
  if toBoolean (get config "callValueChecked")
  then "--value " +:+ toString (get config "callValue")
  else EmptyString.

(** The template literal of [runMacroDebugger]; a backslash at the end of a
    line of a template continues the line. *)
Definition hevmCommand (h : Host) (runtimeBytecode : string)
    (config : gmap string JsValue) (cwd : string) : string :=
  "hevm exec "
  +:+ "    --code " +:+ runtimeBytecode +:+ " "
  +:+ "    --address " +:+ toString (get config "hevmContractAddress") +:+ " "
  +:+ "    --caller " +:+ toString (get config "hevmCaller") +:+ " "
  +:+ "    --gas 0xffffffff "
  +:+ "    " +:+ stateClause config cwd +:+ " "
  +:+ "    " +:+ calldataClause h config +:+ " "
  +:+ "    " +:+ valueClause config +:+ " "
  +:+ "    --debug".

Definition runMacroDebugger (h : Host) (bytecode runtimeBytecode : string)
    (config : gmap string JsValue) (cwd : string) : M unit :=
  let command := hevmCommand h runtimeBytecode config cwd in
  call (fun tr => writeHevmCommand h tr command
                    (get config "tempHevmCommandFilename") cwd)
       (WriteHevmCommand command (get config "tempHevmCommandFilename") cwd) ;;;
  let terminalCommand := craftTerminalCommand h cwd config in
  emit [RunInUserTerminal terminalCommand].

(** The text of the [sstore] overrides, in the order of [stateValues]. *)
Definition overridesText (states : list (string * string)) : string :=
  fold_left
    (fun overrides state =>
       overrides +:+ fst state +:+ " " +:+ snd state +:+ " sstore" +:+ LF)
    states EmptyString.

Definition overrideStorage (macro : string) (config : gmap string JsValue)
    : Outcome string :=
  let constructorMatch := exec constructorRegex macro in
  match iterate (get config "stateValues") with
  | Throw e => Throw e
  | Ok states =>
      let overrides := overridesText states in
      match constructorMatch with
      | Some (index, len, _) =>
          (* append overrides to the end of the constructor macro *)
          Ok (replaceAll constructorRegex
                (template (sliceTo len (sliceFrom index macro) +:+ LF +:+ TAB +:+ overrides))
                macro)
      | None =>
          (* otherwise create a constructor at the end *)
          Ok (macro +:+ LF
              +:+ "#define macro CONSTRUCTOR() = takes(0) returns(0) {"
              +:+ LF +:+ TAB +:+ overrides +:+ "}")
      end
  end.

Definition errorMessage : string :=
  "Macro Compilation Error, this is pre-release software, please report this issue to the huff team in the discord".

(** The configuration object of a session. *)
Definition sessionConfig (h : Host) (options : gmap string JsValue)
    (mountedDrive : JsValue) (macro : Macro) : gmap string JsValue :=
  <["hevmContractAddress" := VString (hevmContractAddress macro)]>
    (<["mountedDrive" := mountedDrive]> (spread (hevmConfig h) options)).

Definition mountedDriveOf (h : Host) (sourceDirectory : string) : JsValue :=
  if isWsl h then
    match wslMountedDrive h sourceDirectory with
    | Some drive => VString drive
    | None => VUndefined
    end
  else VNull.

Definition workingDirectory (h : Host) (sourceDirectory : string) : string :=
  removeFirst "/c:"
    (if isWsl h
     then removeFirst ("/mnt/" +:+ toString (mountedDriveOf h sourceDirectory))
            sourceDirectory
     else sourceDirectory).

Definition pipeline (h : Host) (cwd currentFile : string) (imports : list string)
    (macro : Macro) (argsObject : positive) (config : gmap string JsValue)
    : M Completion :=
  compilableMacro <- createCompiledMacro h cwd macro argsObject currentFile imports ;;
  compilableMacro <-
    (if toBoolean (get config "storageChecked")
     then lift (overrideStorage compilableMacro config)
     else ret compilableMacro) ;;
  bytecode <- call (fun tr => compileFromFile h tr compilableMacro
                                (get config "tempMacroFilename") cwd)
                (CompileFromFile compilableMacro (get config "tempMacroFilename") cwd) ;;
  runtimeBytecode <- call (fun tr => deployContract h tr bytecode config cwd)
                       (DeployContract bytecode config cwd) ;;
  runMacroDebugger h bytecode runtimeBytecode config cwd ;;;
  ret ReturnedUndefined.

Definition startMacroDebugger (h : Host) (sourceDirectory currentFile : string)
    (imports : list string) (macro : Macro) (argsObject : positive)
    (options : gmap string JsValue) : M Completion :=
  fun st =>
    let (shown, installed) := checkInstallations h (trace st) in
    let st := {| heap := heap st;
                 trace := trace st ++ map ShowErrorMessage shown |} in
    if negb installed then (st, Ok ReturnedUndefined)
    else
      let mountedDrive := mountedDriveOf h sourceDirectory in
      let cwd := workingDirectory h sourceDirectory in
      tryCatch
        (pipeline h cwd currentFile imports macro argsObject
           (sessionConfig h options mountedDrive macro))
        (fun e => emit [RegisterError e errorMessage] ;;; ret ReturnedNull)
        st.

End Debugger.

(** ** src/features/viewer/macroDebugger.js *)

Module Viewer.
Import JS RegExp Runtime.

(** [/#define\s?macro\s?MAIN[\s\S]*?{[\s\S]*?}/gsm] *)
Definition mainRegex : regex :=
  seq [Lit "#define"; Opt ws; Lit "macro"; Opt ws; Lit "MAIN";
       StarLazy any; Lit "{"; StarLazy any; Lit "}"].

(** [/#include\s\x22.*\x22/gsm]: with the flag [s] the dot matches line
    terminators too. *)
Definition includeRegex : regex :=
  seq [Lit "#include"; Cls ws; Lit DQ; Star any; Lit DQ].

(** [/#include\s?\x22./] *)
Definition importDirectiveRegex : regex :=
  seq [Lit "#include"; Opt ws; Lit DQ; Cls dot].

Definition hevmContractAddress (macro : Macro) : string :=
  sliceTo 42 (Keccak.hex (Keccak.keccak256 (Keccak.bufferFrom (objectToString macro)))).

Definition dirPath (currentFile : string) : string :=
  join "/" (sliceButLast (split "/" currentFile)).

Definition resolveImport (cwd currentFile importPath : string) : string :=
  cwd +:+ "/" +:+ dirPath currentFile
  +:+ removeFirst DQ
        (replaceFirst importDirectiveRegex (template EmptyString) importPath).

Definition resolvePaths (cwd currentFile : string) (imports : list string)
    : list string :=
  map (resolveImport cwd currentFile) imports ++ [cwd +:+ "/" +:+ currentFile].

Definition stripFile (text : string) : string :=
  replaceAll includeRegex (template EmptyString)
    (replaceAll mainRegex (template EmptyString) text).

Definition readStripped (h : Host) (path : string) : M string :=
  text <- call (fun tr => readFileSync h tr path) (ReadFileSync path) ;;
  ret (stripFile text).

(** The entry point that [createCompiledMacro] writes. *)
Definition entryPoint (args : list string) (macroBody : string) : string :=
  "#define macro MAIN() = takes(0) returns (0) {" +:+ LF
  +:+ "  " +:+ join " " args +:+ LF
  +:+ "  " +:+ macroBody +:+ LF
  +:+ "}".

Definition createCompiledMacro (h : Host) (cwd : string) (macro : Macro)
    (argsObject : positive) (currentFile : string) (imports : list string)
    : M string :=
  let paths := resolvePaths cwd currentFile imports in
  files <- mapM (readStripped h) paths ;;
  args <- readArray argsObject ;;
  ret (LF +:+ join LF files +:+ LF +:+ entryPoint args (body macro)).

Definition stateClause (config : gmap string JsValue) (cwd : string) : string :=
  if toBoolean (get config "stateChecked") || toBoolean (get config "storageChecked")
  then "--state " +:+ cwd +:+ "/" +:+ toString (get config "statePath")
  else EmptyString.

Definition calldataClause (h : Host) (config : gmap string JsValue) : string :=
  if toBoolean (get config "calldataChecked")
  then "--calldata " +:+ formatEvenBytes h (get config "calldataValue")
  else EmptyString.

Definition hevmCommand (h : Host) (runtimeBytecode : string)
    (config : gmap string JsValue) (cwd : string) : string :=
  "hevm exec "
  +:+ "    --code " +:+ runtimeBytecode +:+ " "
  +:+ "    --address " +:+ toString (get config "hevmContractAddress") +:+ " "
  +:+ "    --caller " +:+ toString (get config "hevmCaller") +:+ " "
  +:+ "    --gas 0xffffffff "
  +:+ "    " +:+ stateClause config cwd +:+ " "
  +:+ "    " +:+ calldataClause h config +:+ " "
  +:+ "    --debug".

Definition runMacroDebugger (h : Host) (bytecode runtimeBytecode : string)
    (config : gmap string JsValue) (cwd : string) : M unit :=
  (* If state is provided, we need to deploy the contract and persist
     constructor storage *)
  (if toBoolean (get config "stateChecked")
   then call (fun tr => deployContract h tr bytecode config cwd)
          (DeployContract bytecode config cwd) ;;; ret tt
   else ret tt) ;;;
  let command := hevmCommand h runtimeBytecode config cwd in
  call (fun tr => writeHevmCommand h tr command
                    (get config "tempHevmCommandFilename") cwd)
       (WriteHevmCommand command (get config "tempHevmCommandFilename") cwd) ;;;
  emit [RunInUserTerminal
          ("`cat " +:+ cwd +:+ "/"
           +:+ toString (get config "tempHevmCommandFilename") +:+ "`")].

Definition overrideStorage (macro : string) (config : gmap string JsValue)
    : Outcome string :=
  match iterate (get config "stateValues") with
  | Throw e => Throw e
  | Ok states =>
      Ok (macro
          +:+ fold_left
                (fun content state =>
                   content +:+ fst state +:+ " " +:+ snd state +:+ " sstore" +:+ LF)
                states
                (LF +:+ "#define macro CONSTRUCTOR() = takes(0) returns(0) {" +:+ LF)
          +:+ "}")
  end.

Definition errorMessage : string :=
  "Macro Compilation Error, this is pre-release software, please report this issue to the huff team in the discord".

Definition sessionConfig (h : Host) (options : gmap string JsValue)
    (macro : Macro) : gmap string JsValue :=
  <["hevmContractAddress" := VString (hevmContractAddress macro)]>
    (spread (hevmConfig h) options).

Definition pipeline (h : Host) (sourceDirectory currentFile : string)
    (imports : list string) (macro : Macro) (argsObject : positive)
    (config : gmap string JsValue) : M Completion :=
  compilableMacro <-
    createCompiledMacro h sourceDirectory macro argsObject currentFile imports ;;
  compilableMacro <-
    (if toBoolean (get config "storageChecked")
     then lift (overrideStorage compilableMacro config)
     else ret compilableMacro) ;;
  bytecode <- call (fun tr => compileFromFile h tr compilableMacro
                                (get config "tempMacroFilename") sourceDirectory)
                (CompileFromFile compilableMacro (get config "tempMacroFilename")
                   sourceDirectory) ;;
  runtimeBytecode <- call (fun tr => deployContract h tr bytecode config sourceDirectory)
                       (DeployContract bytecode config sourceDirectory) ;;
  runMacroDebugger h bytecode runtimeBytecode config sourceDirectory ;;;
  ret ReturnedUndefined.

Definition startMacroDebugger (h : Host) (sourceDirectory currentFile : string)
    (imports : list string) (macro : Macro) (argsObject : positive)
    (options : gmap string JsValue) : M Completion :=
  fun st =>
    let (shown, installed) := checkInstallations h (trace st) in
    let st := {| heap := heap st;
                 trace := trace st ++ map ShowErrorMessage shown |} in
    if negb installed then (st, Ok ReturnedUndefined)
    else
      tryCatch
        (pipeline h sourceDirectory currentFile imports macro argsObject
           (sessionConfig h options macro))
        (fun e => emit [RegisterError e errorMessage] ;;; ret ReturnedNull)
        st.

End Viewer.

(** ** src/features/debugger/function/debugger.js: [flattenFile] *)

Module FunctionDebugger.
Import JS RegExp Runtime.

(** The pattern of an entry point definition, with the flags [gms]:
      #define\s+macro\s+MAIN\s?\(
      (?<args> [^\)]* ) \)\s?=\s?
      takes\s?\( (?<takes> [\d] ) \)\s?
      returns\s?\( (?<returns> [\d] ) \)\s?{
      (?<body> [\s\S]*? (?=}) ) }
    (laid out with spaces that the source does not have). *)
Definition mainRegex : regex :=
  seq [Lit "#define"; Plus ws; Lit "macro"; Plus ws; Lit "MAIN";
       Opt ws; Lit "("; Group "args" (Star (notChar ")")); Lit ")";
       Opt ws; Lit "="; Opt ws; Lit "takes"; Opt ws;
       Lit "("; Group "takes" (Cls digit); Lit ")";
       Opt ws; Lit "returns"; Opt ws;
       Lit "("; Group "returns" (Cls digit); Lit ")";
       Opt ws; Lit "{";
       Group "body" (Seq (StarLazy any) (Ahead (Lit "}")));
       Lit "}"].

(** [/#include\s\x22.*\x22/gm] *)
Definition includeRegex : regex :=
  seq [Lit "#include"; Cls ws; Lit DQ; Star dot; Lit DQ].

(** [/#include\s?\x22/] *)
Definition importDirectiveRegex : regex :=
  seq [Lit "#include"; Opt ws; Lit DQ].

Definition dirPath (currentFile : string) : string :=
  join "/" (sliceButLast (split "/" currentFile)).

Definition resolveImport (h : Host) (cwd currentFile importPath : string) : string :=
  pathJoin h (cwd +:+ "/" +:+ dirPath currentFile)
    (removeFirst DQ
       (replaceFirst importDirectiveRegex (template EmptyString) importPath)).

Definition flattenFile (h : Host) (cwd currentFile : string)
    (imports : list string) : M string :=
  let paths := map (resolveImport h cwd currentFile) imports in
  current <- call (fun tr => readFileSync h tr (cwd +:+ "/" +:+ currentFile))
               (ReadFileSync (cwd +:+ "/" +:+ currentFile)) ;;
  others <- mapM (fun path =>
                    text <- call (fun tr => readFileSync h tr path) (ReadFileSync path) ;;
                    ret (replaceAll mainRegex (template EmptyString) text))
              paths ;;
  ret (replaceAll includeRegex (template EmptyString) (join LF (current :: others))).

End FunctionDebugger.

(** ** [path.join] of Node, on POSIX

    The collaborator that the examples below give to the code: the segments
    are joined by a slash and the result is normalised. *)

Module NodePath.
Import JS.

(** [normalizeString]: empty segments and single dots are dropped, and two
    dots take back the segment before them, or stay when there is none to
    take back and the path is relative. [res] holds the segments kept so
    far, the last one first. *)
Fixpoint normalizeSegments (allowAboveRoot : bool) (res segments : list string)
    : list string :=
  match segments with
  | [] => rev res
  | segment :: rest =>
      if String.eqb segment EmptyString || String.eqb segment "." then
        normalizeSegments allowAboveRoot res rest
      else if String.eqb segment ".." then
        match res with
        | last :: before =>
            if String.eqb last ".." then
              normalizeSegments allowAboveRoot
                (if allowAboveRoot then ".." :: res else res) rest
            else normalizeSegments allowAboveRoot before rest
        | [] =>
            normalizeSegments allowAboveRoot
              (if allowAboveRoot then [".."] else []) rest
        end
      else normalizeSegments allowAboveRoot (segment :: res) rest
  end.

Fixpoint endsWithSlash (path : string) : bool :=
  match path with
  | EmptyString => false
  | String c EmptyString => Ascii.eqb c "/"
  | String _ rest => endsWithSlash rest
  end.

(** [path.isAbsolute] *)
Definition isAbsolute (path : string) : bool :=
  match path with
  | String c _ => Ascii.eqb c "/"
  | EmptyString => false
  end.

(** [path.normalize] *)
Definition normalize (path : string) : string :=
  match path with
  | EmptyString => "."
  | _ =>
      let segments :=
        normalizeSegments (negb (isAbsolute path)) [] (split "/" path) in
      match join "/" segments with
      | EmptyString =>
          if isAbsolute path then "/"
          else if endsWithSlash path then "./" else "."
      | normalized =>
          (if isAbsolute path then "/" else EmptyString)
          +:+ normalized
          +:+ (if endsWithSlash path then "/" else EmptyString)
      end
  end.

(** [path.join(a, b)]: the segments that are not empty, joined by a slash and
    normalised. *)
Definition joinPaths (a b : string) : string :=
  match a, b with
  | EmptyString, EmptyString => "."
  | EmptyString, _ => normalize b
  | _, EmptyString => normalize a
  | _, _ => normalize (a +:+ "/" +:+ b)
  end.

End NodePath.

(** ** A concrete host, for the sessions evaluated below *)

Module Example.
Import JS Runtime.

(** A file system with the given files and nothing else. *)
Definition fileSystem (files : list (string * string))
    (_ : list Event) (path : string) : Outcome string :=
  match List.find (fun f => String.eqb (fst f) path) files with
  | Some (_, text) => Ok text
  | None => Throw (Error ("ENOENT: no such file or directory, open '" +:+ path +:+ "'"))
  end.

Definition defaults : gmap string JsValue :=
  {[ "hevmCaller" := VString "0x0000000000000000000000000000000000000069";
     "statePath" := VString "cache/huff_debug_hevm_state";
     "tempMacroFilename" := VString "cache/tempMacro";
     "tempHevmCommandFilename" := VString "cache/hevmtemp" ]}.

(** Every tool is installed and succeeds; the compiler and the simulator
    answer with fixed byte code. *)
Definition host (files : list (string * string)) : Host :=
  {| checkInstallations := fun _ => ([], true);
     readFileSync := fileSystem files;
     pathJoin := NodePath.joinPaths;
     compileFromFile := fun _ _ _ _ => Ok "600080600a3d393df3";
     deployContract := fun _ _ _ _ => Ok "0x00";
     writeHevmCommand := fun _ _ _ _ => Ok tt;
     craftTerminalCommand := fun cwd config =>
       "`cat " +:+ cwd +:+ "/" +:+ toString (get config "tempHevmCommandFilename") +:+ "`";
     formatEvenBytes := toString;
     hevmConfig := defaults;
     isWsl := false;
     wslMountedDrive := fun _ => None |}.

(** A workspace with one file, which has an entry point. *)
Definition workspace : list (string * string) :=
  [("/ws/src/Main.huff",
    "#define macro MAIN() = takes(0) returns (0) {" +:+ LF
    +:+ "  0x00 0x00 return" +:+ LF
    +:+ "}")].

(** The same host, with a simulator that answers the second deployment of a
    session differently from the first. *)
Definition hostCounting (files : list (string * string)) : Host :=
  {| checkInstallations := checkInstallations (host files);
     readFileSync := readFileSync (host files);
     pathJoin := pathJoin (host files);
     compileFromFile := compileFromFile (host files);
     deployContract := fun tr _ _ _ =>
       if existsb isDeploy tr then Ok "0x6002" else Ok "0x6001";
     writeHevmCommand := writeHevmCommand (host files);
     craftTerminalCommand := craftTerminalCommand (host files);
     formatEvenBytes := formatEvenBytes (host files);
     hevmConfig := hevmConfig (host files);
     isWsl := false;
     wslMountedDrive := fun _ => None |}.

(** A host on which the tools are not installed. *)
Definition hostWithoutTools (files : list (string * string)) : Host :=
  {| checkInstallations := fun _ => checkHevmInstallation false;
     readFileSync := readFileSync (host files);
     pathJoin := pathJoin (host files);
     compileFromFile := compileFromFile (host files);
     deployContract := deployContract (host files);
     writeHevmCommand := writeHevmCommand (host files);
     craftTerminalCommand := craftTerminalCommand (host files);
     formatEvenBytes := formatEvenBytes (host files);
     hevmConfig := hevmConfig (host files);
     isWsl := false;
     wslMountedDrive := fun _ => None |}.

(** A host whose compiler rejects every source. *)
Definition hostFailingCompiler (files : list (string * string)) : Host :=
  {| checkInstallations := checkInstallations (host files);
     readFileSync := readFileSync (host files);
     pathJoin := pathJoin (host files);
     compileFromFile := fun _ _ _ _ => Throw (Error "Command failed: huffc");
     deployContract := deployContract (host files);
     writeHevmCommand := writeHevmCommand (host files);
     craftTerminalCommand := craftTerminalCommand (host files);
     formatEvenBytes := formatEvenBytes (host files);
     hevmConfig := hevmConfig (host files);
     isWsl := false;
     wslMountedDrive := fun _ => None |}.

(** A file whose entry point has two spaces after [#define]. *)
Definition spacedMain : string :=
  "#define  macro MAIN() = takes(0) returns (0) {" +:+ LF
  +:+ "  0x00 0x00 return" +:+ LF
  +:+ "}".

(** A file whose entry point has braces in its body. *)
Definition nestedMain : string :=
  "#define macro MAIN() = takes(0) returns (0) {" +:+ LF
  +:+ "  {a} b" +:+ LF
  +:+ "}".

(** A flattened source with a constructor. *)
Definition withConstructor : string :=
  "#define macro CONSTRUCTOR() = takes(0) returns (0) {" +:+ LF
  +:+ "  0x01 0x00 sstore" +:+ LF
  +:+ "}" +:+ LF
  +:+ "#define macro MAIN() = takes(0) returns (0) {" +:+ LF
  +:+ "  stop" +:+ LF
  +:+ "}".

(** A flattened source with two constructors. *)
Definition withTwoConstructors : string :=
  "#define macro CONSTRUCTOR() = takes(0) returns (0) {" +:+ LF
  +:+ "  0x01 0x00 sstore" +:+ LF
  +:+ "}" +:+ LF
  +:+ "#define macro CONSTRUCTOR() = takes(0) returns (0) {" +:+ LF
  +:+ "  caller 0x02 sstore" +:+ LF
  +:+ "}".

(** Two storage overrides. *)
Definition twoOverrides : gmap string JsValue :=
  {[ "stateValues" :=
       VStates [ {| key := "0x00"; value := "0x2a" |};
                 {| key := "0x01"; value := "0x2b" |} ] ]}.

Definition emptyState : State := {| heap := ∅; trace := [] |}.

(** A store in which [argsObject] is the array at address 1. *)
Definition withArgs (args : list string) : State :=
  {| heap := {[ 1%positive := args ]}; trace := [] |}.

Definition stopMacro : Macro := {| body := "stop"; takes := 0; returns := 0 |}.
Definition addMacro : Macro := {| body := "0x01 0x02 add"; takes := 0; returns := 0 |}.

End Example.

(** ** Properties of texts that the statements below use *)

Module Props.
Import JS Runtime.

(** [pat] occurs in [s]. *)
Definition occursIn (pat s : string) : Prop :=
  exists before after, s = before +:+ pat +:+ after.

(** Every character of [s] is in the class [p]. *)
Fixpoint allChars (p : ascii -> bool) (s : string) : bool :=
  match s with
  | EmptyString => true
  | String c t => p c && allChars p t
  end.

Definition notDash (c : ascii) : bool := negb (Ascii.eqb c "-").
Definition notLineTerminator (c : ascii) : bool := negb (isLineTerminator c).

(** A jump label reference: [<], then characters of one line, then [>]. *)
Definition hasLabelReference (s : string) : Prop :=
  exists before label after,
    s = before +:+ "<" +:+ label +:+ ">" +:+ after /\
    allChars notLineTerminator label = true.

(** At least two distinct elements. *)
Definition twoDistinct (args : list string) : Prop :=
  exists x y, In x args /\ In y args /\ x <> y.

(** [pat] cannot start at the front of [a], whatever follows [a]: the two
    differ at a position that both have. *)
Fixpoint clashes (pat a : string) : bool :=
  match pat, a with
  | String p pat', String c a' => if Ascii.eqb p c then clashes pat' a' else true
  | _, _ => false
  end.

(** [pat] cannot start anywhere in [a], whatever follows [a]. *)
Fixpoint clashesEverywhere (pat a : string) : bool :=
  match a with
  | EmptyString => true
  | String _ a' => clashes pat a && clashesEverywhere pat a'
  end.

(** One store instruction for an override: value, key, sstore. *)
Definition storeLine (state : string * string) : string :=
  fst state +:+ " " +:+ snd state +:+ " sstore" +:+ LF.

(** A [>] comes before the end of the line that [s] starts in. *)
Fixpoint gtOnLine (s : string) : bool :=
  match s with
  | EmptyString => false
  | String c t =>
      if isLineTerminator c then false
      else if Ascii.eqb c ">" then true
      else gtOnLine t
  end.

(** No [<] of [s] has a [>] after it on its line. *)
Fixpoint noLabelReference (s : string) : bool :=
  match s with
  | EmptyString => true
  | String c t =>
      (if Ascii.eqb c "<" then negb (gtOnLine t) else true) && noLabelReference t
  end.

(** The greedy part of the jump label pattern, after the opening bracket. *)
Definition labelRest (t : string) (i : nat) : RegExp.Result :=
  RegExp.starGreedy RegExp.dot
    (fun t' j =>
       RegExp.matcher (RegExp.Lit ">") t' j [] (fun _ j' cs => Some (j', cs)))
    t i.

End Props.

(** ** The shape of a session

    What the [try] block of [startMacroDebugger] can leave in the trace, for
    the macro debugger and for the viewer. *)

Module Sessions.
Import JS Runtime.

(** Events before anything is deployed, written or run. *)
Definition quiet (e : Event) : bool :=
  match e with
  | ShowErrorMessage _ | ConsoleLog _ | ReadFileSync _ _ | CompileFromFile _ _ _ _ => true
  | _ => false
  end.

(** Quiet events, every step of which succeeded. *)
Definition calm (pre : list Event) : Prop :=
  forallb quiet pre = true /\ existsb failedStep pre = false.

(** Quiet events, the steps of which succeeded or threw [e]. *)
Definition stopped (pre : list Event) (e : Exn) : Prop :=
  forallb quiet pre = true /\
  forall x, In x pre -> failedStep x = true -> thrownBy x = Some e.

Section Run.
(** Whether the contract is deployed again to persist the constructor's
    storage; the configuration and the working directory of the session;
    the debug command for a runtime byte code; the command for the
    terminal. *)
Variable again : bool.
Variable config : gmap string JsValue.
Variable cwd : string.
Variable command : string -> string.
Variable terminal : string.

(** The deployment that [runMacroDebugger] of the viewer adds. *)
Definition persisted (bytecode : string) (answer : Outcome string) : list Event :=
  if again then [DeployContract bytecode config cwd answer] else [].

Definition written (runtime : string) (answer : Outcome unit) : Event :=
  WriteHevmCommand (command runtime) (get config "tempHevmCommandFilename") cwd answer.

Inductive run : list Event -> Outcome Completion -> Prop :=
| run_aborts pre e :
    stopped pre e ->
    run pre (Throw e)
| run_deploy_fails pre bytecode e :
    calm pre ->
    run (pre ++ [DeployContract bytecode config cwd (Throw e)]) (Throw e)
| run_persist_fails pre bytecode runtime e :
    calm pre -> again = true ->
    run (pre ++ [DeployContract bytecode config cwd (Ok runtime);
                 DeployContract bytecode config cwd (Throw e)])
        (Throw e)
| run_write_fails pre bytecode runtime runtime' e :
    calm pre ->
    run (pre ++ [DeployContract bytecode config cwd (Ok runtime)]
             ++ persisted bytecode (Ok runtime')
             ++ [written runtime (Throw e)])
        (Throw e)
| run_launches pre bytecode runtime runtime' :
    calm pre ->
    run (pre ++ [DeployContract bytecode config cwd (Ok runtime)]
             ++ persisted bytecode (Ok runtime')
             ++ [written runtime (Ok tt); RunInUserTerminal terminal])
        (Ok ReturnedUndefined).

End Run.

(** What the [catch] block adds, and what the function returns. *)
Definition handled (message : string) (r : Outcome Completion) : list Event :=
  match r with
  | Ok _ => []
  | Throw e => [RegisterError e message]
  end.

Definition completion (r : Outcome Completion) : Completion :=
  match r with
  | Ok c => c
  | Throw _ => ReturnedNull
  end.

(** A computation that leaves only quiet events, and when it throws, throws
    what its failed step threw. *)
Definition steady {A} (m : M A) : Prop :=
  forall st, exists evs,
    trace (fst (m st)) = trace st ++ evs /\
    match snd (m st) with
    | Ok _ => calm evs
    | Throw e => stopped evs e
    end.

(** The pipelines up to the compilation. *)
Definition debuggerFront (h : Host) (cwd currentFile : string) (imports : list string)
    (macro : Macro) (argsObject : positive) (config : gmap string JsValue)
    : M string :=
  (compilableMacro <- Debugger.createCompiledMacro h cwd macro argsObject currentFile imports ;;
   compilableMacro <-
     (if toBoolean (get config "storageChecked")
      then lift (Debugger.overrideStorage compilableMacro config)
      else ret compilableMacro) ;;
   call (fun tr => compileFromFile h tr compilableMacro
                     (get config "tempMacroFilename") cwd)
     (CompileFromFile compilableMacro (get config "tempMacroFilename") cwd))%js.

Definition viewerFront (h : Host) (cwd currentFile : string) (imports : list string)
    (macro : Macro) (argsObject : positive) (config : gmap string JsValue)
    : M string :=
  (compilableMacro <- Viewer.createCompiledMacro h cwd macro argsObject currentFile imports ;;
   compilableMacro <-
     (if toBoolean (get config "storageChecked")
      then lift (Viewer.overrideStorage compilableMacro config)
      else ret compilableMacro) ;;
   call (fun tr => compileFromFile h tr compilableMacro
                     (get config "tempMacroFilename") cwd)
     (CompileFromFile compilableMacro (get config "tempMacroFilename") cwd))%js.

(** A session: the installation check, then the [try] block and its
    [catch]. [new] are the events of the session. *)
Definition session (again : bool) (config : gmap string JsValue) (cwd : string)
    (command : string -> string) (terminal : string)
    (message : string) (check : list string * bool)
    (new : list Event) (result : Outcome Completion) : Prop :=
  if snd check then
    exists evs r,
      run again config cwd command terminal evs r /\
      new = map ShowErrorMessage (fst check) ++ evs ++ handled message r /\
      result = Ok (completion r)
  else
    new = map ShowErrorMessage (fst check) /\ result = Ok ReturnedUndefined.

(** The two implementations of the macro debugging session. *)
Inductive Implementation : Type :=
| MacroDebugger      (* features/debugger/macro/macroDebugger.js *)
| ViewerDebugger.    (* features/viewer/macroDebugger.js *)

Definition startMacroDebugger (impl : Implementation)
    : Host -> string -> string -> list string -> Macro -> positive ->
      gmap string JsValue -> M Completion :=
  match impl with
  | MacroDebugger => Debugger.startMacroDebugger
  | ViewerDebugger => Viewer.startMacroDebugger
  end.

Definition cwdOf (impl : Implementation) (h : Host) (sourceDirectory : string) : string :=
  match impl with
  | MacroDebugger => Debugger.workingDirectory h sourceDirectory
  | ViewerDebugger => sourceDirectory
  end.

Definition configOf (impl : Implementation) (h : Host) (sourceDirectory : string)
    (options : gmap string JsValue) (macro : Macro) : gmap string JsValue :=
  match impl with
  | MacroDebugger =>
      Debugger.sessionConfig h options (Debugger.mountedDriveOf h sourceDirectory) macro
  | ViewerDebugger => Viewer.sessionConfig h options macro
  end.

Definition commandOf (impl : Implementation) (h : Host)
    (config : gmap string JsValue) (cwd : string) (runtime : string) : string :=
  match impl with
  | MacroDebugger => Debugger.hevmCommand h runtime config cwd
  | ViewerDebugger => Viewer.hevmCommand h runtime config cwd
  end.

Definition terminalOf (impl : Implementation) (h : Host)
    (config : gmap string JsValue) (cwd : string) : string :=
  match impl with
  | MacroDebugger => craftTerminalCommand h cwd config
  | ViewerDebugger =>
      "`cat " +:+ cwd +:+ "/"
      +:+ toString (get config "tempHevmCommandFilename") +:+ "`"
  end.

(** Whether the session deploys a second time. *)
Definition againOf (impl : Implementation) (config : gmap string JsValue) : bool :=
  match impl with
  | MacroDebugger => false
  | ViewerDebugger => toBoolean (get config "stateChecked")
  end.

Definition messageOf (impl : Implementation) : string :=
  match impl with
  | MacroDebugger => Debugger.errorMessage
  | ViewerDebugger => Viewer.errorMessage
  end.

(** The clauses of a debug command without state, calldata and call value. *)
Definition bareClauses (command : string) : Prop :=
  Props.occursIn "--code" command /\
  Props.occursIn "--address" command /\
  Props.occursIn "--caller" command /\
  Props.occursIn "--gas 0xffffffff" command /\
  Props.occursIn "--debug" command /\
  ~ Props.occursIn "--state" command /\
  ~ Props.occursIn "--calldata" command /\
  ~ Props.occursIn "--value" command.

(** The text of a debug command without state, calldata and call value. *)
Definition bareCommand (impl : Implementation) (runtime address caller : string)
    : string :=
  "hevm exec     --code " +:+ runtime
  +:+ "     --address " +:+ address
  +:+ "     --caller " +:+ caller
  +:+ match impl with
      | MacroDebugger => "     --gas 0xffffffff                    --debug"
      | ViewerDebugger => "     --gas 0xffffffff               --debug"
      end.

End Sessions.

(** ** src/features/debugger/function/debugger.js: the session *)

Module FunctionSession.
Import JS RegExp Runtime.

(** [functionSelector], of which the code reads element 0: of a string its
    first character, of an array its first element. *)
Inductive Selector : Type :=
| SelectorString (text : string)
| SelectorArray (elements : list string).

(** [functionSelector[0]] *)
Definition element0 (functionSelector : Selector) : JsValue :=
  match functionSelector with
  | SelectorString (String c _) => VString (String c EmptyString)
  | SelectorString EmptyString => VUndefined
  | SelectorArray (x :: _) => VString x
  | SelectorArray [] => VUndefined
  end.

(** An error in a template literal: [Error.prototype.toString]. *)
Definition errorToString (e : Exn) : string :=
  match e with
  | Error EmptyString => "Error"
  | Error message => "Error: " +:+ message
  | TypeError EmptyString => "TypeError"
  | TypeError message => "TypeError: " +:+ message
  end.

Definition encodingMessage (e : Exn) : string :=
  "Compilation failed" +:+ LF +:+ "See" +:+ LF +:+ errorToString e.

(** [encodeCalldata]; [abiEncode types values] is [new AbiCoder().encode].
    Each argument is a pair of its type and its value. The function returns
    the calldata, or nothing when its [catch] block ran. *)
Definition encodeCalldata (abiEncode : list string -> list string -> Outcome string)
    (functionSelector : Selector) (argsObject : list (string * string))
    : M JsValue :=
  emit [ConsoleLog "Preparing debugger calldata..."] ;;;
  tryCatch
    (if (List.length argsObject =? 0)%nat
     then ret (VString ("0x" +:+ toString (element0 functionSelector)))
     else
       encoded <- lift (abiEncode (map fst argsObject) (map snd argsObject)) ;;
       ret (VString ("0x" +:+ toString (element0 functionSelector)
                     +:+ sliceFrom 2 encoded)))
    (fun e => emit [RegisterError e (encodingMessage e)] ;;; ret VUndefined).

(** [createKeccakHash('keccak256').update(Buffer.from(currentFile))
      .digest('hex').toString('hex').slice(0, 42)] *)
Definition hevmContractAddress (currentFile : string) : string :=
  sliceTo 42 (Keccak.hex (Keccak.keccak256 (Keccak.bufferFrom currentFile))).

Definition mountedDriveOf (h : Host) (sourceDirectory : string) : JsValue :=
  if isWsl h then
    match wslMountedDrive h sourceDirectory with
    | Some drive => VString drive
    | None => VUndefined
    end
  else VNull.

Definition workingDirectory (h : Host) (sourceDirectory : string) : string :=
  removeFirst "/c:"
    (if isWsl h
     then removeFirst ("/mnt/" +:+ toString (mountedDriveOf h sourceDirectory))
            sourceDirectory
     else sourceDirectory).

(** The configuration object of a session: the defaults, the options over
    them, then the three fields that the session sets itself. *)
Definition sessionConfig (h : Host) (options : gmap string JsValue)
    (mountedDrive : JsValue) (currentFile : string) : gmap string JsValue :=
  <["mountedDrive" := mountedDrive]>
    (<["stateChecked" := VBool true]>
       (<["hevmContractAddress" := VString (hevmContractAddress currentFile)]>
          (spread (hevmConfig h) options))).

(** The path after [--state] in [runDebugger]. *)
Definition stateFile (config : gmap string JsValue) (cwd : string) : string :=
  (if toBoolean (get config "mountedDrive")
   then "/mnt/" +:+ toString (get config "mountedDrive")
   else EmptyString)
  +:+ cwd +:+ "/" +:+ toString (get config "statePath").

Definition valueClause (config : gmap string JsValue) : string :=
  if toBoolean (get config "callValueChecked")
  then "--value " +:+ toString (get config "callValue")
  else EmptyString.

Definition calldataClause (calldata : JsValue) : string :=
  if toBoolean calldata then "--calldata " +:+ toString calldata else EmptyString.

(** The template literal of [runDebugger]. *)
Definition hevmCommand (bytecode : string) (calldata : JsValue)
    (config : gmap string JsValue) (cwd : string) : string :=
  "hevm exec "
  +:+ "  --code " +:+ bytecode +:+ " "
  +:+ "  --address " +:+ toString (get config "hevmContractAddress") +:+ " "
  +:+ "  --caller " +:+ toString (get config "hevmCaller") +:+ " "
  +:+ "  --gas 0xffffffff "
  +:+ "  --state " +:+ stateFile config cwd +:+ " "
  +:+ "  --debug "
  +:+ "  " +:+ valueClause config +:+ " "
  +:+ "  " +:+ calldataClause calldata.

Definition runDebugger (h : Host) (bytecode : string) (calldata : JsValue)
    (flags config : gmap string JsValue) (cwd : string) : M unit :=
  emit [ConsoleLog "Entering debugger..."] ;;;
  let command := hevmCommand bytecode calldata config cwd in
  call (fun tr => writeHevmCommand h tr command
                    (get config "tempHevmCommandFilename") cwd)
       (WriteHevmCommand command (get config "tempHevmCommandFilename") cwd) ;;;
  let terminalCommand := craftTerminalCommand h cwd config in
  emit [RunInUserTerminal terminalCommand].

Definition errorMessage : string :=
  "Compilation failed, please contact the team in the huff discord".

(** The [try] block of [startDebugger] after the installation check. *)
Definition pipeline (h : Host)
    (abiEncode : list string -> list string -> Outcome string)
    (cwd currentFile : string) (imports : list string)
    (functionSelector : Selector) (argsArray : list (string * string))
    (options config : gmap string JsValue) : M Completion :=
  calldata <- encodeCalldata abiEncode functionSelector argsArray ;;
  compilableFile <- FunctionDebugger.flattenFile h cwd currentFile imports ;;
  bytecode <- call (fun tr => compileFromFile h tr compilableFile
                                (get config "tempMacroFilename") cwd)
                (CompileFromFile compilableFile (get config "tempMacroFilename") cwd) ;;
  runtimeBytecode <- call (fun tr => deployContract h tr bytecode config cwd)
                       (DeployContract bytecode config cwd) ;;
  runDebugger h runtimeBytecode calldata options config cwd ;;;
  ret ReturnedUndefined.

Definition startDebugger (h : Host)
    (abiEncode : list string -> list string -> Outcome string)
    (sourceDirectory currentFile : string) (imports : list string)
    (functionSelector : Selector) (argsArray : list (string * string))
    (options : gmap string JsValue) : M Completion :=
  tryCatch
    (fun st =>
       let (shown, installed) := checkInstallations h (trace st) in
       let st := {| heap := heap st;
                    trace := trace st ++ map ShowErrorMessage shown |} in
       if negb installed then (st, Ok ReturnedUndefined)
       else
         let mountedDrive := mountedDriveOf h sourceDirectory in
         let cwd := workingDirectory h sourceDirectory in
         pipeline h abiEncode cwd currentFile imports functionSelector argsArray
           options (sessionConfig h options mountedDrive currentFile) st)
    (fun e => emit [RegisterError e errorMessage] ;;; ret ReturnedNull).

End FunctionSession.

(** ** src/features/viewer/utils.js *)

Module Utils.
Import JS Runtime.

(** What the utilities do to the system, in order. *)
Inductive SystemCall : Type :=
| Log (message : string)
| WriteFileSync (path data : string) (answer : Outcome unit)
| ExecSync (command : string) (cwd : option string) (answer : Outcome string)
| CreateTerminal (name : string)
| SendText (text : string)
| ShowTerminal.

(** The file system and the shell; what they answer may depend on the calls
    so far. *)
Record System : Type := {
  writeFileSync : list SystemCall -> string -> string -> Outcome unit;
  execSync : list SystemCall -> string -> option string -> Outcome string
}.

(** The [--state] clause of [deployContract]. *)
Definition stateClause (config : gmap string JsValue) (cwd : string) (macro : bool)
    : string :=
  if toBoolean (get config "state") && negb macro
  then "--state " +:+ cwd +:+ "/" +:+ toString (get config "statePath")
  else EmptyString.

(** The template literal of [deployContract]: its first line ends without a
    backslash, and so does its last but one. *)
Definition deployCommand (bytecode : string) (config : gmap string JsValue)
    (cwd : string) (macro : bool) : string :=
  "hevm exec" +:+ LF
  +:+ "      --code " +:+ bytecode +:+ " "
  +:+ "      --address " +:+ toString (get config "hevmContractAddress") +:+ " "
  +:+ "      --create "
  +:+ "      --caller " +:+ toString (get config "hevmCaller") +:+ " "
  +:+ "      --gas 0xffffffff "
  +:+ "      " +:+ stateClause config cwd macro +:+ LF
  +:+ "      ".

Definition cacheFile (cwd : string) : string := cwd +:+ "/cache/hevmtemp".

(** [deployContract(bytecode, config, cwd, macro = false)], from the calls
    [calls] so far: the calls after it, and what it returns, as text. *)
Definition deployContract (sys : System) (bytecode : string)
    (config : gmap string JsValue) (cwd : string) (macro : bool)
    (calls : list SystemCall) : list SystemCall * Outcome string :=
  let command := deployCommand bytecode config cwd macro in
  match writeFileSync sys calls (cacheFile cwd) command with
  | Throw e => (calls ++ [WriteFileSync (cacheFile cwd) command (Throw e)], Throw e)
  | Ok _ =>
      let calls := calls ++ [WriteFileSync (cacheFile cwd) command (Ok tt)] in
      let execute := "`cat " +:+ cwd +:+ "/cache/hevmtemp`" in
      let answer := execSync sys calls execute None in
      (calls ++ [ExecSync execute None answer], answer)
  end.

(** [runInUserTerminal(command)] *)
Definition runInUserTerminal (command : string) (calls : list SystemCall)
    : list SystemCall :=
  calls ++ [CreateTerminal "Huff debug"; SendText command; ShowTerminal].

(** [compile(sourceDirectory, fileName)] *)
Definition compile (sys : System) (sourceDirectory fileName : string)
    (calls : list SystemCall) : list SystemCall * Outcome string :=
  let calls := calls ++ [Log "Compiling contract..."] in
  let command := "npx huffc " +:+ fileName +:+ " --bytecode" in
  let answer := execSync sys calls command (Some sourceDirectory) in
  (calls ++ [ExecSync command (Some sourceDirectory) answer],
   match answer with
   | Ok bytecode => Ok ("0x" +:+ bytecode)
   | Throw e => Throw e
   end).

(** [writeMacro(cwd, tempMacroFilename, macro)] *)
Definition writeMacro (sys : System) (cwd tempMacroFilename macro : string)
    (calls : list SystemCall) : list SystemCall * Outcome unit :=
  let path := cwd +:+ "/" +:+ tempMacroFilename +:+ ".huff" in
  let answer := writeFileSync sys calls path macro in
  (calls ++ [WriteFileSync path macro answer], answer).

End Utils.

(** ** Further kinds of events, and the literals of a pattern *)

Module Kinds.
Import JS RegExp Runtime.

Definition isCompile (e : Event) : bool :=
  match e with CompileFromFile _ _ _ _ => true | _ => false end.
Definition isRead (e : Event) : bool :=
  match e with ReadFileSync _ _ => true | _ => false end.
Definition isReadOrLog (e : Event) : bool :=
  match e with ReadFileSync _ _ | ConsoleLog _ => true | _ => false end.

(** A computation that leaves every array as it is. *)
Definition keepsArrays {A} (m : M A) : Prop :=
  forall st, heap (fst (m st)) = heap st.

(** The literal texts that every match of a pattern goes through. *)
Fixpoint literals (r : regex) : list string :=
  match r with
  | Lit l => [l]
  | Seq r1 r2 => literals r1 ++ literals r2
  | Group _ r1 => literals r1
  | Ahead r1 => literals r1
  | Cls _ | Opt _ | Star _ | StarLazy _ | Plus _ => []
  end.

End Kinds.

(** ** The shape of a session of the function debugger *)

Module FunctionShape.
Import JS Runtime Sessions.

Section Run.
(** The configuration and the working directory of the session; the debug
    command for a runtime byte code; the command for the terminal. *)
Variable config : gmap string JsValue.
Variable cwd : string.
Variable command : string -> string.
Variable terminal : string.

Definition written (runtime : string) (answer : Outcome unit) : Event :=
  WriteHevmCommand (command runtime) (get config "tempHevmCommandFilename") cwd answer.

(** What the [try] block of [startDebugger] leaves in the trace after the
    calldata is encoded. *)
Inductive run : list Event -> Outcome Completion -> Prop :=
| aborts pre e :
    stopped pre e ->
    run pre (Throw e)
| deployment_fails pre bytecode e :
    calm pre ->
    run (pre ++ [DeployContract bytecode config cwd (Throw e)]) (Throw e)
| writing_fails pre bytecode runtime e :
    calm pre ->
    run (pre ++ [DeployContract bytecode config cwd (Ok runtime);
                 ConsoleLog "Entering debugger...";
                 written runtime (Throw e)])
        (Throw e)
| launches pre bytecode runtime :
    calm pre ->
    run (pre ++ [DeployContract bytecode config cwd (Ok runtime);
                 ConsoleLog "Entering debugger...";
                 written runtime (Ok tt);
                 RunInUserTerminal terminal])
        (Ok ReturnedUndefined).

End Run.

(** What [encodeCalldata] registers after its first log line, and its value:
    neither depends on the store that the function starts in. *)
Definition registered (abiEncode : list string -> list string -> Outcome string)
    (functionSelector : FunctionSession.Selector)
    (argsObject : list (string * string)) : list Event :=
  tail (trace (fst (FunctionSession.encodeCalldata abiEncode functionSelector
                      argsObject Example.emptyState))).

Definition calldataOf (abiEncode : list string -> list string -> Outcome string)
    (functionSelector : FunctionSession.Selector)
    (argsObject : list (string * string)) : JsValue :=
  match snd (FunctionSession.encodeCalldata abiEncode functionSelector
               argsObject Example.emptyState) with
  | Ok calldata => calldata
  | Throw _ => VUndefined
  end.

(** A session: the installation check, the encoding of the calldata, then
    the rest of the [try] block and the [catch]. [new] are the events of the
    session. *)
Definition session (config : gmap string JsValue) (cwd : string)
    (command : string -> string) (terminal : string)
    (check : list string * bool) (encoded : list Event)
    (new : list Event) (result : Outcome Completion) : Prop :=
  if snd check then
    exists evs r,
      run config cwd command terminal evs r /\
      new = map ShowErrorMessage (fst check)
            ++ ConsoleLog "Preparing debugger calldata..." :: encoded
            ++ evs ++ handled FunctionSession.errorMessage r /\
      result = Ok (completion r)
  else
    new = map ShowErrorMessage (fst check) /\ result = Ok ReturnedUndefined.

End FunctionShape.

(** ** Further hosts and properties of texts *)

Module Scenario.
Import JS Runtime.

(** A host under WSL whose workspace is on the mounted drive c. *)
Definition wslHost (files : list (string * string)) : Host :=
  {| checkInstallations := checkInstallations (Example.host files);
     readFileSync := readFileSync (Example.host files);
     pathJoin := pathJoin (Example.host files);
     compileFromFile := compileFromFile (Example.host files);
     deployContract := deployContract (Example.host files);
     writeHevmCommand := writeHevmCommand (Example.host files);
     craftTerminalCommand := craftTerminalCommand (Example.host files);
     formatEvenBytes := formatEvenBytes (Example.host files);
     hevmConfig := hevmConfig (Example.host files);
     isWsl := true;
     wslMountedDrive := fun dir =>
       match stripPrefix "/mnt/c/" dir with
       | Some _ => Some "c"
       | None => None
       end |}.

(** An encoder that rejects its input, and one that answers one word. *)
Definition rejectingEncoder (_ _ : list string) : Outcome string :=
  Throw (Error "invalid type").

Definition oneWordEncoder (_ _ : list string) : Outcome string :=
  Ok "0x000000000000000000000000000000000000000000000000000000000000002a".

(** A workspace with a library and a file that includes it. *)
Definition library : list (string * string) :=
  [("/ws/src/Main.huff",
    "#include " +:+ DQ +:+ "./Lib.huff" +:+ DQ +:+ LF
    +:+ "#define macro MAIN() = takes(0) returns (0) {" +:+ LF
    +:+ "  0x00 0x00 return" +:+ LF
    +:+ "}");
   ("/ws/src/Lib.huff",
    "#define macro MAIN() = takes(0) returns (0) {" +:+ LF
    +:+ "  stop" +:+ LF
    +:+ "}" +:+ LF
    +:+ "#define macro ADD() = takes(2) returns (1) {" +:+ LF
    +:+ "  add" +:+ LF
    +:+ "}")].

(** A file system and a shell that accept everything. *)
Definition system : Utils.System :=
  {| Utils.writeFileSync := fun _ _ _ => Ok tt;
     Utils.execSync := fun _ _ _ => Ok "0x00" |}.

End Scenario.

Module Texts.
Import JS Runtime Props.

(** A lower-case hexadecimal digit. *)
Definition isHexDigit (c : ascii) : bool :=
  isDigit c || ((97 <=? N_of_ascii c) && (N_of_ascii c <=? 102)).

Definition notQuote (c : ascii) : bool := negb (Ascii.eqb c "034").
Definition notSlash (c : ascii) : bool := negb (Ascii.eqb c "/").
Definition notHash (c : ascii) : bool := negb (Ascii.eqb c "#").
Definition notOpen (c : ascii) : bool := negb (Ascii.eqb c "{").
Definition notClose (c : ascii) : bool := negb (Ascii.eqb c "}").

Definition notParen (c : ascii) : bool := negb (Ascii.eqb c ")").

(** No white space, or one white space character. *)
Definition gap (g : string) : Prop :=
  g = EmptyString \/ exists c, g = String c EmptyString /\ isWhiteSpace c = true.

(** White space: one character or more. *)
Definition spaces (g : string) : Prop :=
  g <> EmptyString /\ allChars isWhiteSpace g = true.

(** An entry point as the patterns of [createCompiledMacro] take it: the
    keywords with the gaps [g1] and [g2], a signature, and a body in
    braces. *)
Definition entryPointText (g1 g2 signature body : string) : string :=
  "#define" +:+ g1 +:+ "macro" +:+ g2 +:+ "MAIN" +:+ signature
  +:+ "{" +:+ body +:+ "}".

(** An entry point as the pattern of [flattenFile] takes it: white space
    [s1] and [s2] after the first two keywords, then the layout that
    [createCompiledMacro] itself writes, with the arguments [args] and the
    digits [takes] and [returns]. *)
Definition strictEntryPointText (s1 s2 args : string) (takes returns : ascii)
    (body : string) : string :=
  "#define" +:+ s1 +:+ "macro" +:+ s2 +:+ "MAIN(" +:+ args +:+ ") = takes("
  +:+ String takes (") returns (" +:+ String returns (") {" +:+ body +:+ "}")).

(** An include directive for the path [path], with the white space
    character [c] after the keyword. *)
Definition includeDirective (c : ascii) (path : string) : string :=
  "#include" +:+ String c (DQ +:+ path +:+ DQ).

(** A double quote follows characters of the class [cls] at the front of
    [s]. *)
Fixpoint quoteAhead (cls : ascii -> bool) (s : string) : bool :=
  match s with
  | EmptyString => false
  | String c t => Ascii.eqb c "034" || (cls c && quoteAhead cls t)
  end.

End Texts.

(** * Facts *)

Import JS RegExp Runtime Props Sessions.

(** Closed facts: every conjunct by evaluation. *)
Ltac by_evaluation :=
  cbv zeta;
  repeat match goal with |- _ /\ _ => split end;
  vm_compute; reflexivity.

(** ** Strings *)

Section StringFacts.

Lemma sapp_cons (c : ascii) (s t : string) : String c s +:+ t = String c (s +:+ t).
Proof. reflexivity. Qed.

Lemma sapp_nil_l (s : string) : EmptyString +:+ s = s.
Proof. reflexivity. Qed.

Lemma sapp_nil_r (s : string) : s +:+ EmptyString = s.
Proof. induction s as [|c s IH]; [reflexivity|]. now rewrite sapp_cons, IH. Qed.

Lemma sapp_assoc (s t u : string) : (s +:+ t) +:+ u = s +:+ t +:+ u.
Proof. induction s as [|c s IH]; [reflexivity|]. now rewrite !sapp_cons, IH. Qed.

Lemma slength_app (s t : string) :
  String.length (s +:+ t) = (String.length s + String.length t)%nat.
Proof. induction s as [|c s IH]; [reflexivity|]. rewrite sapp_cons. simpl. now rewrite IH. Qed.

Lemma stripPrefix_app (p s : string) : stripPrefix p (p +:+ s) = Some s.
Proof.
  induction p as [|c p IH]; [reflexivity|].
  rewrite sapp_cons. simpl. now rewrite Ascii.eqb_refl.
Qed.

Lemma stripPrefix_Some (p s t : string) : stripPrefix p s = Some t -> s = p +:+ t.
Proof.
  revert s. induction p as [|c p IH]; intros s H.
  - simpl in H. now inversion H.
  - destruct s as [|d s]; [discriminate|]. simpl in H.
    destruct (Ascii.eqb c d) eqn:E; [|discriminate].
    apply Ascii.eqb_eq in E. subst d. rewrite sapp_cons. f_equal. now apply IH.
Qed.

(** [includes] decides [occursIn]. *)
Lemma includes_occursIn (pat s : string) : includes pat s = true <-> occursIn pat s.
Proof.
  split.
  - induction s as [|c s IH]; simpl.
    + destruct (stripPrefix pat EmptyString) eqn:E; [|discriminate].
      intros _. exists EmptyString, s. now apply stripPrefix_Some in E.
    + destruct (stripPrefix pat (String c s)) as [t|] eqn:E.
      * intros _. exists EmptyString, t. now apply stripPrefix_Some in E.
      * intros H. destruct (IH H) as (b & a & ->).
        exists (String c b), a. reflexivity.
  - intros (b & a & ->). induction b as [|c b IH].
    + rewrite sapp_nil_l.
      destruct (pat +:+ a) eqn:E; simpl; rewrite <- E, stripPrefix_app; reflexivity.
    + rewrite sapp_cons. simpl.
      destruct (stripPrefix pat (String c (b +:+ pat +:+ a))); [reflexivity|exact IH].
Qed.

Lemma occursIn_app_r (pat s t : string) : occursIn pat t -> occursIn pat (s +:+ t).
Proof. intros (b & a & ->). exists (s +:+ b), a. now rewrite sapp_assoc. Qed.

Lemma occursIn_here (pat t : string) : occursIn pat (pat +:+ t).
Proof. exists EmptyString, t. reflexivity. Qed.

End StringFacts.

(** ** The include resolver *)

Section IncludeResolver.
Variable h : Host.
Variables cwd currentFile : string.

Lemma debugger_resolvePaths_length (imports : list string) :
  List.length (Debugger.resolvePaths h cwd currentFile imports)
  = (List.length imports + 1)%nat.
Proof. unfold Debugger.resolvePaths. now rewrite length_app, length_map. Qed.

Lemma viewer_resolvePaths_length (imports : list string) :
  List.length (Viewer.resolvePaths cwd currentFile imports)
  = (List.length imports + 1)%nat.
Proof. unfold Viewer.resolvePaths. now rewrite length_app, length_map. Qed.

End IncludeResolver.

(** ** Computations *)

Section Computations.

Lemma bind_inv {A B} (m : M A) (f : A -> M B) (st st' : State) (r : Outcome B) :
  bind m f st = (st', r) ->
  (exists st1 a, m st = (st1, Ok a) /\ f a st1 = (st', r)) \/
  (exists e, m st = (st', Throw e) /\ r = Throw e).
Proof.
  unfold bind. destruct (m st) as [st1 [a|e]]; intros H.
  - left. eauto.
  - right. inversion H. eauto.
Qed.

Lemma bind_Ok_inv {A B} (m : M A) (f : A -> M B) (st st' : State) (b : B) :
  bind m f st = (st', Ok b) ->
  exists st1 a, m st = (st1, Ok a) /\ f a st1 = (st', Ok b).
Proof.
  intros H. apply bind_inv in H as [H|(e & _ & H)]; [exact H|discriminate].
Qed.

(** Reading files leaves the arrays alone. *)
Lemma mapM_call_heap {A} (h : Host) (f : string -> M A)
    (Hf : forall p st st' r, f p st = (st', r) -> heap st' = heap st)
    (paths : list string) (st st' : State) (r : Outcome (list A)) :
  mapM f paths st = (st', r) -> heap st' = heap st.
Proof.
  revert st st' r. induction paths as [|p paths IH]; intros st st' r H.
  - inversion H. reflexivity.
  - simpl in H. apply bind_inv in H as [(st1 & a & H1 & H2)|(e & H1 & _)].
    + apply Hf in H1.
      apply bind_inv in H2 as [(st2 & ys & H2 & H3)|(e & H2 & _)].
      * apply IH in H2. inversion H3. congruence.
      * apply IH in H2. congruence.
    + now apply Hf in H1.
Qed.

Lemma debugger_readStripped_heap (h : Host) (p : string) (st st' : State)
    (r : Outcome string) :
  Debugger.readStripped h p st = (st', r) -> heap st' = heap st.
Proof.
  unfold Debugger.readStripped, bind, call, ret. simpl.
  destruct (readFileSync h (trace st) p); intros H; inversion H; reflexivity.
Qed.

Lemma viewer_readStripped_heap (h : Host) (p : string) (st st' : State)
    (r : Outcome string) :
  Viewer.readStripped h p st = (st', r) -> heap st' = heap st.
Proof.
  unfold Viewer.readStripped, bind, call, ret. simpl.
  destruct (readFileSync h (trace st) p); intros H; inversion H; reflexivity.
Qed.

Lemma isolateBody_spec (macroBody : string) (st : State) :
  Debugger.isolateBody macroBody st
  = ({| heap := heap st;
        trace := trace st
                 ++ (if test Debugger.jumpLabelRegex macroBody
                     then [ConsoleLog "jump label found in macro"] else []) |},
     Ok (Debugger.isolated macroBody)).
Proof.
  unfold Debugger.isolateBody, Debugger.isolated.
  destruct (test Debugger.jumpLabelRegex macroBody).
  - reflexivity.
  - unfold ret. rewrite app_nil_r. now destruct st.
Qed.

(** What a call of the macro debugger's [createCompiledMacro] that returns
    has done: it read the files, reversed the caller's array in place and
    wrote the reversed arguments, then the body, into the entry point. *)
Lemma debugger_createCompiledMacro_returns (h : Host) (cwd : string)
    (macro : Macro) (argsObject : positive) (currentFile : string)
    (imports : list string) (st st' : State) (text : string) :
  Debugger.createCompiledMacro h cwd macro argsObject currentFile imports st
  = (st', Ok text) ->
  exists files args,
    heap st !! argsObject = Some args /\
    heap st' = <[argsObject := rev args]> (heap st) /\
    text = LF +:+ join LF files +:+ LF
           +:+ Debugger.entryPoint (rev args) (Debugger.isolated (body macro)).
Proof.
  unfold Debugger.createCompiledMacro. intros H.
  apply bind_Ok_inv in H as (st1 & files & H1 & H).
  apply (mapM_call_heap h) in H1; [|apply debugger_readStripped_heap].
  apply bind_Ok_inv in H as (st2 & b & H2 & H).
  rewrite isolateBody_spec in H2. inversion H2; subst st2 b. clear H2.
  apply bind_Ok_inv in H as (st3 & args' & H3 & H).
  unfold reverseInPlace in H3. simpl in H3. rewrite H1 in H3.
  destruct (heap st !! argsObject) as [args|] eqn:Ha; [|discriminate].
  inversion H3; subst st3 args'. inversion H; subst st' text.
  exists files, args. simpl. repeat split; congruence.
Qed.

(** A call of [createCompiledMacro] that returns has read the resolved
    paths, each once, in their order, and flattened what it read. *)
Lemma mapM_readStripped_paths (h : Host) (paths : list string)
    (st st' : State) (files : list string) :
  mapM (Debugger.readStripped h) paths st = (st', Ok files) ->
  exists evs,
    trace st' = trace st ++ evs /\ pathsRead evs = paths /\
    files = map Debugger.stripFile (textsRead evs).
Proof.
  revert st st' files. induction paths as [|p paths IH]; intros st st' files H.
  - inversion H. exists []. now rewrite app_nil_r.
  - cbn [mapM] in H. apply bind_Ok_inv in H as (st1 & text & H1 & H).
    apply bind_Ok_inv in H as (st2 & rest & H2 & H). inversion H; subst st' files.
    apply IH in H2 as (evs & Ht & Hp & Hf).
    unfold Debugger.readStripped in H1.
    apply bind_Ok_inv in H1 as (st0 & raw & H0 & H1). inversion H1; subst st1 text.
    unfold call in H0. inversion H0 as [[Hst Hraw]]. subst st0.
    exists (ReadFileSync p (Ok raw) :: evs).
    rewrite Ht. simpl. rewrite <- app_assoc, Hraw. split; [reflexivity|].
    unfold pathsRead, textsRead in *. simpl. now rewrite Hp, Hf.
Qed.

Lemma skipn_length_app (a b : list Event) : skipn (List.length a) (a ++ b) = b.
Proof. induction a as [|x a IH]; [reflexivity|exact IH]. Qed.

Lemma debugger_createCompiledMacro_flattens (h : Host) (cwd : string)
    (macro : Macro) (argsObject : positive) (currentFile : string)
    (imports : list string) (st st' : State) (text : string) (args : list string) :
  heap st !! argsObject = Some args ->
  Debugger.createCompiledMacro h cwd macro argsObject currentFile imports st
  = (st', Ok text) ->
  pathsRead (newEvents st st') = Debugger.resolvePaths h cwd currentFile imports /\
  text = LF +:+ join LF (map Debugger.stripFile (textsRead (newEvents st st'))) +:+ LF
         +:+ Debugger.entryPoint (rev args) (Debugger.isolated (body macro)).
Proof.
  unfold Debugger.createCompiledMacro. intros Ha H.
  apply bind_Ok_inv in H as (st1 & files & H1 & H).
  pose proof H1 as Hheap.
  apply (mapM_call_heap h) in Hheap; [|apply debugger_readStripped_heap].
  apply mapM_readStripped_paths in H1 as (evs & Ht & Hp & Hf).
  apply bind_Ok_inv in H as (st2 & b & H2 & H).
  rewrite isolateBody_spec in H2.
  set (logs := if test Debugger.jumpLabelRegex (body macro)
               then [ConsoleLog "jump label found in macro"] else []) in H2.
  assert (Hlogs : pathsRead logs = [] /\ textsRead logs = []).
  { subst logs. now destruct (test Debugger.jumpLabelRegex (body macro)). }
  destruct Hlogs as [Hl1 Hl2].
  inversion H2; subst st2 b. clear H2.
  apply bind_Ok_inv in H as (st3 & args' & H3 & H).
  unfold reverseInPlace in H3. simpl in H3. rewrite Hheap, Ha in H3.
  inversion H3; subst st3 args'. inversion H; subst st' text.
  unfold newEvents. simpl. rewrite Ht, <- app_assoc, skipn_length_app.
  unfold pathsRead, textsRead in *.
  rewrite !flat_map_app, Hp, Hl1, Hl2, !app_nil_r, Hf. split; reflexivity.
Qed.

Lemma debugger_createCompiledMacro_reads (h : Host) (cwd : string)
    (macro : Macro) (argsObject : positive) (currentFile : string)
    (imports : list string) (st st' : State) (text : string) :
  Debugger.createCompiledMacro h cwd macro argsObject currentFile imports st
  = (st', Ok text) ->
  pathsRead (newEvents st st') = Debugger.resolvePaths h cwd currentFile imports.
Proof.
  intros H.
  destruct (debugger_createCompiledMacro_returns _ _ _ _ _ _ _ _ _ H)
    as (files & args & Ha & _).
  now destruct (debugger_createCompiledMacro_flattens _ _ _ _ _ _ _ _ _ _ Ha H).
Qed.

End Computations.

(** ** The contract address *)

Section ContractAddress.

(** The address does not depend on the macro: [macro.toString()] is the
    same text for every macro object. *)
Lemma hevmContractAddress_constant (m1 m2 : Macro) :
  Debugger.hevmContractAddress m1 = Debugger.hevmContractAddress m2 /\
  Viewer.hevmContractAddress m1 = Viewer.hevmContractAddress m2.
Proof. split; reflexivity. Qed.

(** Running the same session again gives the same address. *)
Lemma hevmContractAddress_deterministic (m1 m2 : Macro) :
  m1 = m2 -> Debugger.hevmContractAddress m1 = Debugger.hevmContractAddress m2.
Proof. now intros ->. Qed.

(** C1, which fails on the code: the macro debugger and the viewer hash
    [macro.toString()], which is [[object Object]] whatever the macro holds.
    The macros [stop] and [0x01 0x02 add] differ in their text and get the
    same address; the address is 42 hexadecimal digits, 21 bytes, of the
    hash. *)
Theorem contract_address_ignores_macro_text :
  body Example.stopMacro <> body Example.addMacro /\
  Debugger.hevmContractAddress Example.stopMacro
    = "7bc087f4ef9d0dc15fef823bff9c78cc5cca8be0a8" /\
  Debugger.hevmContractAddress Example.addMacro
    = "7bc087f4ef9d0dc15fef823bff9c78cc5cca8be0a8" /\
  Viewer.hevmContractAddress Example.stopMacro
    = Viewer.hevmContractAddress Example.addMacro /\
  String.length (Debugger.hevmContractAddress Example.stopMacro) = 42%nat.
Proof.
  split; [discriminate|]. by_evaluation.
Qed.

(** The hash function is the one of the test vectors: the empty message. *)
Example keccak256_empty :
  Keccak.hex (Keccak.keccak256 [])
  = "c5d2460186f7233c927e7db2dcc703c0e500b653ca82273b7bfad8045d85a470".
Proof. vm_compute. reflexivity. Qed.

Example keccak256_abc :
  Keccak.hex (Keccak.keccak256 (Keccak.bufferFrom "abc"))
  = "4e03657aea45a94fc7d47ba826c8d667c0d1e6e33a64a036ec44f58fa12d6c45".
Proof. vm_compute. reflexivity. Qed.

End ContractAddress.

(** ** The entry point and the argument array *)

Section EntryPoint.

(** In the macro debugger the entry point has the arguments in reversed
    order, then the body. *)
Lemma debugger_entry_point_reversed (h : Host) (cwd : string) (macro : Macro)
    (argsObject : positive) (currentFile : string) (imports : list string)
    (st st' : State) (text : string) (args : list string) :
  heap st !! argsObject = Some args ->
  Debugger.createCompiledMacro h cwd macro argsObject currentFile imports st
  = (st', Ok text) ->
  exists flattened,
    text = flattened
           +:+ "#define macro MAIN() = takes(0) returns (0) {" +:+ LF
           +:+ "  " +:+ join " " (rev args) +:+ LF
           +:+ "  " +:+ Debugger.isolated (body macro) +:+ LF +:+ "}".
Proof.
  intros Ha H.
  apply debugger_createCompiledMacro_returns in H as (files & args' & Ha' & _ & ->).
  rewrite Ha in Ha'. inversion Ha'; subst args'.
  exists (LF +:+ join LF files +:+ LF).
  unfold Debugger.entryPoint. now rewrite !sapp_assoc.
Qed.

(** The scenario of the specification in the macro debugger: 0x06, then
    0x05, then the body. *)
Example debugger_entry_point_0x06_0x05 :
  snd (Debugger.createCompiledMacro (Example.host Example.workspace) "/ws"
         Example.addMacro 1%positive "src/Main.huff" []
         (Example.withArgs ["0x05"; "0x06"]))
  = Ok (LF +:+ LF
        +:+ "#define macro MAIN() = takes(0) returns (0) {" +:+ LF
        +:+ "  0x06 0x05" +:+ LF
        +:+ "  0x01 0x02 add" +:+ LF
        +:+ "}").
Proof. vm_compute. reflexivity. Qed.

(** C2, which fails on the code of the viewer: its [createCompiledMacro]
    joins the arguments without reversing them, so for the body
    [0x01 0x02 add] and the arguments 0x05, 0x06 the entry point has 0x05,
    then 0x06, where the macro debugger has 0x06, then 0x05. *)
Theorem viewer_entry_point_not_reversed :
  snd (Viewer.createCompiledMacro (Example.host Example.workspace) "/ws"
         Example.addMacro 1%positive "src/Main.huff" []
         (Example.withArgs ["0x05"; "0x06"]))
  = Ok (LF +:+ LF
        +:+ "#define macro MAIN() = takes(0) returns (0) {" +:+ LF
        +:+ "  0x05 0x06" +:+ LF
        +:+ "  0x01 0x02 add" +:+ LF
        +:+ "}").
Proof. vm_compute. reflexivity. Qed.

(** The viewer writes the arguments in the order it got them, always. *)
Lemma viewer_entry_point_in_order (h : Host) (cwd : string) (macro : Macro)
    (argsObject : positive) (currentFile : string) (imports : list string)
    (st st' : State) (text : string) (args : list string) :
  heap st !! argsObject = Some args ->
  Viewer.createCompiledMacro h cwd macro argsObject currentFile imports st
  = (st', Ok text) ->
  heap st' = heap st /\
  exists flattened,
    text = flattened
           +:+ "#define macro MAIN() = takes(0) returns (0) {" +:+ LF
           +:+ "  " +:+ join " " args +:+ LF
           +:+ "  " +:+ body macro +:+ LF +:+ "}".
Proof.
  intros Ha H. unfold Viewer.createCompiledMacro in H.
  apply bind_Ok_inv in H as (st1 & files & H1 & H).
  apply (mapM_call_heap h) in H1; [|apply viewer_readStripped_heap].
  apply bind_Ok_inv in H as (st2 & args' & H2 & H).
  unfold readArray in H2. rewrite H1, Ha in H2.
  inversion H2; subst st2 args'. inversion H; subst st' text.
  split; [exact H1|].
  exists (LF +:+ join LF files +:+ LF).
  unfold Viewer.entryPoint. now rewrite !sapp_assoc.
Qed.

(** A list that differs from its reverse has two distinct elements; a
    list of two distinct elements differs from its reverse. *)
Lemma rev_repeat_same (x : string) (n : nat) : rev (repeat x n) = repeat x n.
Proof.
  induction n as [|n IH]; [reflexivity|].
  simpl. rewrite IH. symmetry. apply repeat_cons.
Qed.

Lemma forallb_eqb_repeat (x : string) (l : list string) :
  List.forallb (String.eqb x) l = true -> l = repeat x (List.length l).
Proof.
  induction l as [|y l IH]; simpl; [reflexivity|].
  intros H. apply andb_prop in H as [Hy Hl].
  apply String.eqb_eq in Hy. subst y. f_equal. now apply IH.
Qed.

Lemma rev_neq_twoDistinct (args : list string) :
  rev args <> args -> twoDistinct args.
Proof.
  intros Hne.
  destruct args as [|x rest]; [now contradiction Hne|].
  destruct (List.forallb (String.eqb x) rest) eqn:Hall.
  - exfalso. apply Hne.
    apply forallb_eqb_repeat in Hall. rewrite Hall.
    apply (rev_repeat_same x (S (List.length rest))).
  - assert (Hex : exists y, In y rest /\ x <> y).
    { clear Hne. induction rest as [|y rest IH]; [discriminate|].
      simpl in Hall. destruct (String.eqb x y) eqn:E.
      - destruct (IH Hall) as (z & Hz & Hxz). exists z. split; [now right|exact Hxz].
      - exists y. split; [now left|]. now apply String.eqb_neq. }
    destruct Hex as (y & Hy & Hxy).
    exists x, y. repeat split; [now left|now right|exact Hxy].
Qed.

Lemma pair_distinct_rev (x y : string) : x <> y -> rev [x; y] <> [x; y].
Proof. intros Hne H. inversion H. congruence. Qed.

(** C10 as amended: a call of the macro debugger's [createCompiledMacro]
    that returns has reversed the caller's own array in place: the caller
    reads the reversed order after the call, and every other array is as it
    was. The caller sees a change whenever the list is not its own
    reverse. *)
Theorem createCompiledMacro_reverses_in_place (h : Host) (cwd : string)
    (macro : Macro) (argsObject : positive) (currentFile : string)
    (imports : list string) (st : State) (args : list string) :
  let result :=
    Debugger.createCompiledMacro h cwd macro argsObject currentFile imports st in
  heap st !! argsObject = Some args ->
  (exists text, snd result = Ok text) ->
  heap (fst result) !! argsObject = Some (rev args) /\
  (forall other, other <> argsObject ->
                 heap (fst result) !! other = heap st !! other) /\
  (rev args <> args -> heap (fst result) !! argsObject <> heap st !! argsObject).
Proof.
  cbv zeta. intros Ha (text & Hr).
  destruct (Debugger.createCompiledMacro h cwd macro argsObject currentFile imports st)
    as [st' r] eqn:H.
  simpl in Hr. subst r. simpl.
  apply debugger_createCompiledMacro_returns in H as (files & args' & Ha' & Hh & _).
  rewrite Ha in Ha'. inversion Ha'; subst args'. rewrite Hh.
  split; [apply lookup_insert_eq|]. split.
  - intros other Hne. now apply lookup_insert_ne.
  - intros Hne. rewrite lookup_insert_eq, Ha. congruence.
Qed.

Lemma createCompiledMacro_reverses_in_place_witness :
  let st := Example.withArgs ["0x05"; "0x06"] in
  let result :=
    Debugger.createCompiledMacro (Example.host Example.workspace) "/ws"
      Example.addMacro 1%positive "src/Main.huff" [] st in
  heap (fst result) !! 1%positive = Some (rev ["0x05"; "0x06"]) /\
  (forall other, other <> 1%positive ->
                 heap (fst result) !! other = heap st !! other) /\
  (rev ["0x05"; "0x06"] <> ["0x05"; "0x06"] ->
   heap (fst result) !! 1%positive <> heap st !! 1%positive).
Proof.
  apply (createCompiledMacro_reverses_in_place
           (Example.host Example.workspace) "/ws" Example.addMacro 1%positive
           "src/Main.huff" [] (Example.withArgs ["0x05"; "0x06"]) ["0x05"; "0x06"]).
  - reflexivity.
  - eexists. vm_compute. reflexivity.
Defined.

(** C10 as stated fails: the list 0x01, 0x02, 0x01 has two distinct
    elements, and after the call the caller's array reads as before. And a
    call that throws, here for a file that cannot be read, has not reversed
    the array: the arguments 0x05, 0x06 are as they were. *)
Lemma caller_array_reads_unchanged :
  let args := ["0x01"; "0x02"; "0x01"] in
  let st := Example.withArgs args in
  let result :=
    Debugger.createCompiledMacro (Example.host Example.workspace) "/ws"
      Example.addMacro 1%positive "src/Main.huff" [] st in
  let st' := Example.withArgs ["0x05"; "0x06"] in
  let thrown :=
    Debugger.createCompiledMacro (Example.host []) "/ws"
      Example.addMacro 1%positive "src/Main.huff" [] st' in
  twoDistinct args /\
  (exists text, snd result = Ok text) /\
  heap (fst result) !! 1%positive = heap st !! 1%positive /\
  twoDistinct ["0x05"; "0x06"] /\
  (exists e, snd thrown = Throw e) /\
  heap (fst thrown) !! 1%positive = Some ["0x05"; "0x06"].
Proof.
  cbv zeta. split.
  { exists "0x01", "0x02". simpl. repeat split; auto; discriminate. }
  split; [eexists; vm_compute; reflexivity|].
  split; [vm_compute; reflexivity|].
  split.
  { exists "0x05", "0x06". simpl. repeat split; auto; discriminate. }
  split; [eexists|]; vm_compute; reflexivity.
Qed.

End EntryPoint.

(** ** The debug command *)

Section DebugCommand.

Lemma includes_cons (pat : string) (c : ascii) (s : string) :
  includes pat (String c s)
  = match stripPrefix pat (String c s) with
    | Some _ => true
    | None => includes pat s
    end.
Proof. reflexivity. Qed.

Lemma stripPrefix_cons_cons (a : ascii) (p : string) (b : ascii) (s : string) :
  stripPrefix (String a p) (String b s)
  = if Ascii.eqb a b then stripPrefix p s else None.
Proof. reflexivity. Qed.

Lemma clashes_stripPrefix (pat a rest : string) :
  clashes pat a = true -> stripPrefix pat (a +:+ rest) = None.
Proof.
  revert a. induction pat as [|p pat IH]; intros [|c a] H; try discriminate.
  rewrite sapp_cons. simpl in *.
  destruct (Ascii.eqb p c); [now apply IH|reflexivity].
Qed.

(** Over a literal piece in which the pattern cannot start. *)
Lemma includes_skip_literal (pat a rest : string) :
  clashesEverywhere pat a = true ->
  includes pat (a +:+ rest) = includes pat rest.
Proof.
  induction a as [|c a IH]; intros H; [reflexivity|].
  simpl in H. apply andb_prop in H as [H1 H2].
  rewrite sapp_cons. simpl.
  rewrite <- sapp_cons, (clashes_stripPrefix _ _ _ H1). now apply IH.
Qed.

(** Over a piece without dashes, for a pattern that starts with a dash. *)
Lemma includes_skip_dashfree (pat x rest : string) :
  allChars notDash x = true ->
  includes (String "-" pat) (x +:+ rest) = includes (String "-" pat) rest.
Proof.
  induction x as [|c x IH]; intros H; [reflexivity|].
  cbn [allChars] in H. apply andb_prop in H as [H1 H2].
  rewrite sapp_cons, includes_cons, stripPrefix_cons_cons.
  unfold notDash in H1. rewrite Ascii.eqb_sym in H1.
  destruct (Ascii.eqb "-" c); [discriminate|]. now apply IH.
Qed.

Lemma not_occursIn (pat s : string) : includes pat s = false -> ~ occursIn pat s.
Proof. intros H Ho. apply includes_occursIn in Ho. congruence. Qed.

Ltac skip_pieces :=
  repeat first [ rewrite includes_skip_dashfree by assumption
               | rewrite includes_skip_literal by reflexivity ].

Variable h : Host.
Variable config : gmap string JsValue.
Variables cwd runtimeBytecode : string.

Hypothesis no_state : toBoolean (get config "stateChecked") = false.
Hypothesis no_storage : toBoolean (get config "storageChecked") = false.
Hypothesis no_calldata : toBoolean (get config "calldataChecked") = false.
Hypothesis no_value : toBoolean (get config "callValueChecked") = false.

(** With no flag set the command is this text. *)
Lemma debugger_hevmCommand_bare :
  Debugger.hevmCommand h runtimeBytecode config cwd
  = "hevm exec     --code " +:+ runtimeBytecode
    +:+ "     --address " +:+ toString (get config "hevmContractAddress")
    +:+ "     --caller " +:+ toString (get config "hevmCaller")
    +:+ "     --gas 0xffffffff                    --debug".
Proof.
  unfold Debugger.hevmCommand, Debugger.stateClause, Debugger.calldataClause,
    Debugger.valueClause.
  rewrite no_state, no_storage, no_calldata, no_value. reflexivity.
Qed.

Lemma viewer_hevmCommand_bare :
  Viewer.hevmCommand h runtimeBytecode config cwd
  = "hevm exec     --code " +:+ runtimeBytecode
    +:+ "     --address " +:+ toString (get config "hevmContractAddress")
    +:+ "     --caller " +:+ toString (get config "hevmCaller")
    +:+ "     --gas 0xffffffff               --debug".
Proof.
  unfold Viewer.hevmCommand, Viewer.stateClause, Viewer.calldataClause.
  rewrite no_state, no_storage, no_calldata. reflexivity.
Qed.

Hypothesis code_plain : allChars notDash runtimeBytecode = true.
Hypothesis address_plain :
  allChars notDash (toString (get config "hevmContractAddress")) = true.
Hypothesis caller_plain :
  allChars notDash (toString (get config "hevmCaller")) = true.

Lemma bare_command_clauses (tail : string) :
  includes "--state" tail = false ->
  includes "--calldata" tail = false ->
  includes "--value" tail = false ->
  occursIn "--gas 0xffffffff" tail ->
  occursIn "--debug" tail ->
  let command :=
    "hevm exec     --code " +:+ runtimeBytecode
    +:+ "     --address " +:+ toString (get config "hevmContractAddress")
    +:+ "     --caller " +:+ toString (get config "hevmCaller") +:+ tail in
  occursIn ("--code " +:+ runtimeBytecode) command /\
  occursIn ("--address " +:+ toString (get config "hevmContractAddress")) command /\
  occursIn ("--caller " +:+ toString (get config "hevmCaller")) command /\
  occursIn "--gas 0xffffffff" command /\
  occursIn "--debug" command /\
  ~ occursIn "--state" command /\
  ~ occursIn "--calldata" command /\
  ~ occursIn "--value" command.
Proof.
  intros Hs Hc Hv Hgas Hdebug. cbv zeta.
  split; [|split; [|split; [|split; [|split; [|split; [|split]]]]]].
  - exists "hevm exec     ",
      ("     --address " +:+ toString (get config "hevmContractAddress")
       +:+ "     --caller " +:+ toString (get config "hevmCaller") +:+ tail).
    rewrite !sapp_assoc. reflexivity.
  - apply occursIn_app_r, occursIn_app_r.
    exists "     ", ("     --caller " +:+ toString (get config "hevmCaller") +:+ tail).
    rewrite !sapp_assoc. reflexivity.
  - do 4 apply occursIn_app_r.
    exists "     ", tail. rewrite !sapp_assoc. reflexivity.
  - do 6 apply occursIn_app_r. exact Hgas.
  - do 6 apply occursIn_app_r. exact Hdebug.
  - apply not_occursIn. skip_pieces. exact Hs.
  - apply not_occursIn. skip_pieces. exact Hc.
  - apply not_occursIn. skip_pieces. exact Hv.
Qed.

End DebugCommand.

(** ** Traces *)

Section Traces.

Lemma calm_nil : calm [].
Proof. split; reflexivity. Qed.

Lemma calm_app (a b : list Event) : calm a -> calm b -> calm (a ++ b).
Proof.
  intros [Ha1 Ha2] [Hb1 Hb2]. split.
  - rewrite forallb_app, Ha1, Hb1. reflexivity.
  - rewrite existsb_app, Ha2, Hb2. reflexivity.
Qed.

Lemma calm_stopped (pre : list Event) (e : Exn) : calm pre -> stopped pre e.
Proof.
  intros [H1 H2]. split; [exact H1|].
  intros x Hx Hf. exfalso.
  assert (existsb failedStep pre = true) by (apply existsb_exists; eauto).
  congruence.
Qed.

Lemma stopped_app (a b : list Event) (e : Exn) :
  calm a -> stopped b e -> stopped (a ++ b) e.
Proof.
  intros Ha [Hb1 Hb2]. destruct (calm_stopped a e Ha) as [Ha1 Ha2]. split.
  - rewrite forallb_app, Ha1, Hb1. reflexivity.
  - intros x Hx. apply in_app_or in Hx as [Hx|Hx]; auto.
Qed.

Lemma steady_ret {A} (a : A) : steady (ret a).
Proof. intros st. exists []. simpl. rewrite app_nil_r. split; [reflexivity|apply calm_nil]. Qed.

Lemma steady_lift {A} (o : Outcome A) : steady (lift o).
Proof.
  intros st. exists []. simpl. rewrite app_nil_r. split; [reflexivity|].
  destruct o; [apply calm_nil|apply calm_stopped, calm_nil].
Qed.

Lemma steady_bind {A B} (m : M A) (f : A -> M B) :
  steady m -> (forall a, steady (f a)) -> steady (bind m f).
Proof.
  intros Hm Hf st. unfold bind.
  destruct (Hm st) as (evs1 & Ht1 & Hr1).
  destruct (m st) as [st1 [a|e]]; simpl in *.
  - destruct (Hf a st1) as (evs2 & Ht2 & Hr2).
    exists (evs1 ++ evs2). rewrite Ht2, Ht1, app_assoc. split; [reflexivity|].
    destruct (snd (f a st1)); [now apply calm_app|now apply stopped_app].
  - exists evs1. auto.
Qed.

Lemma steady_mapM {A B} (f : A -> M B) (xs : list A) :
  (forall x, steady (f x)) -> steady (mapM f xs).
Proof.
  intros Hf. induction xs as [|x xs IH]; simpl.
  - apply steady_ret.
  - apply steady_bind; [apply Hf|]. intros y.
    apply steady_bind; [exact IH|]. intros ys. apply steady_ret.
Qed.

Lemma steady_log (message : string) : steady (emit [ConsoleLog message]).
Proof. intros st. exists [ConsoleLog message]. simpl. split; [reflexivity|split; reflexivity]. Qed.

Lemma steady_read (h : Host) (path : string) :
  steady (call (fun tr => readFileSync h tr path) (ReadFileSync path)).
Proof.
  intros st. eexists. simpl. split; [reflexivity|].
  destruct (readFileSync h (trace st) path) as [text|e].
  - split; reflexivity.
  - split; [reflexivity|]. intros x [<-|[]] _. reflexivity.
Qed.

Lemma steady_compile (h : Host) (source : string) (filename : JsValue) (cwd : string) :
  steady (call (fun tr => compileFromFile h tr source filename cwd)
            (CompileFromFile source filename cwd)).
Proof.
  intros st. eexists. simpl. split; [reflexivity|].
  destruct (compileFromFile h (trace st) source filename cwd) as [text|e].
  - split; reflexivity.
  - split; [reflexivity|]. intros x [<-|[]] _. reflexivity.
Qed.

Lemma steady_reverseInPlace (arr : positive) : steady (reverseInPlace arr).
Proof.
  intros st. exists []. unfold reverseInPlace.
  destruct (heap st !! arr); simpl; rewrite app_nil_r;
    (split; [reflexivity|]); [apply calm_nil|apply calm_stopped, calm_nil].
Qed.

Lemma steady_readArray (arr : positive) : steady (readArray arr).
Proof.
  intros st. exists []. unfold readArray.
  destruct (heap st !! arr); simpl; rewrite app_nil_r;
    (split; [reflexivity|]); [apply calm_nil|apply calm_stopped, calm_nil].
Qed.

Lemma steady_debugger_createCompiledMacro (h : Host) (cwd : string) (macro : Macro)
    (argsObject : positive) (currentFile : string) (imports : list string) :
  steady (Debugger.createCompiledMacro h cwd macro argsObject currentFile imports).
Proof.
  unfold Debugger.createCompiledMacro.
  apply steady_bind.
  { apply steady_mapM. intros p. unfold Debugger.readStripped.
    apply steady_bind; [apply steady_read|intros; apply steady_ret]. }
  intros files. apply steady_bind.
  { unfold Debugger.isolateBody. destruct (test _ _); [|apply steady_ret].
    apply steady_bind; [apply steady_log|intros; apply steady_ret]. }
  intros b. apply steady_bind; [apply steady_reverseInPlace|].
  intros args. apply steady_ret.
Qed.

Lemma steady_viewer_createCompiledMacro (h : Host) (cwd : string) (macro : Macro)
    (argsObject : positive) (currentFile : string) (imports : list string) :
  steady (Viewer.createCompiledMacro h cwd macro argsObject currentFile imports).
Proof.
  unfold Viewer.createCompiledMacro.
  apply steady_bind.
  { apply steady_mapM. intros p. unfold Viewer.readStripped.
    apply steady_bind; [apply steady_read|intros; apply steady_ret]. }
  intros files. apply steady_bind; [apply steady_readArray|].
  intros args. apply steady_ret.
Qed.

Lemma steady_debuggerFront h cwd currentFile imports macro argsObject config :
  steady (debuggerFront h cwd currentFile imports macro argsObject config).
Proof.
  unfold debuggerFront.
  apply steady_bind; [apply steady_debugger_createCompiledMacro|]. intros cm.
  apply steady_bind.
  { destruct (toBoolean _); [apply steady_lift|apply steady_ret]. }
  intros cm'. apply steady_compile.
Qed.

Lemma steady_viewerFront h cwd currentFile imports macro argsObject config :
  steady (viewerFront h cwd currentFile imports macro argsObject config).
Proof.
  unfold viewerFront.
  apply steady_bind; [apply steady_viewer_createCompiledMacro|]. intros cm.
  apply steady_bind.
  { destruct (toBoolean _); [apply steady_lift|apply steady_ret]. }
  intros cm'. apply steady_compile.
Qed.

Lemma debugger_pipeline_front h cwd currentFile imports macro argsObject config st :
  Debugger.pipeline h cwd currentFile imports macro argsObject config st
  = bind (debuggerFront h cwd currentFile imports macro argsObject config)
      (fun bytecode =>
         runtimeBytecode <- call (fun tr => deployContract h tr bytecode config cwd)
                              (DeployContract bytecode config cwd) ;;
         Debugger.runMacroDebugger h bytecode runtimeBytecode config cwd ;;;
         ret ReturnedUndefined)%js st.
Proof.
  unfold Debugger.pipeline, debuggerFront, bind.
  destruct (Debugger.createCompiledMacro _ _ _ _ _ _ st) as [st1 [cm|e]]; [|reflexivity].
  destruct (toBoolean _).
  - destruct (lift _ st1) as [st2 [cm'|e]]; reflexivity.
  - reflexivity.
Qed.

Lemma viewer_pipeline_front h cwd currentFile imports macro argsObject config st :
  Viewer.pipeline h cwd currentFile imports macro argsObject config st
  = bind (viewerFront h cwd currentFile imports macro argsObject config)
      (fun bytecode =>
         runtimeBytecode <- call (fun tr => deployContract h tr bytecode config cwd)
                              (DeployContract bytecode config cwd) ;;
         Viewer.runMacroDebugger h bytecode runtimeBytecode config cwd ;;;
         ret ReturnedUndefined)%js st.
Proof.
  unfold Viewer.pipeline, viewerFront, bind.
  destruct (Viewer.createCompiledMacro _ _ _ _ _ _ st) as [st1 [cm|e]]; [|reflexivity].
  destruct (toBoolean _).
  - destruct (lift _ st1) as [st2 [cm'|e]]; reflexivity.
  - reflexivity.
Qed.

End Traces.

(** ** Sessions *)

Section SessionShape.

Lemma bind_Ok_eq {A B} (m : M A) (f : A -> M B) (st st1 : State) (a : A) :
  m st = (st1, Ok a) -> bind m f st = f a st1.
Proof. unfold bind. now intros ->. Qed.

Lemma bind_Throw_eq {A B} (m : M A) (f : A -> M B) (st st1 : State) (e : Exn) :
  m st = (st1, Throw e) -> bind m f st = (st1, Throw e).
Proof. unfold bind. now intros ->. Qed.

Lemma bind_call {A B} (answer : list Event -> Outcome A) (event : Outcome A -> Event)
    (f : A -> M B) (st : State) :
  bind (call answer event) f st
  = match answer (trace st) with
    | Ok a => f a {| heap := heap st; trace := trace st ++ [event (Ok a)] |}
    | Throw e => ({| heap := heap st; trace := trace st ++ [event (Throw e)] |}, Throw e)
    end.
Proof. unfold bind, call. destruct (answer (trace st)); reflexivity. Qed.

Lemma newEvents_app (st st' : State) (evs : list Event) :
  trace st' = trace st ++ evs -> newEvents st st' = evs.
Proof.
  unfold newEvents. intros ->. induction (trace st) as [|x l IH]; [reflexivity|exact IH].
Qed.

Variable h : Host.

Lemma debugger_pipeline_run cwd currentFile imports macro argsObject config st :
  let result := Debugger.pipeline h cwd currentFile imports macro argsObject config st in
  exists evs,
    trace (fst result) = trace st ++ evs /\
    run false config cwd (fun runtime => Debugger.hevmCommand h runtime config cwd)
      (craftTerminalCommand h cwd config) evs (snd result).
Proof.
  cbv zeta. rewrite debugger_pipeline_front.
  destruct (steady_debuggerFront h cwd currentFile imports macro argsObject config st)
    as (evs1 & Ht & Hr).
  destruct (debuggerFront _ _ _ _ _ _ _ st) as [st1 [bytecode|e]] eqn:Hfront;
    simpl in Ht, Hr.
  2:{ rewrite (bind_Throw_eq _ _ _ _ _ Hfront).
      exists evs1. split; [exact Ht|now apply run_aborts]. }
  rewrite (bind_Ok_eq _ _ _ _ _ Hfront).
  unfold bind, call, Debugger.runMacroDebugger, bind, call, emit, ret. simpl.
  destruct (deployContract h (trace st1) bytecode config cwd) as [runtime|e]; simpl.
  2:{ exists (evs1 ++ [DeployContract bytecode config cwd (Throw e)]).
      rewrite Ht, app_assoc. split; [reflexivity|now apply run_deploy_fails]. }
  match goal with
  | |- context [writeHevmCommand h ?tr ?c ?f ?d] =>
      destruct (writeHevmCommand h tr c f d) as [[]|e]; simpl
  end.
  - eexists. rewrite Ht, <- !app_assoc. split; [reflexivity|].
    exact (run_launches false config cwd
             (fun runtime => Debugger.hevmCommand h runtime config cwd)
             (craftTerminalCommand h cwd config) evs1 bytecode runtime runtime Hr).
  - eexists. rewrite Ht, <- !app_assoc. split; [reflexivity|].
    exact (run_write_fails false config cwd
             (fun runtime => Debugger.hevmCommand h runtime config cwd)
             (craftTerminalCommand h cwd config) evs1 bytecode runtime runtime e Hr).
Qed.

Lemma viewer_pipeline_run cwd currentFile imports macro argsObject config st :
  let result := Viewer.pipeline h cwd currentFile imports macro argsObject config st in
  exists evs,
    trace (fst result) = trace st ++ evs /\
    run (toBoolean (get config "stateChecked")) config cwd
      (fun runtime => Viewer.hevmCommand h runtime config cwd)
      ("`cat " +:+ cwd +:+ "/"
       +:+ toString (get config "tempHevmCommandFilename") +:+ "`")
      evs (snd result).
Proof.
  cbv zeta. rewrite viewer_pipeline_front.
  destruct (steady_viewerFront h cwd currentFile imports macro argsObject config st)
    as (evs1 & Ht & Hr).
  destruct (viewerFront _ _ _ _ _ _ _ st) as [st1 [bytecode|e]] eqn:Hfront;
    simpl in Ht, Hr.
  2:{ rewrite (bind_Throw_eq _ _ _ _ _ Hfront).
      exists evs1. split; [exact Ht|now apply run_aborts]. }
  rewrite (bind_Ok_eq _ _ _ _ _ Hfront), bind_call.
  destruct (deployContract h (trace st1) bytecode config cwd) as [runtime|e]; simpl.
  2:{ exists (evs1 ++ [DeployContract bytecode config cwd (Throw e)]).
      rewrite Ht, app_assoc. split; [reflexivity|now apply run_deploy_fails]. }
  unfold Viewer.runMacroDebugger.
  destruct (toBoolean (get config "stateChecked")) eqn:Hstate.
  - unfold bind, call, emit, ret. simpl.
    match goal with
    | |- context [deployContract h ?tr ?b ?c ?d] =>
        destruct (deployContract h tr b c d) as [runtime'|e]; simpl
    end.
    2:{ eexists. rewrite Ht, <- !app_assoc. split; [reflexivity|].
        now apply (run_persist_fails true config cwd _ _ evs1 bytecode runtime e). }
    match goal with
    | |- context [writeHevmCommand h ?tr ?c ?f ?d] =>
        destruct (writeHevmCommand h tr c f d) as [[]|e]; simpl
    end.
    + eexists. rewrite Ht, <- !app_assoc. split; [reflexivity|].
      exact (run_launches true config cwd
               (fun runtime => Viewer.hevmCommand h runtime config cwd)
               _ evs1 bytecode runtime runtime' Hr).
    + eexists. rewrite Ht, <- !app_assoc. split; [reflexivity|].
      exact (run_write_fails true config cwd
               (fun runtime => Viewer.hevmCommand h runtime config cwd)
               _ evs1 bytecode runtime runtime' e Hr).
  - unfold bind, call, emit, ret. simpl.
    match goal with
    | |- context [writeHevmCommand h ?tr ?c ?f ?d] =>
        destruct (writeHevmCommand h tr c f d) as [[]|e]; simpl
    end.
    + eexists. rewrite Ht, <- !app_assoc. split; [reflexivity|].
      exact (run_launches false config cwd
               (fun runtime => Viewer.hevmCommand h runtime config cwd)
               _ evs1 bytecode runtime runtime Hr).
    + eexists. rewrite Ht, <- !app_assoc. split; [reflexivity|].
      exact (run_write_fails false config cwd
               (fun runtime => Viewer.hevmCommand h runtime config cwd)
               _ evs1 bytecode runtime runtime e Hr).
Qed.

(** Every session of the macro debugger has the shape [session]. *)
Lemma debugger_session sourceDirectory currentFile imports macro argsObject options st :
  let result :=
    Debugger.startMacroDebugger h sourceDirectory currentFile imports macro
      argsObject options st in
  let cwd := Debugger.workingDirectory h sourceDirectory in
  let config :=
    Debugger.sessionConfig h options (Debugger.mountedDriveOf h sourceDirectory) macro in
  session false config cwd (fun runtime => Debugger.hevmCommand h runtime config cwd)
    (craftTerminalCommand h cwd config) Debugger.errorMessage
    (checkInstallations h (trace st))
    (newEvents st (fst result)) (snd result).
Proof.
  cbv zeta. unfold Debugger.startMacroDebugger, session.
  destruct (checkInstallations h (trace st)) as [msgs installed]. simpl.
  destruct installed; simpl.
  2:{ split; [|reflexivity]. now apply newEvents_app. }
  set (st0 := {| heap := heap st; trace := trace st ++ map ShowErrorMessage msgs |}).
  unfold tryCatch.
  destruct (debugger_pipeline_run (Debugger.workingDirectory h sourceDirectory)
              currentFile imports macro argsObject
              (Debugger.sessionConfig h options
                 (Debugger.mountedDriveOf h sourceDirectory) macro) st0)
    as (evs & Ht & Hrun).
  destruct (Debugger.pipeline _ _ _ _ _ _ _ st0) as [st1 [c|e]]; simpl in Ht, Hrun.
  - exists evs, (Ok c). split; [exact Hrun|]. simpl. split; [|reflexivity].
    apply newEvents_app. rewrite Ht. simpl. now rewrite app_nil_r, app_assoc.
  - exists evs, (Throw e). split; [exact Hrun|]. simpl. split; [|reflexivity].
    apply newEvents_app. rewrite Ht. simpl. now rewrite <- !app_assoc.
Qed.

(** Every session of the viewer has the shape [session]. *)
Lemma viewer_session sourceDirectory currentFile imports macro argsObject options st :
  let result :=
    Viewer.startMacroDebugger h sourceDirectory currentFile imports macro
      argsObject options st in
  let config := Viewer.sessionConfig h options macro in
  session (toBoolean (get config "stateChecked")) config sourceDirectory
    (fun runtime => Viewer.hevmCommand h runtime config sourceDirectory)
    ("`cat " +:+ sourceDirectory +:+ "/"
     +:+ toString (get config "tempHevmCommandFilename") +:+ "`")
    Viewer.errorMessage
    (checkInstallations h (trace st))
    (newEvents st (fst result)) (snd result).
Proof.
  cbv zeta. unfold Viewer.startMacroDebugger, session.
  destruct (checkInstallations h (trace st)) as [msgs installed]. simpl.
  destruct installed; simpl.
  2:{ split; [|reflexivity]. now apply newEvents_app. }
  set (st0 := {| heap := heap st; trace := trace st ++ map ShowErrorMessage msgs |}).
  unfold tryCatch.
  destruct (viewer_pipeline_run sourceDirectory currentFile imports macro argsObject
              (Viewer.sessionConfig h options macro) st0)
    as (evs & Ht & Hrun).
  destruct (Viewer.pipeline _ _ _ _ _ _ _ st0) as [st1 [c|e]]; simpl in Ht, Hrun.
  - exists evs, (Ok c). split; [exact Hrun|]. simpl. split; [|reflexivity].
    apply newEvents_app. rewrite Ht. simpl. now rewrite app_nil_r, app_assoc.
  - exists evs, (Throw e). split; [exact Hrun|]. simpl. split; [|reflexivity].
    apply newEvents_app. rewrite Ht. simpl. now rewrite <- !app_assoc.
Qed.

End SessionShape.

(** ** What every session does *)

Section EverySession.

Variable impl : Implementation.
Variable h : Host.
Variables sourceDirectory currentFile : string.
Variable imports : list string.
Variable macro : Macro.
Variable argsObject : positive.
Variable options : gmap string JsValue.
Variable st : State.

Let result :=
  startMacroDebugger impl h sourceDirectory currentFile imports macro argsObject
    options st.
Let config := configOf impl h sourceDirectory options macro.
Let cwd := cwdOf impl h sourceDirectory.

Lemma any_session :
  session (againOf impl config) config cwd (commandOf impl h config cwd)
    (terminalOf impl h config cwd) (messageOf impl)
    (checkInstallations h (trace st))
    (newEvents st (fst result)) (snd result).
Proof.
  subst result config cwd. destruct impl.
  - apply debugger_session.
  - apply viewer_session.
Qed.

End EverySession.

Section RunFacts.

Variable again : bool.
Variable config : gmap string JsValue.
Variable cwd : string.
Variable command : string -> string.
Variable terminal : string.

Lemma quiet_no_launch (pre : list Event) :
  forallb quiet pre = true ->
  existsb isRun pre = false /\ existsb isWrite pre = false /\
  existsb isDeploy pre = false /\ existsb isRegisterError pre = false.
Proof.
  induction pre as [|x pre IH]; simpl; [auto|].
  intros H. apply andb_prop in H as [Hx Hpre].
  destruct (IH Hpre) as (H1 & H2 & H3 & H4). rewrite H1, H2, H3, H4.
  destruct x; try discriminate; auto.
Qed.

Lemma shown_quiet (msgs : list string) :
  forallb quiet (map ShowErrorMessage msgs) = true /\
  existsb failedStep (map ShowErrorMessage msgs) = false.
Proof. induction msgs as [|m msgs [IH1 IH2]]; simpl; auto. Qed.

Lemma persisted_facts bytecode runtime :
  existsb failedStep (persisted again config cwd bytecode (Ok runtime)) = false /\
  existsb isRun (persisted again config cwd bytecode (Ok runtime)) = false /\
  existsb isWrite (persisted again config cwd bytecode (Ok runtime)) = false.
Proof. unfold persisted. destruct again; simpl; auto. Qed.

(** A run in which a step failed wrote no command and ran none, and threw
    what the step threw. *)
Lemma run_failed_step (evs : list Event) (r : Outcome Completion) :
  run again config cwd command terminal evs r ->
  existsb failedStep evs = true ->
  existsb isRun evs = false /\ existsb isWrite evs = false /\
  existsb isRegisterError evs = false /\
  exists e x, r = Throw e /\ In x evs /\ thrownBy x = Some e.
Proof.
  intros Hrun Hfail. destruct Hrun as
    [pre e [Hq Hs] | pre bytecode e [Hq Hc]
    | pre bytecode runtime e [Hq Hc] Ha
    | pre bytecode runtime runtime' e [Hq Hc]
    | pre bytecode runtime runtime' [Hq Hc]].
  - destruct (quiet_no_launch pre Hq) as (H1 & H2 & _ & H4).
    repeat split; auto.
    apply existsb_exists in Hfail as (x & Hx & Hf). exists e, x. auto.
  - destruct (quiet_no_launch pre Hq) as (H1 & H2 & _ & H4).
    rewrite !existsb_app, H1, H2, H4. repeat split; auto.
    exists e, (DeployContract bytecode config cwd (Throw e)).
    repeat split; auto. apply in_or_app. right. now left.
  - destruct (quiet_no_launch pre Hq) as (H1 & H2 & _ & H4).
    rewrite !existsb_app, H1, H2, H4. repeat split; auto.
    exists e, (DeployContract bytecode config cwd (Throw e)).
    repeat split; auto. apply in_or_app. right. right. now left.
  - exfalso. destruct (persisted_facts bytecode runtime') as (Hp & _).
    rewrite !existsb_app, Hc, Hp in Hfail. discriminate.
  - exfalso. destruct (persisted_facts bytecode runtime') as (Hp & _).
    rewrite !existsb_app, Hc, Hp in Hfail. discriminate.
Qed.

(** A run that ran the terminal command: everything before the deployment
    is quiet, the deployment answered the runtime byte code of the command,
    and a second deployment follows it only when the session deploys again. *)
Lemma run_launched (evs : list Event) (r : Outcome Completion) :
  run again config cwd command terminal evs r ->
  existsb isRun evs = true ->
  r = Ok ReturnedUndefined /\
  exists pre bytecode runtime runtime',
    calm pre /\
    evs = pre ++ [DeployContract bytecode config cwd (Ok runtime)]
              ++ persisted again config cwd bytecode (Ok runtime')
              ++ [written config cwd command runtime (Ok tt);
                  RunInUserTerminal terminal].
Proof.
  intros Hrun Hlaunch. destruct Hrun as
    [pre e [Hq Hs] | pre bytecode e [Hq Hc]
    | pre bytecode runtime e [Hq Hc] Ha
    | pre bytecode runtime runtime' e [Hq Hc]
    | pre bytecode runtime runtime' [Hq Hc]].
  - destruct (quiet_no_launch pre Hq) as (H1 & _). congruence.
  - destruct (quiet_no_launch pre Hq) as (H1 & _).
    rewrite existsb_app, H1 in Hlaunch. discriminate.
  - destruct (quiet_no_launch pre Hq) as (H1 & _).
    rewrite existsb_app, H1 in Hlaunch. discriminate.
  - destruct (quiet_no_launch pre Hq) as (H1 & _).
    destruct (persisted_facts bytecode runtime') as (_ & Hp & _).
    rewrite !existsb_app, H1, Hp in Hlaunch. discriminate.
  - split; [reflexivity|].
    exists pre, bytecode, runtime, runtime'.
    split; [now split|reflexivity].
Qed.

(** The commands a run writes are commands for the answer of a deployment
    of the run. *)
Lemma run_written (evs : list Event) (r : Outcome Completion)
    (cmd : string) (filename : JsValue) (dir : string) (answer : Outcome unit) :
  run again config cwd command terminal evs r ->
  In (WriteHevmCommand cmd filename dir answer) evs ->
  exists bytecode runtime,
    In (DeployContract bytecode config cwd (Ok runtime)) evs /\
    cmd = command runtime.
Proof.
  assert (Hquiet : forall pre, forallb quiet pre = true ->
                     ~ In (WriteHevmCommand cmd filename dir answer) pre).
  { intros pre Hq Hin.
    destruct (quiet_no_launch pre Hq) as (_ & H2 & _).
    assert (existsb isWrite pre = true) by (apply existsb_exists; eexists; eauto).
    congruence. }
  intros Hrun Hin. destruct Hrun as
    [pre e [Hq Hs] | pre bytecode e [Hq Hc]
    | pre bytecode runtime e [Hq Hc] Ha
    | pre bytecode runtime runtime' e [Hq Hc]
    | pre bytecode runtime runtime' [Hq Hc]].
  - now apply Hquiet in Hin.
  - apply in_app_or in Hin as [Hin|[Hin|[]]]; [now apply Hquiet in Hin|discriminate].
  - apply in_app_or in Hin as [Hin|[Hin|[Hin|[]]]];
      [now apply Hquiet in Hin|discriminate|discriminate].
  - exists bytecode, runtime. split.
    + apply in_or_app. right. now left.
    + apply in_app_or in Hin as [Hin|Hin]; [now apply Hquiet in Hin|].
      apply in_app_or in Hin as [[Hin|[]]|Hin]; [discriminate|].
      apply in_app_or in Hin as [Hin|[Hin|[]]].
      * unfold persisted in Hin. destruct again; [destruct Hin as [Hin|[]]|destruct Hin].
        discriminate.
      * unfold written in Hin. now inversion Hin.
  - exists bytecode, runtime. split.
    + apply in_or_app. right. now left.
    + apply in_app_or in Hin as [Hin|Hin]; [now apply Hquiet in Hin|].
      apply in_app_or in Hin as [[Hin|[]]|Hin]; [discriminate|].
      apply in_app_or in Hin as [Hin|[Hin|[Hin|[]]]].
      * unfold persisted in Hin. destruct again; [destruct Hin as [Hin|[]]|destruct Hin].
        discriminate.
      * unfold written in Hin. now inversion Hin.
      * discriminate.
Qed.

End RunFacts.

(** ** Failures launch nothing *)

Section Failures.

Lemma messageOf_readable (impl : Implementation) :
  messageOf impl
  = "Macro Compilation Error, this is pre-release software, please report this issue to the huff team in the discord".
Proof. destruct impl; reflexivity. Qed.

(** The installation check of viewer/utils.js shows a message when it
    answers no. *)
Lemma checkHevmInstallation_no :
  checkHevmInstallation false
  = (["Hevm installation required - install here: https://github.com/dapphub/dapptools#installation"],
     false).
Proof. reflexivity. Qed.

(** C8: in the macro debugger and in the viewer, a session in which the
    installation check answers no, or in which a file read, the compilation
    or a deployment throws, writes no debug command and runs none in the
    terminal, and returns instead of throwing. When the check answers no,
    the session does nothing but show the messages of the check. When a step
    throws, the last thing the session does is to register what the step
    threw, together with the message for the user, once; it returns null. *)
Theorem no_partial_debug_session (impl : Implementation) (h : Host)
    (sourceDirectory currentFile : string) (imports : list string) (macro : Macro)
    (argsObject : positive) (options : gmap string JsValue) (st : State) :
  let result :=
    startMacroDebugger impl h sourceDirectory currentFile imports macro argsObject
      options st in
  let new := newEvents st (fst result) in
  let check := checkInstallations h (trace st) in
  snd check = false \/ existsb failedStep new = true ->
  existsb isRun new = false /\
  existsb isWrite new = false /\
  (exists c, snd result = Ok c) /\
  (snd check = false ->
   new = map ShowErrorMessage (fst check) /\ snd result = Ok ReturnedUndefined) /\
  (existsb failedStep new = true ->
   exists e x before,
     new = before ++ [RegisterError e (messageOf impl)] /\
     In x before /\ thrownBy x = Some e /\
     existsb isRegisterError before = false /\
     snd result = Ok ReturnedNull).
Proof.
  cbv zeta. intros Hyp.
  pose proof (any_session impl h sourceDirectory currentFile imports macro
                argsObject options st) as Hs.
  unfold session in Hs.
  destruct (checkInstallations h (trace st)) as [msgs installed]. simpl in *.
  destruct (shown_quiet msgs) as [Hq Hnf].
  destruct (quiet_no_launch _ Hq) as (Hr1 & Hr2 & _ & Hr4).
  destruct installed.
  - destruct Hyp as [Hyp|Hyp]; [discriminate|].
    destruct Hs as (evs & r & Hrun & Hnew & Hres).
    assert (Hfail : existsb failedStep evs = true).
    { rewrite Hnew, !existsb_app, Hnf in Hyp. simpl in Hyp.
      destruct (existsb failedStep evs); [reflexivity|].
      destruct r; simpl in Hyp; discriminate. }
    destruct (run_failed_step _ _ _ _ _ _ _ Hrun Hfail)
      as (H1 & H2 & H4 & e & x & -> & Hx & Hthrown).
    simpl in Hnew, Hres. rewrite Hnew, Hres.
    rewrite !existsb_app, Hr1, Hr2, H1, H2. simpl.
    split; [reflexivity|]. split; [reflexivity|]. split; [eauto|].
    split; [discriminate|]. intros _.
    exists e, x, (map ShowErrorMessage msgs ++ evs).
    rewrite <- app_assoc, existsb_app, Hr4, H4.
    repeat split; auto. apply in_or_app. now right.
  - destruct Hs as [Hnew Hres]. rewrite Hnew, Hres, Hr1, Hr2.
    split; [reflexivity|]. split; [reflexivity|]. split; [eauto|].
    split; [auto|]. intros Hf. rewrite Hnf in Hf. discriminate.
Qed.

(** Whatever is thrown in the [try] block, nothing is run in the terminal. *)
Lemma run_thrown_no_launch (again : bool) (config : gmap string JsValue)
    (cwd : string) (command : string -> string) (terminal : string)
    (evs : list Event) (e : Exn) :
  run again config cwd command terminal evs (Throw e) ->
  existsb isRun evs = false.
Proof.
  intros Hrun. destruct (existsb isRun evs) eqn:E; [|reflexivity].
  destruct (run_launched _ _ _ _ _ _ _ Hrun E) as (H & _). discriminate.
Qed.

Lemma session_returning_null_runs_nothing (impl : Implementation) (h : Host)
    (sourceDirectory currentFile : string) (imports : list string) (macro : Macro)
    (argsObject : positive) (options : gmap string JsValue) (st : State) :
  let result :=
    startMacroDebugger impl h sourceDirectory currentFile imports macro argsObject
      options st in
  snd result = Ok ReturnedNull ->
  existsb isRun (newEvents st (fst result)) = false.
Proof.
  cbv zeta. intros Hnull.
  pose proof (any_session impl h sourceDirectory currentFile imports macro
                argsObject options st) as Hs.
  cbv zeta in Hs. unfold session in Hs.
  destruct (checkInstallations h (trace st)) as [msgs installed]. cbn [fst snd] in Hs.
  destruct (shown_quiet msgs) as [Hq Hnf].
  destruct (quiet_no_launch _ Hq) as (Hr1 & _).
  destruct installed.
  - destruct Hs as (evs & r & Hrun & Hnew & Hres). rewrite Hnew.
    destruct r as [c|e].
    + rewrite Hnull in Hres. inversion Hres as [Hc]. simpl in Hc. subst c.
      inversion Hrun.
    + rewrite !existsb_app, Hr1, (run_thrown_no_launch _ _ _ _ _ _ _ Hrun).
      reflexivity.
  - destruct Hs as [Hnew Hres]. now rewrite Hnew.
Qed.

Lemma no_partial_debug_session_witness :
  let h := Example.hostFailingCompiler Example.workspace in
  let st := Example.withArgs [] in
  let result :=
    startMacroDebugger MacroDebugger h "/ws" "src/Main.huff" [] Example.stopMacro
      1%positive ∅ st in
  let new := newEvents st (fst result) in
  let check := checkInstallations h (trace st) in
  existsb isRun new = false /\
  existsb isWrite new = false /\
  (exists c, snd result = Ok c) /\
  (snd check = false ->
   new = map ShowErrorMessage (fst check) /\ snd result = Ok ReturnedUndefined) /\
  (existsb failedStep new = true ->
   exists e x before,
     new = before ++ [RegisterError e (messageOf MacroDebugger)] /\
     In x before /\ thrownBy x = Some e /\
     existsb isRegisterError before = false /\
     snd result = Ok ReturnedNull).
Proof.
  apply (no_partial_debug_session MacroDebugger
           (Example.hostFailingCompiler Example.workspace) "/ws" "src/Main.huff" []
           Example.stopMacro 1%positive ∅ (Example.withArgs [])).
  right. vm_compute. reflexivity.
Defined.

(** Without the tools, the session shows the installation message and
    nothing else happens. *)
Example session_without_tools :
  let st := Example.withArgs [] in
  let result :=
    Debugger.startMacroDebugger (Example.hostWithoutTools Example.workspace)
      "/ws" "src/Main.huff" [] Example.stopMacro 1%positive ∅ st in
  newEvents st (fst result)
  = [ShowErrorMessage
       "Hevm installation required - install here: https://github.com/dapphub/dapptools#installation"]
  /\ snd result = Ok ReturnedUndefined.
Proof. by_evaluation. Qed.

(** A file that cannot be read: the error is registered, nothing is compiled,
    deployed, written or run. *)
Example session_unreadable_file :
  let st := Example.withArgs [] in
  let result :=
    Debugger.startMacroDebugger (Example.host []) "/ws" "src/Main.huff" []
      Example.stopMacro 1%positive ∅ st in
  newEvents st (fst result)
  = [ReadFileSync "/ws/src/Main.huff"
       (Throw (Error "ENOENT: no such file or directory, open '/ws/src/Main.huff'"));
     RegisterError
       (Error "ENOENT: no such file or directory, open '/ws/src/Main.huff'")
       Debugger.errorMessage]
  /\ snd result = Ok ReturnedNull.
Proof. by_evaluation. Qed.

End Failures.

(** ** Deployments and the debug command of a session *)

Section Deployments.

Lemma quiet_projections (pre : list Event) :
  forallb quiet pre = true ->
  deployAnswers pre = [] /\ commandsWritten pre = [] /\ runtimeCodes pre = [].
Proof.
  induction pre as [|x pre IH]; simpl; [auto|].
  intros H. apply andb_prop in H as [Hx Hpre].
  destruct (IH Hpre) as (H1 & H2 & H3).
  unfold deployAnswers, commandsWritten, runtimeCodes in *. simpl.
  rewrite H1, H2, H3. destruct x; try discriminate; auto.
Qed.

Lemma handled_projections (message : string) (r : Outcome Completion) :
  existsb isRun (handled message r) = false /\
  existsb failedStep (handled message r) = false /\
  commandsWritten (handled message r) = [] /\
  forall c f d a, ~ In (WriteHevmCommand c f d a) (handled message r).
Proof.
  destruct r; simpl; repeat split; auto.
  intros c f d a [H|[]]. discriminate.
Qed.

Lemma In_runtimeCodes (evs : list Event) bytecode config cwd runtime :
  In (DeployContract bytecode config cwd (Ok runtime)) evs ->
  In runtime (runtimeCodes evs).
Proof.
  intros H. unfold runtimeCodes. apply in_flat_map.
  eexists. split; [exact H|]. now left.
Qed.

Lemma In_commandsWritten (evs : list Event) (command : string) :
  In command (commandsWritten evs) ->
  exists f d a, In (WriteHevmCommand command f d a) evs.
Proof.
  unfold commandsWritten. intros H. apply in_flat_map in H as (x & Hx & Hc).
  destruct x; try contradiction. destruct Hc as [<-|[]]. eauto.
Qed.

(** C6 as amended: in a session that runs the debugger, the deployment
    that answers the runtime byte code of the debug command is the first
    deployment of the session, and it is over before the command is written.
    The macro debugger deploys this once, whatever the state and storage
    flags are; the viewer deploys once more, after it, when the state flag
    is set, and does not use the answer. *)
Theorem runtime_bytecode_from_first_deployment (impl : Implementation) (h : Host)
    (sourceDirectory currentFile : string) (imports : list string) (macro : Macro)
    (argsObject : positive) (options : gmap string JsValue) (st : State) :
  let result :=
    startMacroDebugger impl h sourceDirectory currentFile imports macro argsObject
      options st in
  let new := newEvents st (fst result) in
  let config := configOf impl h sourceDirectory options macro in
  let cwd := cwdOf impl h sourceDirectory in
  existsb isRun new = true ->
  exists before bytecode runtime runtime',
    existsb isDeploy before = false /\
    new = before
          ++ [DeployContract bytecode config cwd (Ok runtime)]
          ++ persisted (againOf impl config) config cwd bytecode (Ok runtime')
          ++ [WriteHevmCommand (commandOf impl h config cwd runtime)
                (get config "tempHevmCommandFilename") cwd (Ok tt);
              RunInUserTerminal (terminalOf impl h config cwd)] /\
    deployAnswers new
    = Ok runtime :: (if againOf impl config then [Ok runtime'] else []) /\
    (impl = MacroDebugger -> deployAnswers new = [Ok runtime]).
Proof.
  cbv zeta. intros Hlaunch.
  pose proof (any_session impl h sourceDirectory currentFile imports macro
                argsObject options st) as Hs.
  cbv zeta in Hs. unfold session in Hs.
  destruct (checkInstallations h (trace st)) as [msgs installed]. cbn [fst snd] in Hs.
  destruct (shown_quiet msgs) as [Hq Hnf].
  destruct (quiet_no_launch _ Hq) as (Hr1 & Hr2 & Hr3 & Hr4).
  destruct installed.
  2:{ destruct Hs as [Hnew _]. rewrite Hnew, Hr1 in Hlaunch. discriminate. }
  destruct Hs as (evs & r & Hrun & Hnew & Hres).
  rewrite Hnew in Hlaunch |- *. clear Hnew.
  destruct (handled_projections (messageOf impl) r) as (Hh1 & _).
  assert (Hl : existsb isRun evs = true).
  { rewrite !existsb_app, Hr1, Hh1 in Hlaunch.
    now rewrite orb_false_r in Hlaunch. }
  destruct (run_launched _ _ _ _ _ _ _ Hrun Hl)
    as (-> & pre & bytecode & runtime & runtime' & [Hpq Hpc] & ->).
  destruct (quiet_no_launch _ Hpq) as (_ & _ & Hp3 & _).
  destruct (quiet_projections _ Hq) as (Hd1 & _).
  destruct (quiet_projections _ Hpq) as (Hd2 & _).
  cbn [handled]. rewrite app_nil_r.
  exists (map ShowErrorMessage msgs ++ pre), bytecode, runtime, runtime'.
  assert (Hanswers :
            deployAnswers
              (map ShowErrorMessage msgs ++ pre
               ++ [DeployContract bytecode
                     (configOf impl h sourceDirectory options macro)
                     (cwdOf impl h sourceDirectory) (Ok runtime)]
               ++ persisted
                    (againOf impl (configOf impl h sourceDirectory options macro))
                    (configOf impl h sourceDirectory options macro)
                    (cwdOf impl h sourceDirectory) bytecode (Ok runtime')
               ++ [written (configOf impl h sourceDirectory options macro)
                     (cwdOf impl h sourceDirectory)
                     (commandOf impl h (configOf impl h sourceDirectory options macro)
                        (cwdOf impl h sourceDirectory)) runtime (Ok tt);
                   RunInUserTerminal
                     (terminalOf impl h (configOf impl h sourceDirectory options macro)
                        (cwdOf impl h sourceDirectory))])
            = Ok runtime
              :: (if againOf impl (configOf impl h sourceDirectory options macro)
                  then [Ok runtime'] else [])).
  { unfold deployAnswers in *.
    rewrite !flat_map_app, Hd1, Hd2. unfold persisted.
    destruct (againOf impl _); reflexivity. }
  split; [now rewrite existsb_app, Hr3, Hp3|].
  split; [rewrite <- app_assoc; reflexivity|].
  split; [exact Hanswers|].
  intros ->. exact Hanswers.
Qed.

End Deployments.

Section DeploymentExamples.

Lemma runtime_bytecode_from_first_deployment_witness :
  let options : gmap string JsValue := {[ "stateChecked" := VBool true ]} in
  let h := Example.hostCounting Example.workspace in
  let st := Example.withArgs [] in
  let result :=
    startMacroDebugger ViewerDebugger h "/ws" "src/Main.huff" [] Example.stopMacro
      1%positive options st in
  let new := newEvents st (fst result) in
  let config := configOf ViewerDebugger h "/ws" options Example.stopMacro in
  let cwd := cwdOf ViewerDebugger h "/ws" in
  exists before bytecode runtime runtime',
    existsb isDeploy before = false /\
    new = before
          ++ [DeployContract bytecode config cwd (Ok runtime)]
          ++ persisted (againOf ViewerDebugger config) config cwd bytecode (Ok runtime')
          ++ [WriteHevmCommand (commandOf ViewerDebugger h config cwd runtime)
                (get config "tempHevmCommandFilename") cwd (Ok tt);
              RunInUserTerminal (terminalOf ViewerDebugger h config cwd)] /\
    deployAnswers new
    = Ok runtime :: (if againOf ViewerDebugger config then [Ok runtime'] else []) /\
    (ViewerDebugger = MacroDebugger -> deployAnswers new = [Ok runtime]).
Proof.
  apply (runtime_bytecode_from_first_deployment ViewerDebugger
           (Example.hostCounting Example.workspace) "/ws" "src/Main.huff" []
           Example.stopMacro 1%positive {[ "stateChecked" := VBool true ]}
           (Example.withArgs [])).
  vm_compute. reflexivity.
Defined.

(** C6 as stated fails. With the state flag set, the session of the macro
    debugger deploys once: no deployment comes before the one that answers
    the runtime byte code. The session of the viewer deploys twice, and the
    byte code of its debug command, 0x6001, is the answer of the first
    deployment, not of the second. *)
Lemma preserve_state_session_deployments :
  let options : gmap string JsValue := {[ "stateChecked" := VBool true ]} in
  let h := Example.hostCounting Example.workspace in
  let st := Example.withArgs [] in
  let debugger :=
    newEvents st
      (fst (Debugger.startMacroDebugger h "/ws" "src/Main.huff" [] Example.stopMacro
              1%positive options st)) in
  let viewer :=
    newEvents st
      (fst (Viewer.startMacroDebugger h "/ws" "src/Main.huff" [] Example.stopMacro
              1%positive options st)) in
  toBoolean (get (configOf MacroDebugger h "/ws" options Example.stopMacro)
               "stateChecked") = true /\
  existsb isRun debugger = true /\
  deployAnswers debugger = [Ok "0x6001"] /\
  existsb isRun viewer = true /\
  deployAnswers viewer = [Ok "0x6001"; Ok "0x6002"] /\
  commandsWritten viewer
  = ["hevm exec     --code 0x6001     --address 7bc087f4ef9d0dc15fef823bff9c78cc5cca8be0a8     --caller 0x0000000000000000000000000000000000000069     --gas 0xffffffff     --state /ws/cache/huff_debug_hevm_state          --debug"].
Proof. by_evaluation. Qed.

End DeploymentExamples.

(** ** The debug command of a session without flags *)

Section BareCommand.

Lemma occursIn_prefix (a b s : string) : occursIn (a +:+ b) s -> occursIn a s.
Proof.
  intros (p & q & ->). exists p, (b +:+ q). now rewrite sapp_assoc.
Qed.

Lemma bare_command_of (impl : Implementation) (h : Host)
    (config : gmap string JsValue) (cwd runtime : string) :
  toBoolean (get config "stateChecked") = false ->
  toBoolean (get config "storageChecked") = false ->
  toBoolean (get config "calldataChecked") = false ->
  toBoolean (get config "callValueChecked") = false ->
  allChars notDash runtime = true ->
  allChars notDash (toString (get config "hevmContractAddress")) = true ->
  allChars notDash (toString (get config "hevmCaller")) = true ->
  bareClauses (commandOf impl h config cwd runtime).
Proof.
  intros H1 H2 H3 H4 Hcode Haddress Hcaller.
  destruct impl; unfold commandOf.
  - rewrite (debugger_hevmCommand_bare h config cwd runtime H1 H2 H3 H4).
    destruct (bare_command_clauses config runtime Hcode Haddress Hcaller
                "     --gas 0xffffffff                    --debug")
      as (C1 & C2 & C3 & C4 & C5 & C6 & C7 & C8);
      try reflexivity; try (apply includes_occursIn; reflexivity).
    split; [exact (occursIn_prefix "--code" (" " +:+ runtime) _ C1)|].
    split; [exact (occursIn_prefix "--address"
                     (" " +:+ toString (get config "hevmContractAddress")) _ C2)|].
    split; [exact (occursIn_prefix "--caller"
                     (" " +:+ toString (get config "hevmCaller")) _ C3)|].
    repeat split; assumption.
  - rewrite (viewer_hevmCommand_bare h config cwd runtime H1 H2 H3).
    destruct (bare_command_clauses config runtime Hcode Haddress Hcaller
                "     --gas 0xffffffff               --debug")
      as (C1 & C2 & C3 & C4 & C5 & C6 & C7 & C8);
      try reflexivity; try (apply includes_occursIn; reflexivity).
    split; [exact (occursIn_prefix "--code" (" " +:+ runtime) _ C1)|].
    split; [exact (occursIn_prefix "--address"
                     (" " +:+ toString (get config "hevmContractAddress")) _ C2)|].
    split; [exact (occursIn_prefix "--caller"
                     (" " +:+ toString (get config "hevmCaller")) _ C3)|].
    repeat split; assumption.
Qed.

Lemma session_address_plain (impl : Implementation) (h : Host)
    (sourceDirectory : string) (options : gmap string JsValue) (macro : Macro) :
  allChars notDash
    (toString (get (configOf impl h sourceDirectory options macro)
                 "hevmContractAddress")) = true.
Proof.
  destruct impl; unfold configOf, Debugger.sessionConfig, Viewer.sessionConfig, get;
    rewrite lookup_insert_eq; vm_compute; reflexivity.
Qed.

Lemma runtimeCodes_app (a b : list Event) :
  runtimeCodes (a ++ b) = runtimeCodes a ++ runtimeCodes b.
Proof. apply flat_map_app. Qed.

Lemma commandsWritten_app (a b : list Event) :
  commandsWritten (a ++ b) = commandsWritten a ++ commandsWritten b.
Proof. apply flat_map_app. Qed.

(** In a run that deploys once, a deployment that answers is followed by
    the writing of the command for its answer. *)
Lemma run_deployed_writes (config : gmap string JsValue) (cwd : string)
    (command : string -> string) (terminal message : string)
    (evs : list Event) (r : Outcome Completion) (runtime : string) :
  run false config cwd command terminal evs r ->
  In runtime (runtimeCodes (evs ++ handled message r)) ->
  commandsWritten (evs ++ handled message r) = [command runtime].
Proof.
  assert (Hh : runtimeCodes (handled message r) = []
               /\ commandsWritten (handled message r) = [])
    by (destruct r; split; reflexivity).
  destruct Hh as [Hh1 Hh2].
  rewrite runtimeCodes_app, commandsWritten_app, Hh1, Hh2, !app_nil_r.
  intros Hrun Hin. destruct Hrun as
    [pre e [Hq _] | pre bytecode e [Hq _]
    | pre bytecode runtime0 e [Hq _] Ha
    | pre bytecode runtime0 runtime' e [Hq _]
    | pre bytecode runtime0 runtime' [Hq _]];
    destruct (quiet_projections pre Hq) as (_ & Hw & Hc).
  - rewrite Hc in Hin. destruct Hin.
  - rewrite runtimeCodes_app, Hc in Hin. destruct Hin.
  - discriminate.
  - rewrite runtimeCodes_app, Hc in Hin. rewrite commandsWritten_app, Hw.
    destruct Hin as [<-|[]]. reflexivity.
  - rewrite runtimeCodes_app, Hc in Hin. rewrite commandsWritten_app, Hw.
    destruct Hin as [<-|[]]. reflexivity.
Qed.




(** The scenario of the specification: the macro [stop] without arguments,
    overrides and flags. *)
Example stop_session_command :
  let st := Example.withArgs [] in
  commandsWritten
    (newEvents st
       (fst (Debugger.startMacroDebugger (Example.host Example.workspace) "/ws"
               "src/Main.huff" [] Example.stopMacro 1%positive ∅ st)))
  = ["hevm exec     --code 0x00     --address 7bc087f4ef9d0dc15fef823bff9c78cc5cca8be0a8     --caller 0x0000000000000000000000000000000000000069     --gas 0xffffffff                    --debug"].
Proof. vm_compute. reflexivity. Qed.

End BareCommand.

(** ** Flattening: entry points *)

Section Flattening.

(** The pattern of the macro debugger asks for at most one white space
    after [#define]: an entry point with two spaces there is not removed,
    where the pattern of [flattenFile] removes it. *)
Example spaced_entry_point_not_stripped :
  Debugger.stripFile Example.spacedMain = Example.spacedMain /\
  Viewer.stripFile Example.spacedMain = Example.spacedMain /\
  replaceAll FunctionDebugger.mainRegex (template EmptyString) Example.spacedMain
  = EmptyString.
Proof. by_evaluation. Qed.

(** An entry point with braces in its body is removed up to the first
    closing brace only. *)
Example nested_entry_point_partly_stripped :
  Debugger.stripFile Example.nestedMain = " b" +:+ LF +:+ "}".
Proof. vm_compute. reflexivity. Qed.

(** An entry point in the usual layout is removed. *)
Example usual_entry_point_stripped :
  okText (snd (Debugger.createCompiledMacro (Example.host Example.workspace) "/ws"
                 Example.stopMacro 1%positive "src/Main.huff" []
                 (Example.withArgs [])))
  = LF +:+ LF +:+ Debugger.entryPoint [] "stop".
Proof. vm_compute. reflexivity. Qed.

(** C3, which fails on the code: for the one file [spacedMain], whose entry
    point has two spaces after [#define], the text that [createCompiledMacro]
    of the macro debugger and of the viewer returns has two entry point
    definitions, the one of the file and the new one. *)
Theorem flattened_text_with_two_entry_points :
  let files := [("/ws/src/Main.huff", Example.spacedMain)] in
  let flattened create :=
    okText (snd (create (Example.host files) "/ws" Example.stopMacro 1%positive
                   "src/Main.huff" [] (Example.withArgs []))) in
  flattened Debugger.createCompiledMacro
  = LF +:+ Example.spacedMain +:+ LF +:+ Debugger.entryPoint [] "stop" /\
  countMatches FunctionDebugger.mainRegex (flattened Debugger.createCompiledMacro)
  = 2%nat /\
  occurrences "MAIN()" (flattened Debugger.createCompiledMacro) = 2%nat /\
  flattened Viewer.createCompiledMacro
  = flattened Debugger.createCompiledMacro.
Proof. by_evaluation. Qed.

(** Removing one entry point can put another together. *)
Example removal_creates_entry_point :
  let spliced :=
    "#define macro MA" +:+ "#define macro MAIN{}" +:+ "IN() = takes(0) returns (0) {}" in
  Debugger.stripFile spliced = "#define macro MAIN() = takes(0) returns (0) {}" /\
  countMatches Debugger.mainRegex
    (okText (snd (Debugger.createCompiledMacro
                    (Example.host [("/ws/src/Main.huff", spliced)]) "/ws"
                    Example.stopMacro 1%positive "src/Main.huff" []
                    (Example.withArgs []))))
  = 2%nat.
Proof. by_evaluation. Qed.

(** [flattenFile] keeps the current file as it is and writes no entry point:
    a current file without an entry point gives a text without one. *)
Example flattenFile_without_entry_point :
  let lib :=
    "#define macro ADD() = takes(2) returns (1) {" +:+ LF +:+ "  add" +:+ LF +:+ "}" in
  snd (FunctionDebugger.flattenFile (Example.host [("/ws/src/Lib.huff", lib)])
         "/ws" "src/Lib.huff" [] Example.emptyState)
  = Ok lib.
Proof. vm_compute. reflexivity. Qed.

End Flattening.

(** ** Storage overrides *)

Section StorageOverrides.

Lemma concat_empty_cons (x : string) (xs : list string) :
  String.concat EmptyString (x :: xs) = x +:+ String.concat EmptyString xs.
Proof.
  destruct xs as [|y ys]; [symmetry; apply sapp_nil_r|reflexivity].
Qed.

Lemma overridesText_from (states : list (string * string)) (start : string) :
  fold_left
    (fun overrides state =>
       overrides +:+ fst state +:+ " " +:+ snd state +:+ " sstore" +:+ LF)
    states start
  = start +:+ String.concat EmptyString (map storeLine states).
Proof.
  revert start. induction states as [|state states IH]; intros start.
  - symmetry. apply sapp_nil_r.
  - cbn [fold_left map]. rewrite IH, concat_empty_cons, sapp_assoc. reflexivity.
Qed.

(** The overrides are one store instruction each, in the order of
    [stateValues]. *)
Lemma overridesText_lines (states : list (string * string)) :
  Debugger.overridesText states = String.concat EmptyString (map storeLine states) /\
  List.length (map storeLine states) = List.length states.
Proof.
  split; [|apply length_map].
  unfold Debugger.overridesText. now rewrite overridesText_from.
Qed.

(** Without a match of the constructor pattern, the macro debugger appends a
    constructor of no arguments that holds the overrides, and leaves the
    source as it is. *)
Lemma debugger_overrideStorage_appends (macro : string)
    (config : gmap string JsValue) (states : list (string * string)) :
  exec Debugger.constructorRegex macro = None ->
  iterate (get config "stateValues") = Ok states ->
  Debugger.overrideStorage macro config
  = Ok (macro +:+ LF +:+ "#define macro CONSTRUCTOR() = takes(0) returns(0) {"
        +:+ LF +:+ TAB
        +:+ String.concat EmptyString (map storeLine states) +:+ "}").
Proof.
  intros Hexec Hstates. unfold Debugger.overrideStorage.
  rewrite Hexec, Hstates. now destruct (overridesText_lines states) as [-> _].
Qed.

(** The viewer appends a constructor whatever the source holds. *)
Lemma viewer_overrideStorage_appends (macro : string)
    (config : gmap string JsValue) (states : list (string * string)) :
  iterate (get config "stateValues") = Ok states ->
  Viewer.overrideStorage macro config
  = Ok (macro +:+ (LF +:+ "#define macro CONSTRUCTOR() = takes(0) returns(0) {" +:+ LF)
        +:+ String.concat EmptyString (map storeLine states) +:+ "}").
Proof.
  intros Hstates. unfold Viewer.overrideStorage.
  rewrite Hstates, overridesText_from. now rewrite !sapp_assoc.
Qed.

(** With one constructor in the source, the macro debugger puts the stores
    at the end of its body. *)
Example debugger_overrideStorage_into_constructor :
  Debugger.overrideStorage Example.withConstructor Example.twoOverrides
  = Ok ("#define macro CONSTRUCTOR() = takes(0) returns (0) {" +:+ LF
        +:+ "  0x01 0x00 sstore" +:+ LF
        +:+ LF +:+ TAB +:+ "0x2a 0x00 sstore" +:+ LF
        +:+ "0x2b 0x01 sstore" +:+ LF
        +:+ "}" +:+ LF
        +:+ "#define macro MAIN() = takes(0) returns (0) {" +:+ LF
        +:+ "  stop" +:+ LF
        +:+ "}").
Proof. vm_compute. reflexivity. Qed.

(** C4, which fails on the code. For a source with a constructor and two
    overrides the viewer appends a second constructor definition instead of
    putting the stores into the one that is there. For a source in which the
    constructor pattern matches twice, the macro debugger replaces both
    matches by the first with the overrides: four store instructions come
    from two overrides, and the body of the second constructor is lost. *)
Theorem overrides_duplicate_constructor :
  Viewer.overrideStorage Example.withConstructor Example.twoOverrides
  = Ok (Example.withConstructor +:+ LF
        +:+ "#define macro CONSTRUCTOR() = takes(0) returns(0) {" +:+ LF
        +:+ "0x2a 0x00 sstore" +:+ LF
        +:+ "0x2b 0x01 sstore" +:+ LF
        +:+ "}") /\
  occurrences "#define macro CONSTRUCTOR"
    (okText (Viewer.overrideStorage Example.withConstructor Example.twoOverrides))
  = 2%nat /\
  occurrences "#define macro CONSTRUCTOR"
    (okText (Debugger.overrideStorage Example.withConstructor Example.twoOverrides))
  = 1%nat /\
  occurrences "0x2a 0x00 sstore"
    (okText (Debugger.overrideStorage Example.withTwoConstructors Example.twoOverrides))
  = 2%nat /\
  occurrences "caller 0x02 sstore"
    (okText (Debugger.overrideStorage Example.withTwoConstructors Example.twoOverrides))
  = 0%nat.
Proof. by_evaluation. Qed.

(** A dollar sign in the overrides is taken as a pattern of the replacement
    text: [$&] becomes the matched constructor. *)
Example dollar_in_override_is_expanded :
  Debugger.overrideStorage "#define macro CONSTRUCTOR() = takes(0) returns (0) {}"
    {[ "stateValues" := VStates [ {| key := "0x00"; value := "$&" |} ] ]}
  = Ok ("#define macro CONSTRUCTOR() = takes(0) returns (0) {" +:+ LF +:+ TAB
        +:+ "#define macro CONSTRUCTOR() = takes(0) returns (0) { 0x00 sstore"
        +:+ LF +:+ "}").
Proof. vm_compute. reflexivity. Qed.

End StorageOverrides.

(** ** Jump labels *)

Section JumpLabels.

(** *** What the pattern matches *)

Lemma matchAt_jumpLabel (s : string) :
  matchAt Debugger.jumpLabelRegex s
  = match s with
    | String c t => if Ascii.eqb "<" c then labelRest t 1 else None
    | EmptyString => None
    end.
Proof.
  destruct s as [|c t]; [reflexivity|].
  unfold matchAt, Debugger.jumpLabelRegex. cbn [seq matcher].
  rewrite stripPrefix_cons_cons. destruct (Ascii.eqb "<" c); reflexivity.
Qed.

Lemma lineTerminator_not_gt (c : ascii) :
  isLineTerminator c = true -> Ascii.eqb ">" c = false.
Proof.
  intros H. destruct (Ascii.eqb ">" c) eqn:E; [|reflexivity].
  apply Ascii.eqb_eq in E. subst c. discriminate.
Qed.

Lemma labelRest_cons (c : ascii) (t : string) (i : nat) :
  labelRest (String c t) i
  = if dot c then
      match labelRest t (S i) with
      | Some r => Some r
      | None => if Ascii.eqb ">" c then Some (i + 1, [])%nat else None
      end
    else if Ascii.eqb ">" c then Some (i + 1, [])%nat else None.
Proof.
  unfold labelRest. cbn [starGreedy matcher]. rewrite stripPrefix_cons_cons.
  destruct (Ascii.eqb ">" c); reflexivity.
Qed.

Lemma labelRest_None_iff (t : string) (i : nat) :
  labelRest t i = None <-> gtOnLine t = false.
Proof.
  revert i. induction t as [|c t IH]; intros i; [split; reflexivity|].
  rewrite labelRest_cons. cbn [gtOnLine]. unfold dot.
  destruct (isLineTerminator c) eqn:Hlt; cbn [negb].
  - rewrite (lineTerminator_not_gt c Hlt). split; reflexivity.
  - rewrite (Ascii.eqb_sym c ">").
    destruct (labelRest t (S i)) as [r|] eqn:Hrest.
    + assert (gtOnLine t <> false).
      { intros H. apply (proj2 (IH (S i))) in H. congruence. }
      destruct (Ascii.eqb ">" c); [split; discriminate|].
      split; [discriminate|contradiction].
    + apply (proj1 (IH (S i))) in Hrest. rewrite Hrest.
      destruct (Ascii.eqb ">" c); split; auto; discriminate.
Qed.

(** A match takes at least one and at most all of the characters left. *)
Lemma labelRest_bounds (t : string) (i n : nat) (cs : Caps) :
  labelRest t i = Some (n, cs) -> (i < n <= i + String.length t)%nat.
Proof.
  revert i. induction t as [|c t IH]; intros i; [discriminate|].
  rewrite labelRest_cons. cbn [String.length].
  destruct (dot c).
  - destruct (labelRest t (S i)) as [[n' cs']|] eqn:Hrest.
    + intros H. inversion H; subst. apply IH in Hrest. lia.
    + destruct (Ascii.eqb ">" c); [|discriminate].
      intros H. inversion H. lia.
  - destruct (Ascii.eqb ">" c); [|discriminate].
    intros H. inversion H. lia.
Qed.

Lemma matchAt_jumpLabel_None_cons (c : ascii) (t : string) :
  matchAt Debugger.jumpLabelRegex (String c t) = None ->
  Ascii.eqb c "<" = true -> gtOnLine t = false.
Proof.
  rewrite matchAt_jumpLabel, (Ascii.eqb_sym c "<"). intros H E. rewrite E in H.
  now apply labelRest_None_iff in H.
Qed.

Lemma matchAt_jumpLabel_Some_cons (c : ascii) (t : string) (n : nat) (cs : Caps) :
  matchAt Debugger.jumpLabelRegex (String c t) = Some (n, cs) ->
  Ascii.eqb c "<" = true /\ gtOnLine t = true /\
  exists n', n = S n' /\ (n' <= String.length t)%nat.
Proof.
  rewrite matchAt_jumpLabel, (Ascii.eqb_sym c "<").
  destruct (Ascii.eqb "<" c); [|discriminate]. intros H.
  split; [reflexivity|]. split.
  - destruct (gtOnLine t) eqn:G; [reflexivity|].
    apply (proj2 (labelRest_None_iff t 1%nat)) in G. congruence.
  - apply labelRest_bounds in H. exists (Nat.pred n). lia.
Qed.

(** [test] decides [noLabelReference]. *)
Lemma execFrom_jumpLabel_None (s : string) (i : nat) :
  execFrom Debugger.jumpLabelRegex i s = None <-> noLabelReference s = true.
Proof.
  revert i. induction s as [|c t IH]; intros i; [split; reflexivity|].
  cbn [execFrom noLabelReference].
  destruct (matchAt Debugger.jumpLabelRegex (String c t)) as [[n cs]|] eqn:Hm.
  - apply matchAt_jumpLabel_Some_cons in Hm as (E & G & _).
    rewrite E, G. split; discriminate.
  - rewrite IH. destruct (Ascii.eqb c "<") eqn:E.
    + rewrite (matchAt_jumpLabel_None_cons c t Hm E). reflexivity.
    + reflexivity.
Qed.

Lemma test_jumpLabel (s : string) :
  test Debugger.jumpLabelRegex s = negb (noLabelReference s).
Proof.
  unfold test, exec.
  destruct (execFrom Debugger.jumpLabelRegex 0 s) eqn:E.
  - destruct (noLabelReference s) eqn:N; [|reflexivity].
    apply (execFrom_jumpLabel_None s 0%nat) in N. congruence.
  - apply execFrom_jumpLabel_None in E. now rewrite E.
Qed.

(** *** [noLabelReference] decides [hasLabelReference] *)

Lemma gtOnLine_split (t : string) :
  gtOnLine t = true ->
  exists label after,
    t = label +:+ ">" +:+ after /\ allChars notLineTerminator label = true.
Proof.
  induction t as [|c t IH]; [discriminate|]. cbn [gtOnLine].
  destruct (isLineTerminator c) eqn:Hlt; [discriminate|].
  destruct (Ascii.eqb c ">") eqn:E.
  - intros _. apply Ascii.eqb_eq in E. subst c.
    exists EmptyString, t. split; reflexivity.
  - intros H. destruct (IH H) as (label & after & -> & Hl).
    exists (String c label), after. split; [reflexivity|].
    cbn [allChars]. unfold notLineTerminator at 1. now rewrite Hlt, Hl.
Qed.

Lemma gtOnLine_app (label after : string) :
  allChars notLineTerminator label = true ->
  gtOnLine (label +:+ ">" +:+ after) = true.
Proof.
  induction label as [|c label IH]; [reflexivity|].
  cbn [allChars]. intros H. apply andb_prop in H as [Hc Hl].
  rewrite sapp_cons. cbn [gtOnLine]. unfold notLineTerminator in Hc.
  destruct (isLineTerminator c); [discriminate|].
  destruct (Ascii.eqb c ">"); [reflexivity|now apply IH].
Qed.

Lemma noLabelReference_app_false (before s : string) :
  noLabelReference s = false -> noLabelReference (before +:+ s) = false.
Proof.
  intros H. induction before as [|c before IH]; [exact H|].
  rewrite sapp_cons. cbn [noLabelReference]. rewrite IH. apply andb_false_r.
Qed.

Lemma noLabelReference_spec (s : string) :
  noLabelReference s = false <-> hasLabelReference s.
Proof.
  split.
  - induction s as [|c t IH]; [discriminate|]. cbn [noLabelReference].
    destruct (Ascii.eqb c "<") eqn:E.
    + destruct (gtOnLine t) eqn:G.
      * intros _. apply Ascii.eqb_eq in E. subst c.
        destruct (gtOnLine_split t G) as (label & after & -> & Hl).
        exists EmptyString, label, after. split; [reflexivity|exact Hl].
      * cbn [negb andb]. intros H.
        destruct (IH H) as (before & label & after & -> & Hl).
        exists (String c before), label, after. split; [reflexivity|exact Hl].
    + cbn [andb]. intros H.
      destruct (IH H) as (before & label & after & -> & Hl).
      exists (String c before), label, after. split; [reflexivity|exact Hl].
  - intros (before & label & after & -> & Hl).
    apply noLabelReference_app_false.
    change ("<" +:+ label +:+ ">" +:+ after)
      with (String "<" (label +:+ ">" +:+ after)).
    cbn [noLabelReference]. rewrite Ascii.eqb_refl, (gtOnLine_app label after Hl).
    reflexivity.
Qed.

Lemma test_jumpLabel_spec (s : string) :
  test Debugger.jumpLabelRegex s = true <-> hasLabelReference s.
Proof.
  rewrite test_jumpLabel, <- noLabelReference_spec.
  destruct (noLabelReference s); split; auto; discriminate.
Qed.

End JumpLabels.

Section Neutralisation.

(** *** Replacing the labels *)

Local Abbreviation neutral whole i skip s :=
  (replaceAllFrom Debugger.jumpLabelRegex (template "error") whole i skip s).

Lemma replaceAllFrom_skip (r : regex) (f : Replacer) (whole : string)
    (n : nat) (t : string) (i : nat) :
  (n <= String.length t)%nat ->
  replaceAllFrom r f whole i n t
  = replaceAllFrom r f whole (i + n) 0 (sliceFrom n t).
Proof.
  revert t i. induction n as [|n IH]; intros t i Hn.
  - now rewrite Nat.add_0_r.
  - destruct t as [|c t]; [simpl in Hn; lia|].
    cbn [replaceAllFrom sliceFrom]. rewrite IH by (simpl in Hn; lia).
    f_equal. lia.
Qed.

Lemma length_sliceFrom (n : nat) (t : string) :
  (String.length (sliceFrom n t) <= String.length t)%nat.
Proof.
  revert t. induction n as [|n IH]; intros t; [simpl; lia|].
  destruct t as [|c t]; simpl; [lia|]. specialize (IH t). lia.
Qed.

Lemma neutral_cons (whole : string) (i : nat) (c : ascii) (t : string) :
  neutral whole i 0%nat (String c t)
  = match matchAt Debugger.jumpLabelRegex (String c t) with
    | Some (S n, _) => "error" +:+ neutral whole (S i) n t
    | Some (O, _) => "error" +:+ String c (neutral whole (S i) 0%nat t)
    | None => String c (neutral whole (S i) 0%nat t)
    end.
Proof.
  cbn [replaceAllFrom].
  destruct (matchAt Debugger.jumpLabelRegex (String c t)) as [[[|n] cs]|]; reflexivity.
Qed.

Lemma noLabelReference_error (s : string) :
  noLabelReference ("error" +:+ s) = noLabelReference s.
Proof. reflexivity. Qed.

(** After the replacement, with the error block appended, no [<] has a [>]
    after it on its line; and where the text had no [>] on its first line,
    the result has none. *)
Lemma neutral_clean (bound : nat) :
  forall (s whole : string) (i : nat),
    (String.length s <= bound)%nat ->
    noLabelReference (neutral whole i 0%nat s +:+ Debugger.errorBlock) = true /\
    (gtOnLine s = false ->
     gtOnLine (neutral whole i 0%nat s +:+ Debugger.errorBlock) = false).
Proof.
  induction bound as [|bound IH]; intros s whole i Hlen.
  - destruct s; [|simpl in Hlen; lia]. split; [|intros _]; vm_compute; reflexivity.
  - destruct s as [|c t]; [split; [|intros _]; vm_compute; reflexivity|].
    cbn [String.length] in Hlen. rewrite neutral_cons.
    destruct (matchAt Debugger.jumpLabelRegex (String c t)) as [[n cs]|] eqn:Hm.
    + apply matchAt_jumpLabel_Some_cons in Hm as (E & G & n' & -> & Hn').
      rewrite (replaceAllFrom_skip _ _ whole n' t (S i) Hn'), sapp_assoc,
        noLabelReference_error.
      split.
      * apply IH. pose proof (length_sliceFrom n' t). lia.
      * cbn [gtOnLine]. apply Ascii.eqb_eq in E. subst c.
        change (isLineTerminator "<") with false.
        change (Ascii.eqb "<" ">") with false. cbv iota. congruence.
    + destruct (IH t whole (S i)) as [IH1 IH2]; [lia|].
      rewrite sapp_cons. cbn [noLabelReference gtOnLine]. split.
      * rewrite IH1, andb_true_r. destruct (Ascii.eqb c "<") eqn:E; [|reflexivity].
        now rewrite (IH2 (matchAt_jumpLabel_None_cons c t Hm E)).
      * destruct (isLineTerminator c); [reflexivity|].
        destruct (Ascii.eqb c ">"); [discriminate|exact IH2].
Qed.

Lemma neutralise_clean (macroBody : string) :
  noLabelReference (Debugger.neutralise macroBody) = true.
Proof.
  unfold Debugger.neutralise, replaceAll.
  now apply (neutral_clean (String.length macroBody)).
Qed.

(** *** One error block is appended *)

Lemma stripPrefix_mono (p u v x : string) :
  stripPrefix p u = Some x -> stripPrefix p (u +:+ v) = Some (x +:+ v).
Proof.
  revert u. induction p as [|a p IH]; intros u H.
  - simpl in H. inversion H. reflexivity.
  - destruct u as [|c u]; [discriminate|].
    rewrite sapp_cons, stripPrefix_cons_cons in *.
    destruct (Ascii.eqb a c); [now apply IH|discriminate].
Qed.

(** A pattern that starts in [u] and ends in what follows [u] has, after
    the part in [u], the first character of what follows. *)
Lemma stripPrefix_straddle (u p : string) (c : ascii) (tl r : string) :
  stripPrefix p (u +:+ String c tl) = Some r ->
  stripPrefix p u = None ->
  includes (String c EmptyString) p = true.
Proof.
  revert p. induction u as [|d u IH]; intros p Hsome Hnone.
  - destruct p as [|a p]; [discriminate|].
    rewrite sapp_nil_l, stripPrefix_cons_cons in Hsome.
    destruct (Ascii.eqb a c) eqn:E; [|discriminate].
    apply Ascii.eqb_eq in E. subst a.
    rewrite includes_cons, stripPrefix_cons_cons, Ascii.eqb_refl. reflexivity.
  - destruct p as [|a p]; [discriminate|].
    rewrite sapp_cons, stripPrefix_cons_cons in Hsome.
    rewrite stripPrefix_cons_cons in Hnone.
    destruct (Ascii.eqb a d); [|discriminate].
    rewrite includes_cons. destruct (stripPrefix _ (String a p)); [reflexivity|].
    now apply IH.
Qed.

Lemma occurrences_cons (pat : string) (c : ascii) (s : string) :
  occurrences pat (String c s)
  = ((match stripPrefix pat (String c s) with Some _ => 1 | None => 0 end)
     + occurrences pat s)%nat.
Proof. reflexivity. Qed.

Lemma occurrences_absent (c : ascii) (tl s : string) :
  includes (String c EmptyString) s = false -> occurrences (String c tl) s = 0%nat.
Proof.
  induction s as [|d s IH]; [reflexivity|].
  rewrite includes_cons, stripPrefix_cons_cons, occurrences_cons,
    stripPrefix_cons_cons.
  destruct (Ascii.eqb c d); [discriminate|]. exact IH.
Qed.

(** Appending a pattern whose first character does not come again in it
    adds one occurrence. *)
Lemma occurrences_app_pattern (c : ascii) (tl a : string) :
  includes (String c EmptyString) tl = false ->
  occurrences (String c tl) (a +:+ String c tl) = S (occurrences (String c tl) a).
Proof.
  intros Htl. induction a as [|d a IH].
  - rewrite sapp_nil_l, occurrences_cons, (occurrences_absent c tl tl Htl).
    rewrite <- (sapp_nil_r (String c tl)) at 2. rewrite stripPrefix_app. reflexivity.
  - rewrite sapp_cons, !occurrences_cons, IH, <- sapp_cons.
    destruct (stripPrefix (String c tl) (String d a)) as [x|] eqn:Hp.
    + rewrite (stripPrefix_mono _ _ (String c tl) _ Hp). lia.
    + destruct (stripPrefix (String c tl) (String d a +:+ String c tl)) as [r|] eqn:Hq;
        [|lia].
      exfalso. rewrite sapp_cons, stripPrefix_cons_cons in Hq.
      rewrite stripPrefix_cons_cons in Hp.
      destruct (Ascii.eqb c d); [|discriminate].
      pose proof (stripPrefix_straddle a tl c tl r Hq Hp). congruence.
Qed.

Lemma neutralise_one_block (macroBody : string) :
  occurrences Debugger.errorBlock (Debugger.neutralise macroBody)
  = S (occurrences Debugger.errorBlock
         (replaceAll Debugger.jumpLabelRegex (template "error") macroBody)).
Proof.
  unfold Debugger.neutralise.
  change Debugger.errorBlock
    with (String "e" ("rror:" +:+ LF +:+ TAB +:+ "0x0 dup1 stop")).
  apply occurrences_app_pattern. vm_compute. reflexivity.
Qed.

(** *** The replacement puts no halt instructions together *)

(** A text without the letter e that starts the replaced body starts the
    body. *)
Lemma neutral_prefix (q : string) :
  includes "e" q = false ->
  forall (s whole : string) (i : nat) (r : string),
    stripPrefix q (neutral whole i 0%nat s) = Some r ->
    exists r', stripPrefix q s = Some r'.
Proof.
  induction q as [|a q IH]; intros Hq s whole i r H; [now exists s|].
  rewrite includes_cons, stripPrefix_cons_cons in Hq.
  destruct (Ascii.eqb "e" a) eqn:Ea; [discriminate|].
  destruct s as [|c t]; [discriminate|].
  rewrite neutral_cons in H.
  destruct (matchAt Debugger.jumpLabelRegex (String c t)) as [[n cs]|] eqn:Hm.
  - apply matchAt_jumpLabel_Some_cons in Hm as (_ & _ & n' & -> & _).
    change ("error" +:+ ?x) with (String "e" ("rror" +:+ x)) in H.
    rewrite stripPrefix_cons_cons, Ascii.eqb_sym, Ea in H. discriminate.
  - rewrite stripPrefix_cons_cons in H |- *.
    destruct (Ascii.eqb a c); [|discriminate].
    now apply (IH Hq t whole (S i) r).
Qed.

Lemma includes_sliceFrom (pat : string) (n : nat) (s : string) :
  includes pat s = false -> includes pat (sliceFrom n s) = false.
Proof.
  revert s. induction n as [|n IH]; intros s H; [exact H|].
  destruct s as [|c t]; [exact H|]. cbn [sliceFrom]. apply IH.
  rewrite includes_cons in H. now destruct (stripPrefix pat (String c t)).
Qed.

(** The replaced body holds the halt instructions only where the body
    does. *)
Lemma neutral_free (bound : nat) :
  forall (s whole : string) (i : nat),
    (String.length s <= bound)%nat ->
    includes "0x0 dup1 stop" s = false ->
    includes "0x0 dup1 stop" (neutral whole i 0%nat s) = false.
Proof.
  induction bound as [|bound IH]; intros s whole i Hlen Hs.
  - destruct s; [reflexivity|simpl in Hlen; lia].
  - destruct s as [|c t]; [reflexivity|].
    cbn [String.length] in Hlen.
    destruct (stripPrefix "0x0 dup1 stop" (neutral whole i 0%nat (String c t)))
      as [r|] eqn:Hp.
    { apply neutral_prefix in Hp as (r' & Hr'); [|reflexivity].
      rewrite includes_cons, Hr' in Hs. discriminate. }
    assert (Ht : includes "0x0 dup1 stop" t = false).
    { rewrite includes_cons in Hs.
      now destruct (stripPrefix "0x0 dup1 stop" (String c t)). }
    rewrite neutral_cons in Hp |- *.
    destruct (matchAt Debugger.jumpLabelRegex (String c t)) as [[n cs]|] eqn:Hm.
    + apply matchAt_jumpLabel_Some_cons in Hm as (_ & _ & n' & -> & Hn').
      rewrite (replaceAllFrom_skip _ _ whole n' t (S i) Hn').
      rewrite includes_skip_literal by reflexivity.
      apply IH; [pose proof (length_sliceFrom n' t); lia|].
      now apply includes_sliceFrom.
    + rewrite includes_cons, Hp. apply IH; [lia|exact Ht].
Qed.

(** A pattern does not occur in a text that lacks a part of it. *)
Lemma occurrences_without_part (part pat s : string) :
  occursIn part pat -> includes part s = false -> occurrences pat s = 0%nat.
Proof.
  intros (a & b & ->) Hs. induction s as [|c s IH].
  - cbn [occurrences].
    destruct (stripPrefix (a +:+ part +:+ b) EmptyString) as [r|] eqn:E; [|reflexivity].
    apply stripPrefix_Some in E.
    assert (includes part EmptyString = true).
    { apply includes_occursIn. exists a, (b +:+ r). rewrite E.
      now rewrite !sapp_assoc. }
    congruence.
  - rewrite occurrences_cons.
    destruct (stripPrefix (a +:+ part +:+ b) (String c s)) as [r|] eqn:E.
    + apply stripPrefix_Some in E.
      assert (includes part (String c s) = true).
      { apply includes_occursIn. exists a, (b +:+ r). rewrite E.
        now rewrite !sapp_assoc. }
      congruence.
    + apply IH. rewrite includes_cons in Hs.
      now destruct (stripPrefix part (String c s)).
Qed.

Lemma neutralise_single_block (macroBody : string) :
  ~ occursIn "0x0 dup1 stop" macroBody ->
  occurrences Debugger.errorBlock (Debugger.neutralise macroBody) = 1%nat.
Proof.
  intros Hno. rewrite neutralise_one_block. f_equal.
  apply (occurrences_without_part "0x0 dup1 stop").
  - exists ("error:" +:+ LF +:+ TAB), EmptyString. reflexivity.
  - unfold replaceAll. apply (neutral_free (String.length macroBody)); [lia|].
    destruct (includes "0x0 dup1 stop" macroBody) eqn:E; [|reflexivity].
    apply includes_occursIn in E. contradiction.
Qed.

End Neutralisation.

Section MacroIsolation.




(** The body of the specification's scenario, on a line of its own. *)
Example loopStart_isolated :
  Debugger.isolated ("<loopStart> jump" +:+ LF)
  = "error jump" +:+ LF +:+ "error:" +:+ LF +:+ TAB +:+ "0x0 dup1 stop".
Proof. vm_compute. reflexivity. Qed.

(** One replacement takes everything from the first [<] of a line to its
    last [>]. *)
Example two_labels_on_a_line :
  Debugger.isolated ("<a> jumpi <b> jump" +:+ LF)
  = "error jump" +:+ LF +:+ "error:" +:+ LF +:+ TAB +:+ "0x0 dup1 stop".
Proof. vm_compute. reflexivity. Qed.

(** The isolated body is what the entry point of a session holds. *)
Example loopStart_entry_point :
  okText (snd (Debugger.createCompiledMacro (Example.host Example.workspace) "/ws"
                 {| body := "<loopStart> jump" +:+ LF; takes := 0; returns := 0 |}
                 1%positive "src/Main.huff" [] (Example.withArgs [])))
  = LF +:+ LF
    +:+ "#define macro MAIN() = takes(0) returns (0) {" +:+ LF
    +:+ "  " +:+ LF
    +:+ "  error jump" +:+ LF
    +:+ "error:" +:+ LF
    +:+ TAB +:+ "0x0 dup1 stop" +:+ LF
    +:+ "}".
Proof. vm_compute. reflexivity. Qed.

End MacroIsolation.

(** * Further facts *)

(** ** Texts without a match *)

Section NoMatch.
Variable r : regex.
Variable f : Replacer.

Lemma replaceAllFrom_no_match (whole : string) (s : string) (i : nat) :
  execFrom r i s = None -> replaceAllFrom r f whole i 0 s = s.
Proof.
  revert i. induction s as [|c t IH]; intros i H; cbn [execFrom replaceAllFrom] in *.
  - destruct (matchAt r EmptyString) as [[n cs]|]; [discriminate|reflexivity].
  - destruct (matchAt r (String c t)) as [[n cs]|]; [discriminate|].
    now rewrite (IH (S i) H).
Qed.

(** A replacement leaves a text without a match as it is. *)
Lemma replaceAll_no_match (s : string) : test r s = false -> replaceAll r f s = s.
Proof.
  unfold test, exec, replaceAll. intros H. apply replaceAllFrom_no_match.
  destruct (execFrom r 0 s); [discriminate|reflexivity].
Qed.

End NoMatch.

(** ** What a match needs *)

Section Literals.

Lemma starGreedy_suffix (p : ascii -> bool) (k : string -> nat -> Result)
    (s : string) (i : nat) (res : nat * Caps) :
  starGreedy p k s i = Some res ->
  exists pre t j, s = pre +:+ t /\ k t j = Some res.
Proof.
  revert i. induction s as [|c t IH]; intros i H; cbn [starGreedy] in H.
  - exists EmptyString, EmptyString, i. now split.
  - destruct (p c).
    + destruct (starGreedy p k t (S i)) as [res'|] eqn:Hrec.
      * inversion H; subst res'.
        destruct (IH _ Hrec) as (pre & t' & j & -> & Hk).
        exists (String c pre), t', j. now split.
      * exists EmptyString, (String c t), i. now split.
    + exists EmptyString, (String c t), i. now split.
Qed.

Lemma starLazy_suffix (p : ascii -> bool) (k : string -> nat -> Result)
    (s : string) (i : nat) (res : nat * Caps) :
  starLazy p k s i = Some res ->
  exists pre t j, s = pre +:+ t /\ k t j = Some res.
Proof.
  revert i. induction s as [|c t IH]; intros i H; cbn [starLazy] in H.
  - destruct (k EmptyString i) eqn:Hk; [|discriminate].
    inversion H; subst. exists EmptyString, EmptyString, i. now split.
  - destruct (k (String c t) i) eqn:Hk.
    + inversion H; subst. exists EmptyString, (String c t), i. now split.
    + destruct (p c); [|discriminate].
      destruct (IH _ H) as (pre & t' & j & -> & Hk').
      exists (String c pre), t', j. now split.
Qed.

(** A match attempt that succeeds has gone on, after the pattern, with the
    rest of the text. *)
Lemma matcher_suffix (r : regex) (s : string) (i : nat) (caps : Caps)
    (k : string -> nat -> Caps -> Result) (res : nat * Caps) :
  matcher r s i caps k = Some res ->
  exists pre t j cs, s = pre +:+ t /\ k t j cs = Some res.
Proof.
  revert s i caps k res.
  induction r as [l|p|p|p|p|p|r1 IH1 r2 IH2|name r1 IH1|r1 IH1];
    intros s i caps k res H; cbn [matcher] in H.
  - destruct (stripPrefix l s) as [t|] eqn:Hl; [|discriminate].
    apply stripPrefix_Some in Hl. exists l, t. eauto.
  - destruct s as [|c t]; [discriminate|]. destruct (p c); [|discriminate].
    exists (String c EmptyString), t. eauto.
  - destruct s as [|c t].
    + exists EmptyString, EmptyString. eauto.
    + destruct (p c).
      * destruct (k t (S i) caps) as [res'|] eqn:Hk.
        -- inversion H; subst res'. exists (String c EmptyString), t. eauto.
        -- exists EmptyString, (String c t). eauto.
      * exists EmptyString, (String c t). eauto.
  - apply starGreedy_suffix in H as (pre & t & j & -> & Hk). exists pre, t. eauto.
  - apply starLazy_suffix in H as (pre & t & j & -> & Hk). exists pre, t. eauto.
  - destruct s as [|c t]; [discriminate|]. destruct (p c); [|discriminate].
    apply starGreedy_suffix in H as (pre & t' & j & -> & Hk).
    exists (String c pre), t'. eauto.
  - apply IH1 in H as (pre1 & t1 & j1 & cs1 & -> & H).
    apply IH2 in H as (pre2 & t2 & j2 & cs2 & -> & H).
    exists (pre1 +:+ pre2), t2, j2, cs2. split; [|exact H].
    now rewrite sapp_assoc.
  - apply IH1 in H as (pre1 & t1 & j1 & cs1 & -> & H). exists pre1, t1. eauto.
  - destruct (matcher r1 s i caps _) as [[j cs]|]; [|discriminate].
    exists EmptyString, s. eauto.
Qed.

Lemma occursIn_suffix (l pre t : string) : occursIn l t -> occursIn l (pre +:+ t).
Proof. apply occursIn_app_r. Qed.

(** Every literal of a pattern occurs in a text that the pattern matches at
    its front. *)
Lemma matcher_literals (r : regex) (s : string) (i : nat) (caps : Caps)
    (k : string -> nat -> Caps -> Result) (res : nat * Caps) (l : string) :
  matcher r s i caps k = Some res -> In l (Kinds.literals r) -> occursIn l s.
Proof.
  revert s i caps k res.
  induction r as [l'|p|p|p|p|p|r1 IH1 r2 IH2|name r1 IH1|r1 IH1];
    intros s i caps k res H Hin; cbn [Kinds.literals] in Hin; try destruct Hin.
  - subst l'. cbn [matcher] in H.
    destruct (stripPrefix l s) as [t|] eqn:Hl; [|discriminate].
    apply stripPrefix_Some in Hl. subst s. apply occursIn_here.
  - contradiction.
  - cbn [matcher] in H. apply in_app_or in Hin as [Hin|Hin].
    + exact (IH1 _ _ _ _ _ H Hin).
    + apply matcher_suffix in H as (pre & t & j & cs & -> & H).
      apply occursIn_suffix. exact (IH2 _ _ _ _ _ H Hin).
  - cbn [matcher] in H. exact (IH1 _ _ _ _ _ H Hin).
  - cbn [matcher] in H.
    destruct (matcher r1 s i caps _) as [[j cs]|] eqn:H1; [|discriminate].
    exact (IH1 _ _ _ _ _ H1 Hin).
Qed.

Lemma execFrom_literals (r : regex) (l : string) (s : string) (i : nat) :
  In l (Kinds.literals r) -> ~ occursIn l s -> execFrom r i s = None.
Proof.
  intros Hin. revert i. induction s as [|c t IH]; intros i Hno; cbn [execFrom].
  - destruct (matchAt r EmptyString) as [[n cs]|] eqn:Hm; [|reflexivity].
    exfalso. apply Hno. exact (matcher_literals _ _ _ _ _ _ _ Hm Hin).
  - destruct (matchAt r (String c t)) as [[n cs]|] eqn:Hm.
    + exfalso. apply Hno. exact (matcher_literals _ _ _ _ _ _ _ Hm Hin).
    + apply IH. intros Ho. apply Hno.
      apply (occursIn_suffix l (String c EmptyString) t Ho).
Qed.

(** A text in which a literal of the pattern does not occur has no match,
    and a replacement leaves it as it is. *)
Lemma no_literal_no_match (r : regex) (f : Replacer) (l : string) (s : string) :
  In l (Kinds.literals r) -> ~ occursIn l s ->
  exec r s = None /\ test r s = false /\ replaceAll r f s = s.
Proof.
  intros Hin Hno.
  assert (He : exec r s = None) by now apply (execFrom_literals r l).
  assert (Ht : test r s = false) by (unfold test; now rewrite He).
  split; [exact He|]. split; [exact Ht|]. now apply replaceAll_no_match.
Qed.

End Literals.

(** ** Files that the flattening leaves as they are *)

Section Untouched.

(** X1: the two replacements that [createCompiledMacro] applies to each
    file it reads, in the macro debugger and in the viewer, leave a file as
    it is when the file holds neither the word MAIN nor the text
    [#include]. *)
Theorem files_without_entry_point_untouched (text : string) :
  ~ occursIn "MAIN" text -> ~ occursIn "#include" text ->
  Debugger.stripFile text = text /\ Viewer.stripFile text = text.
Proof.
  intros Hmain Hinclude.
  unfold Debugger.stripFile, Viewer.stripFile.
  destruct (no_literal_no_match Debugger.mainRegex (template EmptyString) "MAIN" text)
    as (_ & _ & ->); [cbn; tauto|exact Hmain|].
  destruct (no_literal_no_match Viewer.mainRegex (template EmptyString) "MAIN" text)
    as (_ & _ & ->); [cbn; tauto|exact Hmain|].
  destruct (no_literal_no_match Debugger.includeRegex (template EmptyString)
              "#include" text) as (_ & _ & ->); [cbn; tauto|exact Hinclude|].
  destruct (no_literal_no_match Viewer.includeRegex (template EmptyString)
              "#include" text) as (_ & _ & ->); [cbn; tauto|exact Hinclude|].
  split; reflexivity.
Qed.

Lemma files_without_entry_point_untouched_witness :
  let text := "#define macro ADD() = takes(2) returns (1) {" +:+ LF
              +:+ "  add" +:+ LF +:+ "}" in
  Debugger.stripFile text = text /\ Viewer.stripFile text = text.
Proof.
  cbv zeta.
  apply (files_without_entry_point_untouched
           ("#define macro ADD() = takes(2) returns (1) {" +:+ LF
            +:+ "  add" +:+ LF +:+ "}"));
    apply not_occursIn; vm_compute; reflexivity.
Defined.

End Untouched.

(** ** The digest and the address of the function debugger *)

Section Digest.

Lemma length_round (a : list N) (rc : N) : List.length (Keccak.round a rc) = 25%nat.
Proof.
  unfold Keccak.round, Keccak.iota.
  destruct (Keccak.chi (Keccak.rhoPi (Keccak.theta a))) as [|a0 rest] eqn:H;
    apply (f_equal (@List.length N)) in H;
    unfold Keccak.chi in H; rewrite length_map in H; simpl in H.
  - discriminate.
  - simpl. exact (eq_sym H).
Qed.

Lemma length_rounds (rcs : list N) (a : list N) :
  rcs <> [] -> List.length (fold_left Keccak.round rcs a) = 25%nat.
Proof.
  revert a. induction rcs as [|rc rcs IH]; intros a Hne; [congruence|].
  simpl. destruct rcs as [|rc' rcs'].
  - apply length_round.
  - apply IH. discriminate.
Qed.

Lemma length_absorb (st block : list N) : List.length (Keccak.absorb st block) = 25%nat.
Proof. unfold Keccak.absorb, Keccak.keccakF. apply length_rounds. discriminate. Qed.

Lemma length_absorbed (blocks : list (list N)) (st : list N) :
  List.length st = 25%nat ->
  List.length (fold_left Keccak.absorb blocks st) = 25%nat.
Proof.
  revert st. induction blocks as [|b blocks IH]; intros st H; [exact H|].
  simpl. apply IH, length_absorb.
Qed.

Lemma length_bytesOfLane (n : nat) (w : N) : List.length (Keccak.bytesOfLane n w) = n.
Proof. revert w. induction n as [|n IH]; intros w; simpl; [reflexivity|now rewrite IH]. Qed.

Lemma bytesOfLane_bytes (n : nat) (w : N) :
  Forall (fun b => b < 256) (Keccak.bytesOfLane n w).
Proof.
  revert w. induction n as [|n IH]; intros w; simpl; constructor.
  - apply N.mod_lt. discriminate.
  - apply IH.
Qed.

Lemma length_lanes_bytes (st : list N) :
  List.length (flat_map (Keccak.bytesOfLane 8) st) = (8 * List.length st)%nat.
Proof.
  induction st as [|w st IH]; [reflexivity|].
  cbn [flat_map]. rewrite length_app, length_bytesOfLane, IH. simpl. lia.
Qed.

Lemma lanes_bytes (st : list N) :
  Forall (fun b => b < 256) (flat_map (Keccak.bytesOfLane 8) st).
Proof.
  induction st as [|w st IH]; [constructor|].
  cbn [flat_map]. apply Forall_app. split; [apply bytesOfLane_bytes|exact IH].
Qed.

(** The digest has 32 bytes, whatever the message. *)
Lemma keccak256_digest (msg : list N) :
  List.length (Keccak.keccak256 msg) = 32%nat /\
  Forall (fun b => b < 256) (Keccak.keccak256 msg).
Proof.
  unfold Keccak.keccak256. cbv zeta.
  set (st := fold_left Keccak.absorb _ _).
  assert (Hst : List.length st = 25%nat) by (apply length_absorbed; reflexivity).
  split.
  - rewrite length_firstn, length_lanes_bytes, Hst. reflexivity.
  - apply Forall_take, lanes_bytes.
Qed.

Lemma length_hex (bs : list N) : String.length (Keccak.hex bs) = (2 * List.length bs)%nat.
Proof. induction bs as [|b bs IH]; [reflexivity|]. simpl. rewrite IH. lia. Qed.

Lemma hexDigit_hex (n : N) : n < 16 -> Texts.isHexDigit (Keccak.hexDigit n) = true.
Proof.
  intros H. destruct n as [|p]; [reflexivity|].
  do 4 (destruct p as [p|p|]; try reflexivity); lia.
Qed.

Lemma hex_digits (bs : list N) :
  Forall (fun b => b < 256) bs -> allChars Texts.isHexDigit (Keccak.hex bs) = true.
Proof.
  induction 1 as [|b bs Hb _ IH]; [reflexivity|].
  cbn [Keccak.hex allChars]. rewrite IH, !hexDigit_hex; [reflexivity| |].
  - apply N.mod_lt. discriminate.
  - apply N.Div0.div_lt_upper_bound. exact Hb.
Qed.

Lemma length_sliceTo (n : nat) (s : string) :
  (n <= String.length s)%nat -> String.length (sliceTo n s) = n.
Proof.
  revert s. induction n as [|n IH]; intros s H; [reflexivity|].
  destruct s as [|c t]; simpl in *; [lia|]. rewrite IH; [reflexivity|lia].
Qed.

Lemma allChars_sliceTo (p : ascii -> bool) (n : nat) (s : string) :
  allChars p s = true -> allChars p (sliceTo n s) = true.
Proof.
  revert s. induction n as [|n IH]; intros s H; [reflexivity|].
  destruct s as [|c t]; [reflexivity|]. simpl in *.
  apply andb_true_iff in H as [Hc Ht]. now rewrite Hc, IH.
Qed.

(** X2: the contract address of the function debugger has 42 lower-case
    hexadecimal digits, 21 bytes, whatever the path of the current file,
    and so never starts with 0x. *)
Theorem function_debugger_address_digits (currentFile : string) :
  let address := FunctionSession.hevmContractAddress currentFile in
  String.length address = 42%nat /\
  allChars Texts.isHexDigit address = true /\
  stripPrefix "0x" address = None.
Proof.
  cbv zeta. unfold FunctionSession.hevmContractAddress.
  destruct (keccak256_digest (Keccak.bufferFrom currentFile)) as [Hlen Hbytes].
  set (digest := Keccak.keccak256 _) in *.
  assert (H42 : String.length (sliceTo 42 (Keccak.hex digest)) = 42%nat).
  { apply length_sliceTo. rewrite length_hex, Hlen. lia. }
  assert (Hhex : allChars Texts.isHexDigit (sliceTo 42 (Keccak.hex digest)) = true).
  { apply allChars_sliceTo, hex_digits, Hbytes. }
  split; [exact H42|]. split; [exact Hhex|].
  destruct (sliceTo 42 (Keccak.hex digest)) as [|c [|d t]]; try discriminate.
  cbn [allChars] in Hhex. apply andb_true_iff in Hhex as [_ Hd].
  apply andb_true_iff in Hd as [Hd _].
  cbn [stripPrefix]. destruct (Ascii.eqb "0" c); [|reflexivity].
  destruct (Ascii.eqb "x" d) eqn:Hx; [|reflexivity].
  apply Ascii.eqb_eq in Hx. subst d. discriminate.
Qed.

End Digest.

(** ** The calldata of the function debugger *)

Section Calldata.
Variable abiEncode : list string -> list string -> Outcome string.
Variable functionSelector : FunctionSession.Selector.
Variable argsObject : list (string * string).

Lemma encodeCalldata_spec (st : State) :
  FunctionSession.encodeCalldata abiEncode functionSelector argsObject st
  = ({| heap := heap st;
        trace := trace st ++ ConsoleLog "Preparing debugger calldata..."
                   :: FunctionShape.registered abiEncode functionSelector argsObject |},
     Ok (FunctionShape.calldataOf abiEncode functionSelector argsObject)).
Proof.
  unfold FunctionShape.registered, FunctionShape.calldataOf,
    FunctionSession.encodeCalldata, bind, tryCatch, emit, lift, ret.
  cbn [trace heap Example.emptyState app fst snd].
  destruct (List.length argsObject =? 0)%nat; [reflexivity|].
  destruct (abiEncode (map fst argsObject) (map snd argsObject)) as [encoded|e];
    cbn [trace heap fst snd tail]; rewrite <- ?app_assoc; reflexivity.
Qed.

(** X3: [encodeCalldata] never throws and leaves the arrays alone. It
    returns a calldata text that starts with 0x and registers nothing; or,
    exactly when there are arguments and the encoder throws, it registers
    the encoder's error, with the error's text in the message, and returns
    undefined. *)
Theorem encodeCalldata_never_throws (st : State) :
  let result :=
    FunctionSession.encodeCalldata abiEncode functionSelector argsObject st in
  heap (fst result) = heap st /\
  ((exists calldata,
      snd result = Ok (VString ("0x" +:+ calldata)) /\
      newEvents st (fst result) = [ConsoleLog "Preparing debugger calldata..."] /\
      (argsObject = [] \/
       exists encoded,
         abiEncode (map fst argsObject) (map snd argsObject) = Ok encoded)) \/
   (exists e,
      snd result = Ok VUndefined /\
      newEvents st (fst result)
      = [ConsoleLog "Preparing debugger calldata...";
         RegisterError e ("Compilation failed" +:+ LF +:+ "See" +:+ LF
                          +:+ FunctionSession.errorToString e)] /\
      argsObject <> [] /\
      abiEncode (map fst argsObject) (map snd argsObject) = Throw e)).
Proof.
  cbv zeta.
  unfold FunctionSession.encodeCalldata, bind, tryCatch, emit, lift, ret.
  cbn [fst snd heap trace].
  destruct argsObject as [|arg rest] eqn:Hargs.
  - cbn [List.length Nat.eqb fst snd heap]. split; [reflexivity|]. left.
    eexists. split; [reflexivity|]. split; [|now left].
    now apply newEvents_app.
  - cbn [List.length Nat.eqb]. rewrite <- Hargs.
    destruct (abiEncode (map fst argsObject) (map snd argsObject)) as [encoded|e];
      cbn [fst snd heap trace]; (split; [reflexivity|]).
    + left. eexists. split; [reflexivity|]. split; [now apply newEvents_app|].
      right. now exists encoded.
    + right. exists e. split; [reflexivity|]. split.
      * apply newEvents_app. cbn [trace]. now rewrite <- app_assoc.
      * split; [rewrite Hargs; discriminate|reflexivity].
Qed.

End Calldata.

(** ** Sessions of the function debugger *)

Section FunctionSessions.
Variable h : Host.
Variable abiEncode : list string -> list string -> Outcome string.

Lemma steady_flattenFile (cwd currentFile : string) (imports : list string) :
  steady (FunctionDebugger.flattenFile h cwd currentFile imports).
Proof.
  unfold FunctionDebugger.flattenFile.
  apply steady_bind; [apply steady_read|]. intros current.
  apply steady_bind.
  { apply steady_mapM. intros p.
    apply steady_bind; [apply steady_read|intros; apply steady_ret]. }
  intros others. apply steady_ret.
Qed.

Lemma flattenFile_first_read (cwd currentFile : string) (imports : list string)
    (st : State) :
  exists rest,
    trace (fst (FunctionDebugger.flattenFile h cwd currentFile imports st))
    = trace st
      ++ ReadFileSync (cwd +:+ "/" +:+ currentFile)
           (readFileSync h (trace st) (cwd +:+ "/" +:+ currentFile)) :: rest.
Proof.
  unfold FunctionDebugger.flattenFile. rewrite bind_call.
  destruct (readFileSync h (trace st) (cwd +:+ "/" +:+ currentFile)) as [current|e].
  - match goal with
    | |- context [bind ?m ?f ?s] =>
        assert (Hs : steady (bind m f));
        [|destruct (Hs s) as (evs & Ht & _); exists evs; rewrite Ht]
    end.
    + apply steady_bind.
      * apply steady_mapM. intros p.
        apply steady_bind; [apply steady_read|intros; apply steady_ret].
      * intros others. apply steady_ret.
    + cbn [trace]. now rewrite <- app_assoc.
  - exists []. reflexivity.
Qed.

Lemma function_pipeline_run cwd currentFile imports functionSelector argsArray
    options config st :
  let result :=
    FunctionSession.pipeline h abiEncode cwd currentFile imports functionSelector
      argsArray options config st in
  let calldata := FunctionShape.calldataOf abiEncode functionSelector argsArray in
  exists evs,
    trace (fst result)
    = trace st ++ ConsoleLog "Preparing debugger calldata..."
        :: FunctionShape.registered abiEncode functionSelector argsArray ++ evs /\
    heap (fst result) = heap st /\
    (exists answer rest,
       evs = ReadFileSync (cwd +:+ "/" +:+ currentFile) answer :: rest) /\
    FunctionShape.run config cwd
      (fun runtime => FunctionSession.hevmCommand runtime calldata config cwd)
      (craftTerminalCommand h cwd config) evs (snd result).
Proof.
  cbv zeta. unfold FunctionSession.pipeline.
  rewrite (bind_Ok_eq _ _ _ _ _ (encodeCalldata_spec abiEncode functionSelector argsArray st)).
  set (st0 := {| heap := heap st; trace := _ |}).
  set (calldata := FunctionShape.calldataOf abiEncode functionSelector argsArray).
  pose proof (steady_flattenFile cwd currentFile imports st0) as (evs0 & Ht0 & Hr0).
  assert (Hfirst : forall tl : list Event, exists answer rest,
             evs0 ++ tl = ReadFileSync (cwd +:+ "/" +:+ currentFile) answer :: rest).
  { destruct (flattenFile_first_read cwd currentFile imports st0) as (rest & Hf).
    rewrite Ht0 in Hf. apply app_inv_head in Hf. subst evs0.
    intros tl. eexists _, _. reflexivity. }
  assert (Hheap : forall st1 r,
             FunctionDebugger.flattenFile h cwd currentFile imports st0 = (st1, r) ->
             heap st1 = heap st).
  { assert (Hread : forall p sa sb (r0 : Outcome string),
               (text <- call (fun tr => readFileSync h tr p) (ReadFileSync p) ;;
                ret (replaceAll FunctionDebugger.mainRegex (template EmptyString) text))
                 sa = (sb, r0) -> heap sb = heap sa).
    { intros p sa sb r0 Hp. rewrite bind_call in Hp.
      destruct (readFileSync h (trace sa) p); inversion Hp; reflexivity. }
    intros st1 r H. unfold FunctionDebugger.flattenFile in H.
    rewrite bind_call in H.
    destruct (readFileSync h (trace st0) _) as [current|e]; [|now inversion H].
    apply bind_inv in H as [(st2 & others & H1 & H2)|(e & H1 & _)].
    - inversion H2; subst.
      now apply (mapM_call_heap h _ Hread) in H1.
    - now apply (mapM_call_heap h _ Hread) in H1. }
  destruct (FunctionDebugger.flattenFile h cwd currentFile imports st0)
    as [st1 [text|e]] eqn:Hflat; cbn [fst snd] in Ht0, Hr0.
  2:{ rewrite (bind_Throw_eq _ _ _ _ _ Hflat).
      exists evs0. cbn [fst snd]. rewrite Ht0. subst st0. cbn [trace fst snd].
      rewrite <- app_assoc. split; [reflexivity|].
      split; [exact (Hheap _ _ eq_refl)|].
      split; [rewrite <- (app_nil_r evs0); apply Hfirst|now apply FunctionShape.aborts]. }
  pose proof (Hheap _ _ eq_refl) as Hh1.
  rewrite (bind_Ok_eq _ _ _ _ _ Hflat), bind_call.
  destruct (compileFromFile h (trace st1) text (get config "tempMacroFilename") cwd)
    as [bytecode|e].
  2:{ cbn [fst snd trace heap].
      exists (evs0 ++ [CompileFromFile text (get config "tempMacroFilename") cwd (Throw e)]).
      rewrite Ht0. subst st0. cbn [trace]. rewrite <- !app_assoc.
      split; [reflexivity|]. split; [exact Hh1|]. split; [apply Hfirst|].
      apply FunctionShape.aborts, stopped_app; [exact Hr0|].
      split; [reflexivity|]. intros x [<-|[]] _. reflexivity. }
  set (evs1 := evs0 ++ [CompileFromFile text (get config "tempMacroFilename") cwd (Ok bytecode)]).
  assert (Hr : calm evs1).
  { apply calm_app; [exact Hr0|]. split; reflexivity. }
  assert (Ht : trace st1 ++ [CompileFromFile text (get config "tempMacroFilename") cwd (Ok bytecode)]
               = trace st0 ++ evs1).
  { subst evs1. now rewrite Ht0, <- app_assoc. }
  rewrite bind_call. cbn [trace heap].
  match goal with
  | |- context [deployContract h ?tr bytecode config cwd] =>
      destruct (deployContract h tr bytecode config cwd) as [runtime|e]
  end.
  2:{ cbn [fst snd trace heap].
      exists (evs1 ++ [DeployContract bytecode config cwd (Throw e)]).
      rewrite Ht. subst st0. cbn [trace]. rewrite <- !app_assoc.
      split; [reflexivity|]. split; [exact Hh1|]. split; [unfold evs1; rewrite <- ?app_assoc; apply Hfirst|].
      now apply FunctionShape.deployment_fails. }
  unfold FunctionSession.runDebugger, bind, call, emit, ret. cbn [trace heap fst snd].
  match goal with
  | |- context [writeHevmCommand h ?tr ?c ?f ?d] =>
      destruct (writeHevmCommand h tr c f d) as [[]|e]
  end; cbn [fst snd trace heap].
  - eexists. rewrite Ht. subst st0. cbn [trace]. rewrite <- !app_assoc.
    split; [reflexivity|]. split; [exact Hh1|]. split; [unfold evs1; rewrite <- ?app_assoc; apply Hfirst|].
    exact (FunctionShape.launches config cwd
             (fun runtime => FunctionSession.hevmCommand runtime calldata config cwd)
             (craftTerminalCommand h cwd config) evs1 bytecode runtime Hr).
  - eexists. rewrite Ht. subst st0. cbn [trace]. rewrite <- !app_assoc.
    split; [reflexivity|]. split; [exact Hh1|]. split; [unfold evs1; rewrite <- ?app_assoc; apply Hfirst|].
    exact (FunctionShape.writing_fails config cwd
             (fun runtime => FunctionSession.hevmCommand runtime calldata config cwd)
             (craftTerminalCommand h cwd config) evs1 bytecode runtime e Hr).
Qed.

(** Every session of the function debugger has the shape
    [FunctionShape.session], and leaves the arrays alone. *)
Lemma function_session sourceDirectory currentFile imports functionSelector
    argsArray options st :
  let result :=
    FunctionSession.startDebugger h abiEncode sourceDirectory currentFile imports
      functionSelector argsArray options st in
  let cwd := FunctionSession.workingDirectory h sourceDirectory in
  let config :=
    FunctionSession.sessionConfig h options
      (FunctionSession.mountedDriveOf h sourceDirectory) currentFile in
  let calldata := FunctionShape.calldataOf abiEncode functionSelector argsArray in
  FunctionShape.session config cwd
    (fun runtime => FunctionSession.hevmCommand runtime calldata config cwd)
    (craftTerminalCommand h cwd config)
    (checkInstallations h (trace st))
    (FunctionShape.registered abiEncode functionSelector argsArray)
    (newEvents st (fst result)) (snd result) /\
  heap (fst result) = heap st /\
  (snd (checkInstallations h (trace st)) = true ->
   exists answer rest,
     newEvents st (fst result)
     = map ShowErrorMessage (fst (checkInstallations h (trace st)))
       ++ ConsoleLog "Preparing debugger calldata..."
          :: FunctionShape.registered abiEncode functionSelector argsArray
       ++ ReadFileSync (cwd +:+ "/" +:+ currentFile) answer :: rest).
Proof.
  cbv zeta. unfold FunctionSession.startDebugger, FunctionShape.session, tryCatch.
  destruct (checkInstallations h (trace st)) as [msgs installed].
  destruct installed; cbn [negb fst snd].
  2:{ split; [|split; [reflexivity|discriminate]].
      split; [|reflexivity]. now apply newEvents_app. }
  set (st0 := {| heap := heap st; trace := trace st ++ map ShowErrorMessage msgs |}).
  destruct (function_pipeline_run (FunctionSession.workingDirectory h sourceDirectory)
              currentFile imports functionSelector argsArray options
              (FunctionSession.sessionConfig h options
                 (FunctionSession.mountedDriveOf h sourceDirectory) currentFile) st0)
    as (evs & Ht & Hh & (answer & rest & Hfirst) & Hrun).
  destruct (FunctionSession.pipeline _ _ _ _ _ _ _ _ _ st0) as [st1 [c|e]];
    cbn [fst snd] in Ht, Hh, Hrun.
  - assert (Hnew : newEvents st st1
                   = map ShowErrorMessage msgs
                     ++ ConsoleLog "Preparing debugger calldata..."
                        :: FunctionShape.registered abiEncode functionSelector argsArray
                     ++ evs ++ handled FunctionSession.errorMessage (Ok c)).
    { apply newEvents_app. rewrite Ht. subst st0. cbn [trace handled].
      now rewrite app_nil_r, <- app_assoc. }
    cbn [fst snd]. split; [|split; [exact Hh|]].
    + exists evs, (Ok c). split; [exact Hrun|]. now split.
    + intros _. exists answer, rest. rewrite Hnew, Hfirst. cbn [handled].
      now rewrite app_nil_r.
  - unfold bind, emit, ret. cbn [fst snd heap trace].
    assert (Hnew : newEvents st
                     {| heap := heap st1;
                        trace := trace st1 ++ [RegisterError e FunctionSession.errorMessage] |}
                   = map ShowErrorMessage msgs
                     ++ ConsoleLog "Preparing debugger calldata..."
                        :: FunctionShape.registered abiEncode functionSelector argsArray
                     ++ evs ++ handled FunctionSession.errorMessage (Throw e)).
    { apply newEvents_app. cbn [trace handled]. rewrite Ht. subst st0. cbn [trace].
      rewrite <- !app_assoc. cbn [app]. now rewrite <- !app_assoc. }
    split; [|split; [exact Hh|]].
    + exists evs, (Throw e). split; [exact Hrun|]. now split.
    + intros _. exists answer, (rest ++ [RegisterError e FunctionSession.errorMessage]).
      rewrite Hnew, Hfirst. reflexivity.
Qed.


(** What [encodeCalldata] registers: nothing, or the encoder's error. *)
Lemma registered_cases functionSelector (argsArray : list (string * string)) :
  (FunctionShape.registered abiEncode functionSelector argsArray = [] /\
   FunctionShape.calldataOf abiEncode functionSelector argsArray <> VUndefined) \/
  (exists e,
     FunctionShape.registered abiEncode functionSelector argsArray
     = [RegisterError e (FunctionSession.encodingMessage e)] /\
     FunctionShape.calldataOf abiEncode functionSelector argsArray = VUndefined /\
     argsArray <> [] /\
     abiEncode (map fst argsArray) (map snd argsArray) = Throw e).
Proof.
  unfold FunctionShape.registered, FunctionShape.calldataOf,
    FunctionSession.encodeCalldata, bind, tryCatch, emit, lift, ret.
  cbn [trace heap Example.emptyState app fst snd].
  destruct argsArray as [|arg rest] eqn:Hargs.
  - left. cbn. split; [reflexivity|discriminate].
  - cbn [List.length Nat.eqb]. rewrite <- Hargs.
    destruct (abiEncode (map fst argsArray) (map snd argsArray)) as [encoded|e].
    + left. cbn. split; [reflexivity|discriminate].
    + right. exists e. cbn. repeat split. rewrite Hargs. discriminate.
Qed.

Lemma registered_projections functionSelector (argsArray : list (string * string)) :
  let regs := FunctionShape.registered abiEncode functionSelector argsArray in
  existsb isRun regs = false /\ deployAnswers regs = [] /\
  commandsWritten regs = [] /\
  forall x, In x regs -> isRegisterError x = true.
Proof.
  cbv zeta.
  destruct (registered_cases functionSelector argsArray) as [[-> _]|(e & -> & _)];
    cbn; repeat split; try tauto.
  intros x [<-|[]]. reflexivity.
Qed.

Section FunctionRunFacts.
Variable config : gmap string JsValue.
Variable cwd : string.
Variable command : string -> string.
Variable terminal : string.

(** A run that threw ran nothing in the terminal; a run that returned ends
    with the debug command written and the terminal command run. *)
Lemma function_run_ends (evs : list Event) (r : Outcome Completion) :
  FunctionShape.run config cwd command terminal evs r ->
  match r with
  | Throw _ => existsb isRun evs = false
  | Ok c =>
      c = ReturnedUndefined /\
      exists pre runtime,
        existsb isRun pre = false /\
        evs = pre ++ [FunctionShape.written config cwd command runtime (Ok tt);
                      RunInUserTerminal terminal]
  end.
Proof.
  intros Hrun. destruct Hrun as
    [pre e [Hq Hs] | pre bytecode e [Hq Hc]
    | pre bytecode runtime e [Hq Hc]
    | pre bytecode runtime [Hq Hc]];
    destruct (quiet_no_launch pre Hq) as (H1 & _).
  - exact H1.
  - now rewrite existsb_app, H1.
  - now rewrite existsb_app, H1.
  - split; [reflexivity|].
    exists (pre ++ [DeployContract bytecode config cwd (Ok runtime);
                    ConsoleLog "Entering debugger..."]), runtime.
    split; [now rewrite existsb_app, H1|]. now rewrite <- app_assoc.
Qed.

(** A run deploys at most once, with the configuration and in the
    directory of the session; what it writes is the debug command for the
    runtime byte code that its deployment answered. *)
Lemma function_run_deploys (evs : list Event) (r : Outcome Completion) :
  FunctionShape.run config cwd command terminal evs r ->
  (List.length (deployAnswers evs) <= 1)%nat /\
  (forall bytecode c d answer,
     In (DeployContract bytecode c d answer) evs -> c = config /\ d = cwd) /\
  (forall cmd filename d answer,
     In (WriteHevmCommand cmd filename d answer) evs ->
     exists bytecode runtime,
       In (DeployContract bytecode config cwd (Ok runtime)) evs /\
       cmd = command runtime /\ filename = get config "tempHevmCommandFilename" /\
       d = cwd).
Proof.
  assert (Hquiet : forall pre, forallb quiet pre = true ->
            deployAnswers pre = [] /\
            (forall bytecode c d answer, ~ In (DeployContract bytecode c d answer) pre) /\
            (forall cmd filename d answer, ~ In (WriteHevmCommand cmd filename d answer) pre)).
  { induction pre as [|x pre IH]; [cbn; auto|].
    cbn [forallb]. intros H. apply andb_prop in H as [Hx Hpre].
    destruct (IH Hpre) as (H1 & H2 & H3).
    split; [|split].
    - unfold deployAnswers in *. cbn [flat_map]. rewrite H1.
      destruct x; try discriminate; reflexivity.
    - intros bytecode c d answer [->|Hin]; [discriminate|]. now apply H2 in Hin.
    - intros cmd filename d answer [->|Hin]; [discriminate|]. now apply H3 in Hin. }
  intros Hrun. destruct Hrun as
    [pre e [Hq Hs] | pre bytecode e [Hq Hc]
    | pre bytecode runtime e [Hq Hc]
    | pre bytecode runtime [Hq Hc]];
    destruct (Hquiet pre Hq) as (H1 & H2 & H3);
    unfold deployAnswers, FunctionShape.written in *; rewrite ?flat_map_app, ?H1;
    cbn [flat_map app List.length].
  - split; [lia|]. split.
    + intros bytecode c d answer Hin. now apply H2 in Hin.
    + intros cmd filename d answer Hin. now apply H3 in Hin.
  - split; [lia|]. split.
    + intros b c d answer Hin. apply in_app_or in Hin as [Hin|[Hin|[]]].
      * now apply H2 in Hin.
      * inversion Hin. auto.
    + intros cmd filename d answer Hin. apply in_app_or in Hin as [Hin|[Hin|[]]].
      * now apply H3 in Hin.
      * discriminate.
  - split; [lia|]. split.
    + intros b c d answer Hin. apply in_app_or in Hin as [Hin|[Hin|[Hin|[Hin|[]]]]].
      * now apply H2 in Hin.
      * inversion Hin. auto.
      * discriminate.
      * discriminate.
    + intros cmd filename d answer Hin.
      apply in_app_or in Hin as [Hin|[Hin|[Hin|[Hin|[]]]]].
      * now apply H3 in Hin.
      * discriminate.
      * discriminate.
      * inversion Hin. subst.
        exists bytecode, runtime. repeat split. apply in_or_app. right. now left.
  - split; [lia|]. split.
    + intros b c d answer Hin.
      apply in_app_or in Hin as [Hin|[Hin|[Hin|[Hin|[Hin|[]]]]]].
      * now apply H2 in Hin.
      * inversion Hin. auto.
      * discriminate.
      * discriminate.
      * discriminate.
    + intros cmd filename d answer Hin.
      apply in_app_or in Hin as [Hin|[Hin|[Hin|[Hin|[Hin|[]]]]]].
      * now apply H3 in Hin.
      * discriminate.
      * discriminate.
      * inversion Hin. subst.
        exists bytecode, runtime. repeat split. apply in_or_app. right. now left.
      * discriminate.
Qed.

End FunctionRunFacts.

End FunctionSessions.

(** ** What every session of the function debugger does *)

Section FunctionDebugging.
Variable h : Host.
Variable abiEncode : list string -> list string -> Outcome string.
Variables sourceDirectory currentFile : string.
Variable imports : list string.
Variable functionSelector : FunctionSession.Selector.
Variable argsArray : list (string * string).
Variable options : gmap string JsValue.
Variable st : State.

Local Abbreviation result :=
  (FunctionSession.startDebugger h abiEncode sourceDirectory currentFile imports
     functionSelector argsArray options st).
Local Abbreviation new := (newEvents st (fst result)).
Local Abbreviation cwd := (FunctionSession.workingDirectory h sourceDirectory).
Local Abbreviation config :=
  (FunctionSession.sessionConfig h options
     (FunctionSession.mountedDriveOf h sourceDirectory) currentFile).
Local Abbreviation calldata :=
  (FunctionShape.calldataOf abiEncode functionSelector argsArray).
Local Abbreviation check := (checkInstallations h (trace st)).

Lemma existsb_isRun_shown (msgs : list string) :
  existsb isRun (map ShowErrorMessage msgs) = false.
Proof. induction msgs as [|m msgs IH]; [reflexivity|exact IH]. Qed.

(** X4: a session of the function debugger never throws and leaves the
    arrays alone. Without the tools it shows the messages of the check and
    returns undefined. With them, either it returns undefined and its last
    two events are the debug command written and the terminal command run,
    the only one of the session; or it returns null, has run nothing in the
    terminal, and its last event registers the error with the message of
    [startDebugger]. *)
Theorem function_session_all_or_nothing :
  heap (fst result) = heap st /\
  if snd check then
    (snd result = Ok ReturnedUndefined /\
     exists pre runtime,
       existsb isRun pre = false /\
       new = pre ++ [WriteHevmCommand
                       (FunctionSession.hevmCommand runtime calldata config cwd)
                       (get config "tempHevmCommandFilename") cwd (Ok tt);
                     RunInUserTerminal (craftTerminalCommand h cwd config)]) \/
    (snd result = Ok ReturnedNull /\
     existsb isRun new = false /\
     exists pre e, new = pre ++ [RegisterError e FunctionSession.errorMessage])
  else
    snd result = Ok ReturnedUndefined /\ new = map ShowErrorMessage (fst check).
Proof.
  destruct (function_session h abiEncode sourceDirectory currentFile imports
              functionSelector argsArray options st) as (Hs & Hh & _).
  split; [exact Hh|]. unfold FunctionShape.session in Hs.
  destruct (snd check); [|tauto].
  destruct Hs as (evs & r & Hrun & Hnew & Hres).
  destruct (registered_projections abiEncode functionSelector argsArray)
    as (Hr1 & _).
  apply function_run_ends in Hrun. destruct r as [c|e].
  - left. destruct Hrun as (-> & pre & runtime & Hpre & ->).
    split; [exact Hres|].
    exists (map ShowErrorMessage (fst check)
            ++ ConsoleLog "Preparing debugger calldata..."
               :: FunctionShape.registered abiEncode functionSelector argsArray ++ pre),
      runtime.
    split.
    + rewrite existsb_app, existsb_isRun_shown. cbn [existsb isRun orb].
      now rewrite existsb_app, Hr1, Hpre.
    + rewrite Hnew. cbn [handled]. rewrite app_nil_r, <- !app_assoc. cbn [app].
      now rewrite <- !app_assoc.
  - right. split; [exact Hres|]. split.
    + rewrite Hnew, existsb_app, existsb_isRun_shown. cbn [existsb isRun orb].
      rewrite !existsb_app, Hr1, Hrun. reflexivity.
    + exists (map ShowErrorMessage (fst check)
              ++ ConsoleLog "Preparing debugger calldata..."
                 :: FunctionShape.registered abiEncode functionSelector argsArray ++ evs), e.
      rewrite Hnew. cbn [handled]. rewrite <- !app_assoc. cbn [app].
      now rewrite <- !app_assoc.
Qed.

Lemma sessionConfig_fields :
  get config "stateChecked" = VBool true /\
  get config "hevmContractAddress"
  = VString (FunctionSession.hevmContractAddress currentFile) /\
  get config "mountedDrive" = FunctionSession.mountedDriveOf h sourceDirectory.
Proof.
  unfold get, FunctionSession.sessionConfig. split; [|split].
  - rewrite lookup_insert_ne by discriminate. now rewrite lookup_insert_eq.
  - rewrite !lookup_insert_ne by discriminate. now rewrite lookup_insert_eq.
  - now rewrite lookup_insert_eq.
Qed.

Lemma In_shown (msgs : list string) (x : Event) :
  In x (map ShowErrorMessage msgs) -> exists m, x = ShowErrorMessage m.
Proof. intros H. apply in_map_iff in H as (m & <- & _). now exists m. Qed.

(** The deployments and the commands of a session. *)
Lemma function_session_events :
  (List.length (deployAnswers new) <= 1)%nat /\
  (forall bytecode c d answer,
     In (DeployContract bytecode c d answer) new -> c = config /\ d = cwd) /\
  (forall command filename d answer,
     In (WriteHevmCommand command filename d answer) new ->
     exists bytecode runtime,
       In (DeployContract bytecode config cwd (Ok runtime)) new /\
       command = FunctionSession.hevmCommand runtime calldata config cwd).
Proof.
  destruct (function_session h abiEncode sourceDirectory currentFile imports
              functionSelector argsArray options st) as [Hs _].
  unfold FunctionShape.session in Hs.
  assert (Hshown : forall msgs, deployAnswers (map ShowErrorMessage msgs) = []).
  { induction msgs as [|m msgs IH]; [reflexivity|exact IH]. }
  destruct (snd check).
  2:{ destruct Hs as [-> _]. rewrite Hshown. split; [cbn; lia|].
      split; intros; match goal with H : In _ _ |- _ =>
        apply In_shown in H as (m & Hm); discriminate end. }
  destruct Hs as (evs & r & Hrun & Hnew & _).
  destruct (registered_projections abiEncode functionSelector argsArray)
    as (_ & Hr2 & _ & Hr4).
  destruct (function_run_deploys _ _ _ _ _ _ Hrun) as (Hd1 & Hd2 & Hd3).
  assert (Hin : forall x, In x new -> isDeploy x = true \/ isWrite x = true -> In x evs).
  { intros x Hx Hk. rewrite Hnew in Hx.
    apply in_app_or in Hx as [Hx|Hx].
    { apply In_shown in Hx as (m & ->). destruct Hk; discriminate. }
    destruct Hx as [<-|Hx]; [destruct Hk; discriminate|].
    apply in_app_or in Hx as [Hx|Hx].
    { apply Hr4 in Hx. destruct x; destruct Hk; discriminate. }
    apply in_app_or in Hx as [Hx|Hx]; [exact Hx|].
    destruct r; [destruct Hx|]. destruct Hx as [<-|[]]. destruct Hk; discriminate. }
  assert (Hsub : forall x, In x evs -> In x new).
  { intros x Hx. rewrite Hnew. apply in_or_app. right. right.
    apply in_or_app. right. apply in_or_app. now left. }
  split.
  { assert (Happ : forall a b, deployAnswers (a ++ b) = deployAnswers a ++ deployAnswers b).
    { intros a b. unfold deployAnswers. apply flat_map_app. }
    rewrite Hnew, Happ, Hshown.
    change (deployAnswers (ConsoleLog "Preparing debugger calldata..."
              :: FunctionShape.registered abiEncode functionSelector argsArray
                 ++ evs ++ handled FunctionSession.errorMessage r))
      with (deployAnswers (FunctionShape.registered abiEncode functionSelector argsArray
                           ++ evs ++ handled FunctionSession.errorMessage r)).
    rewrite !Happ, Hr2. cbn [app].
    destruct r; cbn; rewrite app_nil_r; exact Hd1. }
  split.
  - intros bytecode c d answer Hx. apply Hin in Hx; [|now left]. eauto.
  - intros command filename d answer Hx. apply Hin in Hx; [|now right].
    apply Hd3 in Hx as (bytecode & runtime & Hdep & -> & _).
    exists bytecode, runtime. split; [now apply Hsub|reflexivity].
Qed.

(** X5: whatever the options say, a session of the function debugger
    deploys with [stateChecked] set and with the address computed from the
    path of the current file; it deploys at most once, and always with the
    configuration and in the working directory of the session. Every
    command it writes is the debug command for the runtime byte code that
    this deployment answered, with the calldata of [encodeCalldata], and
    has a [--state] clause with the state file. *)
Theorem function_session_debug_command :
  get config "stateChecked" = VBool true /\
  get config "hevmContractAddress"
  = VString (FunctionSession.hevmContractAddress currentFile) /\
  (List.length (deployAnswers new) <= 1)%nat /\
  (forall bytecode c d answer,
     In (DeployContract bytecode c d answer) new -> c = config /\ d = cwd) /\
  (forall command filename d answer,
     In (WriteHevmCommand command filename d answer) new ->
     exists bytecode runtime,
       In (DeployContract bytecode config cwd (Ok runtime)) new /\
       command = FunctionSession.hevmCommand runtime calldata config cwd /\
       occursIn ("--state " +:+ FunctionSession.stateFile config cwd) command).
Proof.
  destruct sessionConfig_fields as (Hc1 & Hc2 & _).
  destruct function_session_events as (He1 & He2 & He3).
  split; [exact Hc1|]. split; [exact Hc2|]. split; [exact He1|]. split; [exact He2|].
  intros command filename d answer Hx.
  apply He3 in Hx as (bytecode & runtime & Hdep & ->).
  exists bytecode, runtime. split; [exact Hdep|]. split; [reflexivity|].
  unfold FunctionSession.hevmCommand.
  do 11 apply occursIn_app_r.
  eexists "  ", _. reflexivity.
Qed.

(** X6: when the encoder throws, the session goes on without calldata: after
    the error of the encoder is registered, the next event is the reading of
    the current file, and a command that the session writes is the debug
    command for no calldata, in which the calldata clause is empty. *)
Theorem failed_encoding_does_not_stop_session (e : Exn) :
  argsArray <> [] ->
  abiEncode (map fst argsArray) (map snd argsArray) = Throw e ->
  snd check = true ->
  (exists answer rest,
     new = map ShowErrorMessage (fst check)
           ++ [ConsoleLog "Preparing debugger calldata...";
               RegisterError e (FunctionSession.encodingMessage e);
               ReadFileSync (cwd +:+ "/" +:+ currentFile) answer]
           ++ rest) /\
  (forall command filename d answer,
     In (WriteHevmCommand command filename d answer) new ->
     exists runtime,
       command = FunctionSession.hevmCommand runtime VUndefined config cwd) /\
  FunctionSession.calldataClause VUndefined = EmptyString.
Proof.
  intros Hargs Hthrow Hcheck.
  destruct (registered_cases abiEncode functionSelector argsArray)
    as [[Hr Hc]|(e' & Hr & Hc & _ & He')].
  { exfalso. apply Hc. unfold FunctionShape.calldataOf, FunctionSession.encodeCalldata,
      bind, tryCatch, emit, lift, ret. cbn [fst snd].
    destruct argsArray; [congruence|]. cbn [List.length Nat.eqb].
    now rewrite Hthrow. }
  assert (e' = e) by congruence. subst e'.
  split; [|split; [|reflexivity]].
  - destruct (function_session h abiEncode sourceDirectory currentFile imports
                functionSelector argsArray options st) as (_ & _ & Hfirst).
    destruct (Hfirst Hcheck) as (answer & rest & Hnew).
    exists answer, rest. rewrite Hnew, Hr. reflexivity.
  - destruct function_session_events as (_ & _ & He3).
    intros command filename d answer Hx.
    apply He3 in Hx as (bytecode & runtime & _ & ->).
    rewrite Hc. now exists runtime.
Qed.

End FunctionDebugging.

(** X7: of a selector that is a string only the first character reaches the
    debugger: the session is the one of that character alone, whatever the
    arguments and the encoder are, and without arguments a command that the
    session writes ends with the calldata 0x and that character. *)
Theorem selector_text_first_character_only
    (h : Host) (abiEncode : list string -> list string -> Outcome string)
    (sourceDirectory currentFile : string) (imports : list string)
    (argsArray : list (string * string))
    (options : gmap string JsValue) (st : State) (c : ascii) (rest : string) :
  let session functionSelector args :=
    FunctionSession.startDebugger h abiEncode sourceDirectory currentFile imports
      functionSelector args options st in
  session (FunctionSession.SelectorString (String c rest)) argsArray
  = session (FunctionSession.SelectorString (String c EmptyString)) argsArray /\
  forall command filename d answer,
    In (WriteHevmCommand command filename d answer)
       (newEvents st
          (fst (session (FunctionSession.SelectorString (String c rest)) []))) ->
    exists front, command = front +:+ "--calldata 0x" +:+ String c EmptyString.
Proof.
  cbv zeta. split; [reflexivity|].
  intros command filename d answer Hx.
  destruct (function_session_events h abiEncode sourceDirectory currentFile imports
              (FunctionSession.SelectorString (String c rest)) [] options st)
    as (_ & _ & He3).
  apply He3 in Hx as (bytecode & runtime & _ & ->).
  unfold FunctionSession.hevmCommand.
  change (FunctionSession.calldataClause
            (FunctionShape.calldataOf abiEncode
               (FunctionSession.SelectorString (String c rest)) []))
    with ("--calldata 0x" +:+ String c EmptyString).
  eexists. rewrite <- !sapp_assoc. reflexivity.
Qed.

Lemma failed_encoding_does_not_stop_session_witness :
  let st := Example.emptyState in
  let result :=
    FunctionSession.startDebugger (Example.host Scenario.library)
      Scenario.rejectingEncoder "/ws" "src/Main.huff" ["./Lib.huff"]
      (FunctionSession.SelectorString "a9059cbb") [("uint256", "42")] ∅ st in
  existsb isRun (newEvents st (fst result)) = true /\
  exists answer rest,
    newEvents st (fst result)
    = map ShowErrorMessage (fst (checkInstallations (Example.host Scenario.library) (trace st)))
      ++ [ConsoleLog "Preparing debugger calldata...";
          RegisterError (Error "invalid type")
            (FunctionSession.encodingMessage (Error "invalid type"));
          ReadFileSync
            (FunctionSession.workingDirectory (Example.host Scenario.library) "/ws"
             +:+ "/" +:+ "src/Main.huff") answer]
      ++ rest.
Proof.
  cbv zeta. split; [vm_compute; reflexivity|].
  apply (failed_encoding_does_not_stop_session (Example.host Scenario.library)
           Scenario.rejectingEncoder "/ws" "src/Main.huff" ["./Lib.huff"]
           (FunctionSession.SelectorString "a9059cbb") [("uint256", "42")] ∅
           Example.emptyState (Error "invalid type")).
  - discriminate.
  - reflexivity.
  - reflexivity.
Defined.

(** ** Reading the files to flatten *)

Section Reading.
Variable h : Host.
Variable f : string -> string.

(** A file read and passed through [f]. *)
Local Abbreviation readThrough :=
  (fun path : string =>
     text <- call (fun tr => readFileSync h tr path) (ReadFileSync path) ;;
     ret (f text)).

Lemma pathsRead_app (a b : list Event) : pathsRead (a ++ b) = pathsRead a ++ pathsRead b.
Proof. unfold pathsRead. apply flat_map_app. Qed.

Lemma textsRead_app (a b : list Event) : textsRead (a ++ b) = textsRead a ++ textsRead b.
Proof. unfold textsRead. apply flat_map_app. Qed.

(** Reading a list of files: the files are read in order, up to the first
    that cannot be read. *)
Lemma mapM_reads (paths : list string) (st : State) :
  let result := mapM readThrough paths st in
  exists evs,
    trace (fst result) = trace st ++ evs /\
    heap (fst result) = heap st /\
    forallb Kinds.isRead evs = true /\
    match snd result with
    | Ok texts =>
        pathsRead evs = paths /\ texts = map f (textsRead evs) /\
        existsb failedStep evs = false
    | Throw e =>
        exists n pre p,
          (n < List.length paths)%nat /\
          pathsRead evs = firstn (S n) paths /\
          evs = pre ++ [ReadFileSync p (Throw e)] /\
          existsb failedStep pre = false
    end.
Proof.
  cbv zeta. revert st. induction paths as [|p paths IH]; intros st.
  - exists []. cbn. rewrite app_nil_r. repeat split.
  - cbn [mapM]. set (m := mapM _ paths) in *.
    unfold bind, call, ret. cbn [trace heap fst snd].
    destruct (readFileSync h (trace st) p) as [text|e].
    + set (st1 := {| heap := heap st; trace := _ |}).
      destruct (IH st1) as (evs & Ht & Hh & Hr & Hres).
      destruct (m st1) as [st2 [texts|e]]; cbn [fst snd] in *.
      * exists (ReadFileSync p (Ok text) :: evs). rewrite Ht. subst st1. cbn [trace].
        rewrite <- app_assoc. split; [reflexivity|]. split; [exact Hh|].
        split; [exact Hr|]. destruct Hres as (Hp & Htx & Hf).
        unfold pathsRead, textsRead in *. cbn [flat_map app map].
        rewrite Hp, Htx. repeat split. exact Hf.
      * exists (ReadFileSync p (Ok text) :: evs). rewrite Ht. subst st1. cbn [trace].
        rewrite <- app_assoc. split; [reflexivity|]. split; [exact Hh|].
        split; [exact Hr|].
        destruct Hres as (n & pre & q & Hn & Hp & -> & Hf).
        exists (S n), (ReadFileSync p (Ok text) :: pre), q.
        split; [cbn; lia|]. split; [|split; [reflexivity|exact Hf]].
        unfold pathsRead in *. cbn [flat_map app]. rewrite Hp. reflexivity.
    + exists [ReadFileSync p (Throw e)]. cbn [fst snd trace heap].
      split; [reflexivity|]. split; [reflexivity|]. split; [reflexivity|].
      exists 0%nat, [], p. split; [cbn; lia|]. repeat split.
Qed.

End Reading.

Section FlattenFile.
Variable h : Host.
Variables cwd currentFile : string.
Variable imports : list string.
Variable st : State.

Local Abbreviation result := (FunctionDebugger.flattenFile h cwd currentFile imports st).
Local Abbreviation new := (newEvents st (fst result)).
Local Abbreviation stripMain :=
  (replaceAll FunctionDebugger.mainRegex (template EmptyString)).


End FlattenFile.

(** X9: a file without imports and without an include directive is
    flattened to itself: [flattenFile] returns its text as it is, the entry
    point included. *)
Theorem flattenFile_of_a_single_file (h : Host) (cwd currentFile : string)
    (st : State) (text : string) :
  readFileSync h (trace st) (cwd +:+ "/" +:+ currentFile) = Ok text ->
  ~ occursIn "#include" text ->
  snd (FunctionDebugger.flattenFile h cwd currentFile [] st) = Ok text.
Proof.
  intros Hread Hclean. unfold FunctionDebugger.flattenFile.
  rewrite bind_call, Hread. cbn [map mapM]. unfold bind, ret. cbn [snd join].
  destruct (no_literal_no_match FunctionDebugger.includeRegex (template EmptyString)
              "#include" text) as (_ & _ & ->); [cbn; tauto|exact Hclean|reflexivity].
Qed.

Lemma flattenFile_of_a_single_file_witness :
  snd (FunctionDebugger.flattenFile (Example.host Example.workspace) "/ws"
         "src/Main.huff" [] Example.emptyState)
  = Ok ("#define macro MAIN() = takes(0) returns (0) {" +:+ LF
        +:+ "  0x00 0x00 return" +:+ LF +:+ "}").
Proof.
  apply (flattenFile_of_a_single_file (Example.host Example.workspace) "/ws"
           "src/Main.huff" Example.emptyState);
    [vm_compute; reflexivity|apply not_occursIn; vm_compute; reflexivity].
Defined.

(** ** The caller's array *)

Section CallerArray.
Variable h : Host.

Lemma isRead_isReadOrLog (evs : list Event) :
  forallb Kinds.isRead evs = true -> forallb Kinds.isReadOrLog evs = true.
Proof.
  induction evs as [|x evs IH]; [reflexivity|]. cbn [forallb].
  intros H. apply andb_prop in H as [Hx Hevs]. rewrite (IH Hevs).
  destruct x; try discriminate; reflexivity.
Qed.

(** What [createCompiledMacro] of the macro debugger does to the store: it
    reads and logs, and it reverses the array only when it returns. *)
Lemma debugger_createCompiledMacro_store (cwd : string) (macro : Macro)
    (argsObject : positive) (currentFile : string) (imports : list string)
    (st : State) :
  let result :=
    Debugger.createCompiledMacro h cwd macro argsObject currentFile imports st in
  exists evs,
    trace (fst result) = trace st ++ evs /\
    forallb Kinds.isReadOrLog evs = true /\
    match snd result with
    | Throw _ => heap (fst result) = heap st
    | Ok _ =>
        exists args,
          heap st !! argsObject = Some args /\
          heap (fst result) = <[argsObject := rev args]> (heap st)
    end.
Proof.
  cbv zeta. unfold Debugger.createCompiledMacro.
  pose proof (mapM_reads h Debugger.stripFile
                (Debugger.resolvePaths h cwd currentFile imports) st)
    as (evs & Ht & Hh & Hr & _).
  change (mapM _ (Debugger.resolvePaths h cwd currentFile imports) st)
    with (mapM (Debugger.readStripped h)
            (Debugger.resolvePaths h cwd currentFile imports) st) in Ht, Hh.
  destruct (mapM (Debugger.readStripped h) _ st) as [st1 [files|e]] eqn:Hmap;
    cbn [fst snd] in Ht, Hh.
  2:{ rewrite (bind_Throw_eq _ _ _ _ _ Hmap). exists evs. cbn [fst snd].
      split; [exact Ht|]. split; [now apply isRead_isReadOrLog|exact Hh]. }
  rewrite (bind_Ok_eq _ _ _ _ _ Hmap).
  rewrite (bind_Ok_eq _ _ _ _ _ (isolateBody_spec (body macro) st1)).
  set (logs := if test Debugger.jumpLabelRegex (body macro)
               then [ConsoleLog "jump label found in macro"] else []).
  assert (Hlogs : forallb Kinds.isReadOrLog logs = true).
  { subst logs. now destruct (test _ _). }
  unfold bind, reverseInPlace, ret. cbn [heap trace]. rewrite Hh.
  destruct (heap st !! argsObject) as [args|] eqn:Ha; cbn [fst snd heap trace].
  - exists (evs ++ logs). rewrite Ht, app_assoc. split; [reflexivity|].
    split; [rewrite forallb_app, Hlogs, (isRead_isReadOrLog _ Hr); reflexivity|].
    now exists args.
  - exists (evs ++ logs). rewrite Ht, app_assoc. split; [reflexivity|].
    split; [rewrite forallb_app, Hlogs, (isRead_isReadOrLog _ Hr); reflexivity|].
    reflexivity.
Qed.

Lemma viewer_createCompiledMacro_store (cwd : string) (macro : Macro)
    (argsObject : positive) (currentFile : string) (imports : list string)
    (st : State) :
  let result :=
    Viewer.createCompiledMacro h cwd macro argsObject currentFile imports st in
  exists evs,
    trace (fst result) = trace st ++ evs /\
    forallb Kinds.isReadOrLog evs = true /\
    heap (fst result) = heap st.
Proof.
  cbv zeta. unfold Viewer.createCompiledMacro.
  pose proof (mapM_reads h Viewer.stripFile
                (Viewer.resolvePaths cwd currentFile imports) st)
    as (evs & Ht & Hh & Hr & _).
  change (mapM _ (Viewer.resolvePaths cwd currentFile imports) st)
    with (mapM (Viewer.readStripped h)
            (Viewer.resolvePaths cwd currentFile imports) st) in Ht, Hh.
  destruct (mapM (Viewer.readStripped h) _ st) as [st1 [files|e]] eqn:Hmap;
    cbn [fst snd] in Ht, Hh.
  2:{ rewrite (bind_Throw_eq _ _ _ _ _ Hmap). exists evs. cbn [fst snd].
      split; [exact Ht|]. split; [now apply isRead_isReadOrLog|exact Hh]. }
  rewrite (bind_Ok_eq _ _ _ _ _ Hmap).
  unfold bind, readArray, ret.
  destruct (heap st1 !! argsObject) as [args|]; cbn [fst snd heap trace];
    exists evs; (split; [exact Ht|]);
    (split; [now apply isRead_isReadOrLog|exact Hh]).
Qed.

(** X10: a call of [createCompiledMacro] that throws has changed no array:
    the macro debugger reverses the caller's array only after every file is
    read, so a file that cannot be read leaves the arguments in their
    order. The viewer's [createCompiledMacro] never changes an array,
    whether it returns or throws. *)
Theorem arrays_after_createCompiledMacro (cwd : string) (macro : Macro)
    (argsObject : positive) (currentFile : string) (imports : list string)
    (st : State) :
  let thrown :=
    Debugger.createCompiledMacro h cwd macro argsObject currentFile imports st in
  let viewed :=
    Viewer.createCompiledMacro h cwd macro argsObject currentFile imports st in
  match snd thrown with
  | Throw _ => heap (fst thrown) = heap st
  | Ok _ =>
      exists args,
        heap st !! argsObject = Some args /\
        heap (fst thrown) = <[argsObject := rev args]> (heap st)
  end /\
  heap (fst viewed) = heap st.
Proof.
  cbv zeta. split.
  - destruct (debugger_createCompiledMacro_store cwd macro argsObject currentFile
                imports st) as (evs & _ & _ & H). exact H.
  - destruct (viewer_createCompiledMacro_store cwd macro argsObject currentFile
                imports st) as (evs & _ & _ & H). exact H.
Qed.


End CallerArray.



(** ** The arrays in a session *)

Section KeepsArrays.

Lemma keeps_ret {A} (a : A) : Kinds.keepsArrays (ret a).
Proof. intros st. reflexivity. Qed.

Lemma keeps_lift {A} (o : Outcome A) : Kinds.keepsArrays (lift o).
Proof. intros st. reflexivity. Qed.

Lemma keeps_emit (es : list Event) : Kinds.keepsArrays (emit es).
Proof. intros st. reflexivity. Qed.

Lemma keeps_call {A} (answer : list Event -> Outcome A) (event : Outcome A -> Event) :
  Kinds.keepsArrays (call answer event).
Proof. intros st. reflexivity. Qed.

Lemma keeps_bind {A B} (m : M A) (f : A -> M B) :
  Kinds.keepsArrays m -> (forall a, Kinds.keepsArrays (f a)) ->
  Kinds.keepsArrays (bind m f).
Proof.
  intros Hm Hf st. unfold bind. specialize (Hm st).
  destruct (m st) as [st1 [a|e]]; cbn [fst] in *; [|exact Hm].
  now rewrite Hf.
Qed.

Lemma keeps_debugger_run (h : Host) (bytecode runtime : string)
    (config : gmap string JsValue) (cwd : string) :
  Kinds.keepsArrays (Debugger.runMacroDebugger h bytecode runtime config cwd).
Proof.
  unfold Debugger.runMacroDebugger.
  apply keeps_bind; [apply keeps_call|]. intros _. apply keeps_emit.
Qed.

Lemma keeps_viewer_run (h : Host) (bytecode runtime : string)
    (config : gmap string JsValue) (cwd : string) :
  Kinds.keepsArrays (Viewer.runMacroDebugger h bytecode runtime config cwd).
Proof.
  unfold Viewer.runMacroDebugger.
  apply keeps_bind.
  { destruct (toBoolean _); [|apply keeps_ret].
    apply keeps_bind; [apply keeps_call|]. intros _. apply keeps_ret. }
  intros _. apply keeps_bind; [apply keeps_call|]. intros _. apply keeps_emit.
Qed.

End KeepsArrays.

Section SessionArrays.
Variable h : Host.
Variables sourceDirectory currentFile : string.
Variable imports : list string.
Variable macro : Macro.
Variable argsObject : positive.
Variable options : gmap string JsValue.
Variable st : State.

Lemma existsb_isCompile_readOrLog (evs : list Event) :
  forallb Kinds.isReadOrLog evs = true -> existsb Kinds.isCompile evs = false.
Proof.
  induction evs as [|x evs IH]; [reflexivity|]. cbn [forallb existsb].
  intros H. apply andb_prop in H as [Hx Hevs]. rewrite (IH Hevs).
  destruct x; try discriminate; reflexivity.
Qed.

Lemma existsb_isCompile_shown (msgs : list string) :
  existsb Kinds.isCompile (map ShowErrorMessage msgs) = false.
Proof. induction msgs as [|m msgs IH]; [reflexivity|exact IH]. Qed.

(** A session of the macro debugger that has not compiled has changed no
    array; any other has reversed the caller's array and nothing else. *)
Lemma debugger_session_store :
  let result :=
    Debugger.startMacroDebugger h sourceDirectory currentFile imports macro
      argsObject options st in
  (existsb Kinds.isCompile (newEvents st (fst result)) = false /\
   heap (fst result) = heap st) \/
  (exists args,
     heap st !! argsObject = Some args /\
     heap (fst result) = <[argsObject := rev args]> (heap st)).
Proof.
  cbv zeta. unfold Debugger.startMacroDebugger.
  destruct (checkInstallations h (trace st)) as [msgs installed].
  destruct installed; cbn [negb].
  2:{ left. cbn [fst heap]. split; [|reflexivity].
      rewrite (newEvents_app st _ (map ShowErrorMessage msgs)) by reflexivity.
      apply existsb_isCompile_shown. }
  set (st0 := {| heap := heap st; trace := trace st ++ map ShowErrorMessage msgs |}).
  set (cwd := Debugger.workingDirectory h sourceDirectory).
  set (config := Debugger.sessionConfig h options _ macro).
  unfold tryCatch, Debugger.pipeline.
  destruct (debugger_createCompiledMacro_store h cwd macro argsObject currentFile
              imports st0) as (evs & Ht & Hk & Hheap).
  destruct (Debugger.createCompiledMacro h cwd macro argsObject currentFile imports st0)
    as [st1 [cm|e]] eqn:Hcm; cbn [fst snd] in Ht, Hheap.
  - rewrite (bind_Ok_eq _ _ _ _ _ Hcm). right.
    destruct Hheap as (args & Ha & Hh). exists args. split; [exact Ha|].
    match goal with
    | |- context [bind ?m ?f st1] =>
        assert (Hkeep : Kinds.keepsArrays (bind m f))
    end.
    { apply keeps_bind.
      { destruct (toBoolean _); [apply keeps_lift|apply keeps_ret]. }
      intros cm'. apply keeps_bind; [apply keeps_call|]. intros bytecode.
      apply keeps_bind; [apply keeps_call|]. intros runtime.
      apply keeps_bind; [apply keeps_debugger_run|]. intros _. apply keeps_ret. }
    specialize (Hkeep st1).
    match goal with
    | |- context [bind ?m ?f st1] => destruct (bind m f st1) as [st2 [c|e]]
    end; cbn [fst] in Hkeep |- *.
    + now rewrite Hkeep.
    + unfold bind, emit, ret. cbn [fst heap]. now rewrite Hkeep.
  - rewrite (bind_Throw_eq _ _ _ _ _ Hcm). left.
    unfold bind, emit, ret. cbn [fst heap trace]. split; [|exact Hheap].
    rewrite (newEvents_app st _
               (map ShowErrorMessage msgs ++ evs ++ [RegisterError e Debugger.errorMessage])).
    2:{ rewrite Ht. subst st0. cbn [trace]. now rewrite <- !app_assoc. }
    rewrite !existsb_app, existsb_isCompile_shown,
      (existsb_isCompile_readOrLog _ Hk). reflexivity.
Qed.

Lemma viewer_session_store :
  heap (fst (Viewer.startMacroDebugger h sourceDirectory currentFile imports macro
               argsObject options st)) = heap st.
Proof.
  unfold Viewer.startMacroDebugger.
  destruct (checkInstallations h (trace st)) as [msgs installed].
  destruct installed; cbn [negb]; [|reflexivity].
  set (st0 := {| heap := heap st; trace := trace st ++ map ShowErrorMessage msgs |}).
  set (config := Viewer.sessionConfig h options macro).
  assert (Hkeep : Kinds.keepsArrays
            (Viewer.pipeline h sourceDirectory currentFile imports macro argsObject config)).
  { unfold Viewer.pipeline. apply keeps_bind.
    { intros s.
      destruct (viewer_createCompiledMacro_store h sourceDirectory macro argsObject
                  currentFile imports s) as (evs & _ & _ & H). exact H. }
    intros cm. apply keeps_bind.
    { destruct (toBoolean _); [apply keeps_lift|apply keeps_ret]. }
    intros cm'. apply keeps_bind; [apply keeps_call|]. intros bytecode.
    apply keeps_bind; [apply keeps_call|]. intros runtime.
    apply keeps_bind; [apply keeps_viewer_run|]. intros _. apply keeps_ret. }
  specialize (Hkeep st0). unfold tryCatch.
  destruct (Viewer.pipeline _ _ _ _ _ _ _ st0) as [st1 [c|e]]; cbn [fst] in Hkeep |- *.
  - exact Hkeep.
  - unfold bind, emit, ret. cbn [fst heap]. exact Hkeep.
Qed.

(** X12: the reversal is not rolled back when a session fails. Once a
    session of the macro debugger has compiled the flattened source, the
    caller's array is reversed and every other array is as it was, whether
    the session then launches the debugger or fails and returns null. A
    session of the viewer leaves every array as it was. *)
Theorem reversal_survives_failed_session (args : list string) :
  let result :=
    Debugger.startMacroDebugger h sourceDirectory currentFile imports macro
      argsObject options st in
  heap st !! argsObject = Some args ->
  existsb Kinds.isCompile (newEvents st (fst result)) = true ->
  heap (fst result) = <[argsObject := rev args]> (heap st) /\
  heap (fst (Viewer.startMacroDebugger h sourceDirectory currentFile imports macro
               argsObject options st)) = heap st.
Proof.
  cbv zeta. intros Ha Hcompile. split; [|apply viewer_session_store].
  destruct debugger_session_store as [[Hno _]|(args' & Ha' & Hh)]; [congruence|].
  rewrite Ha in Ha'. inversion Ha'; subst args'. exact Hh.
Qed.

End SessionArrays.

Lemma reversal_survives_failed_session_witness :
  let h := Example.hostFailingCompiler Example.workspace in
  let st := Example.withArgs ["0x05"; "0x06"] in
  let result :=
    Debugger.startMacroDebugger h "/ws" "src/Main.huff" [] Example.addMacro
      1%positive ∅ st in
  (heap (fst result) = <[1%positive := rev ["0x05"; "0x06"]]> (heap st) /\
   heap (fst (Viewer.startMacroDebugger h "/ws" "src/Main.huff" [] Example.addMacro
                1%positive ∅ st)) = heap st) /\
  snd result = Ok ReturnedNull.
Proof.
  cbv zeta. split.
  - apply (reversal_survives_failed_session
             (Example.hostFailingCompiler Example.workspace) "/ws" "src/Main.huff" []
             Example.addMacro 1%positive ∅ (Example.withArgs ["0x05"; "0x06"])
             ["0x05"; "0x06"]); vm_compute; reflexivity.
  - vm_compute. reflexivity.
Defined.


(** ** Storage overrides without state values *)

Section MissingStateValues.
Variable h : Host.
Variables sourceDirectory currentFile : string.
Variable imports : list string.
Variable macro : Macro.
Variable argsObject : positive.
Variable options : gmap string JsValue.
Variable st : State.

Lemma readOrLog_projections (evs : list Event) :
  forallb Kinds.isReadOrLog evs = true ->
  existsb Kinds.isCompile evs = false /\ existsb isDeploy evs = false /\
  existsb isRun evs = false.
Proof.
  induction evs as [|x evs IH]; [auto|]. cbn [forallb existsb].
  intros H. apply andb_prop in H as [Hx Hevs].
  destruct (IH Hevs) as (-> & -> & ->).
  destruct x; try discriminate; auto.
Qed.

Lemma shown_projections (msgs : list string) :
  existsb Kinds.isCompile (map ShowErrorMessage msgs) = false /\
  existsb isDeploy (map ShowErrorMessage msgs) = false /\
  existsb isRun (map ShowErrorMessage msgs) = false.
Proof. induction msgs as [|m msgs IH]; [auto|exact IH]. Qed.

(** X13: storage overrides without state values stop the session before
    anything is compiled. When [storageChecked] is set and the configuration
    has no [stateValues], a session with the tools installed, in the macro
    debugger and in the viewer, compiles nothing, deploys nothing and runs
    nothing; it registers an error and returns null. *)
Theorem storage_overrides_need_state_values (impl : Implementation) :
  let config := configOf impl h sourceDirectory options macro in
  let result :=
    startMacroDebugger impl h sourceDirectory currentFile imports macro argsObject
      options st in
  let new := newEvents st (fst result) in
  toBoolean (get config "storageChecked") = true ->
  get config "stateValues" = VUndefined ->
  snd (checkInstallations h (trace st)) = true ->
  snd result = Ok ReturnedNull /\
  existsb Kinds.isCompile new = false /\
  existsb isDeploy new = false /\
  existsb isRun new = false /\
  exists pre e, new = pre ++ [RegisterError e (messageOf impl)].
Proof.
  cbv zeta. intros Hstorage Hvalues Hcheck. destruct impl;
    cbn [startMacroDebugger configOf messageOf] in *.
  - unfold Debugger.startMacroDebugger.
    destruct (checkInstallations h (trace st)) as [msgs installed].
    cbn [snd] in Hcheck. subst installed. cbn [negb].
    set (st0 := {| heap := heap st; trace := trace st ++ map ShowErrorMessage msgs |}).
    set (cwd := Debugger.workingDirectory h sourceDirectory) in *.
    set (config := Debugger.sessionConfig h options _ macro) in *.
    unfold tryCatch, Debugger.pipeline.
    destruct (debugger_createCompiledMacro_store h cwd macro argsObject currentFile
                imports st0) as (evs & Ht & Hk & _).
    destruct (readOrLog_projections _ Hk) as (Hk1 & Hk2 & Hk3).
    destruct (shown_projections msgs) as (Hs1 & Hs2 & Hs3).
    assert (Hend : forall e st1,
              trace st1 = trace st0 ++ evs ->
              let new := newEvents st
                           {| heap := heap st1;
                              trace := trace st1 ++ [RegisterError e Debugger.errorMessage] |} in
              existsb Kinds.isCompile new = false /\ existsb isDeploy new = false /\
              existsb isRun new = false /\
              exists pre e', new = pre ++ [RegisterError e' Debugger.errorMessage]).
    { intros e st1 Ht1. cbv zeta.
      rewrite (newEvents_app st _
                 (map ShowErrorMessage msgs ++ evs ++ [RegisterError e Debugger.errorMessage])).
      2:{ cbn [trace]. rewrite Ht1. subst st0. cbn [trace]. now rewrite <- !app_assoc. }
      rewrite !existsb_app, Hk1, Hk2, Hk3, Hs1, Hs2, Hs3.
      repeat split. exists (map ShowErrorMessage msgs ++ evs), e.
      now rewrite <- app_assoc. }
    destruct (Debugger.createCompiledMacro h cwd macro argsObject currentFile imports st0)
      as [st1 [cm|e]] eqn:Hcm; cbn [fst snd] in Ht.
    + rewrite (bind_Ok_eq _ _ _ _ _ Hcm), Hstorage.
      unfold Debugger.overrideStorage. rewrite Hvalues.
      unfold bind, lift, emit, ret. cbn [iterate fst snd heap trace].
      split; [reflexivity|]. exact (Hend _ st1 Ht).
    + rewrite (bind_Throw_eq _ _ _ _ _ Hcm).
      unfold bind, emit, ret. cbn [fst snd heap trace].
      split; [reflexivity|]. exact (Hend _ st1 Ht).
  - unfold Viewer.startMacroDebugger.
    destruct (checkInstallations h (trace st)) as [msgs installed].
    cbn [snd] in Hcheck. subst installed. cbn [negb].
    set (st0 := {| heap := heap st; trace := trace st ++ map ShowErrorMessage msgs |}).
    set (config := Viewer.sessionConfig h options macro) in *.
    unfold tryCatch, Viewer.pipeline.
    destruct (viewer_createCompiledMacro_store h sourceDirectory macro argsObject
                currentFile imports st0) as (evs & Ht & Hk & _).
    destruct (readOrLog_projections _ Hk) as (Hk1 & Hk2 & Hk3).
    destruct (shown_projections msgs) as (Hs1 & Hs2 & Hs3).
    assert (Hend : forall e st1,
              trace st1 = trace st0 ++ evs ->
              let new := newEvents st
                           {| heap := heap st1;
                              trace := trace st1 ++ [RegisterError e Viewer.errorMessage] |} in
              existsb Kinds.isCompile new = false /\ existsb isDeploy new = false /\
              existsb isRun new = false /\
              exists pre e', new = pre ++ [RegisterError e' Viewer.errorMessage]).
    { intros e st1 Ht1. cbv zeta.
      rewrite (newEvents_app st _
                 (map ShowErrorMessage msgs ++ evs ++ [RegisterError e Viewer.errorMessage])).
      2:{ cbn [trace]. rewrite Ht1. subst st0. cbn [trace]. now rewrite <- !app_assoc. }
      rewrite !existsb_app, Hk1, Hk2, Hk3, Hs1, Hs2, Hs3.
      repeat split. exists (map ShowErrorMessage msgs ++ evs), e.
      now rewrite <- app_assoc. }
    destruct (Viewer.createCompiledMacro h sourceDirectory macro argsObject currentFile
                imports st0) as [st1 [cm|e]] eqn:Hcm; cbn [fst snd] in Ht.
    + rewrite (bind_Ok_eq _ _ _ _ _ Hcm), Hstorage.
      unfold Viewer.overrideStorage. rewrite Hvalues.
      unfold bind, lift, emit, ret. cbn [iterate fst snd heap trace].
      split; [reflexivity|]. exact (Hend _ st1 Ht).
    + rewrite (bind_Throw_eq _ _ _ _ _ Hcm).
      unfold bind, emit, ret. cbn [fst snd heap trace].
      split; [reflexivity|]. exact (Hend _ st1 Ht).
Qed.

End MissingStateValues.

Lemma storage_overrides_need_state_values_witness :
  let h := Example.host Example.workspace in
  let options : gmap string JsValue := {[ "storageChecked" := VBool true ]} in
  let st := Example.withArgs ["0x05"; "0x06"] in
  let result :=
    startMacroDebugger MacroDebugger h "/ws" "src/Main.huff" [] Example.addMacro
      1%positive options st in
  let new := newEvents st (fst result) in
  snd result = Ok ReturnedNull /\
  existsb Kinds.isCompile new = false /\
  existsb isDeploy new = false /\
  existsb isRun new = false /\
  exists pre e, new = pre ++ [RegisterError e (messageOf MacroDebugger)].
Proof.
  cbv zeta.
  apply (storage_overrides_need_state_values (Example.host Example.workspace) "/ws"
           "src/Main.huff" [] Example.addMacro 1%positive
           {[ "storageChecked" := VBool true ]} (Example.withArgs ["0x05"; "0x06"])
           MacroDebugger); vm_compute; reflexivity.
Defined.

(** ** The directory of the current file and the paths of the imports *)

Section Paths.

Lemma split_nonempty (sep : ascii) (s : string) : split sep s <> [].
Proof.
  destruct s as [|c t]; cbn [split]; [discriminate|].
  destruct (Ascii.eqb c sep); [discriminate|].
  destruct (split sep t); discriminate.
Qed.

Lemma split_without (sep : ascii) (s : string) :
  allChars (fun c => negb (Ascii.eqb c sep)) s = true -> split sep s = [s].
Proof.
  induction s as [|c t IH]; [reflexivity|]. cbn [allChars split].
  intros H. apply andb_prop in H as [Hc Ht].
  apply negb_true_iff in Hc. rewrite Hc, (IH Ht). reflexivity.
Qed.

Lemma join_cons_char (sep : string) (c : ascii) (x : string) (l : list string) :
  join sep (String c x :: l) = String c (join sep (x :: l)).
Proof. destruct l; reflexivity. Qed.

Lemma removelast_cons2 {A} (x y : A) (l : list A) :
  removelast (x :: y :: l) = x :: removelast (y :: l).
Proof. reflexivity. Qed.

(** The segments before the last, joined again, are the text before the
    last separator. *)
Lemma join_split_before_last (dir name : string) :
  allChars Texts.notSlash name = true ->
  exists x xs,
    split "/" (dir +:+ "/" +:+ name) = x :: xs /\ xs <> [] /\
    join "/" (removelast (x :: xs)) = dir.
Proof.
  intros Hname. induction dir as [|c d IH].
  - exists EmptyString, [name].
    change (split "/" (EmptyString +:+ "/" +:+ name))
      with (EmptyString :: split "/" name).
    rewrite (split_without "/" name Hname). repeat split. discriminate.
  - destruct IH as (x & xs & Hs & Hne & Hj).
    change (String c d +:+ "/" +:+ name) with (String c (d +:+ "/" +:+ name)).
    cbn [split]. rewrite Hs.
    destruct xs as [|y ys]; [congruence|].
    destruct (Ascii.eqb c "/") eqn:Hc.
    + apply Ascii.eqb_eq in Hc. subst c.
      exists EmptyString, (x :: y :: ys). split; [reflexivity|]. split; [discriminate|].
      rewrite removelast_cons2.
      change (join "/" (EmptyString :: removelast (x :: y :: ys)))
        with (match removelast (x :: y :: ys) with
              | [] => EmptyString
              | _ => EmptyString +:+ "/" +:+ join "/" (removelast (x :: y :: ys))
              end).
      rewrite removelast_cons2 in *. rewrite Hj. reflexivity.
    + exists (String c x), (y :: ys). split; [reflexivity|]. split; [discriminate|].
      rewrite removelast_cons2, join_cons_char.
      rewrite removelast_cons2 in Hj. now rewrite Hj.
Qed.

(** X14: the directory of the current file is its path up to the last
    slash, and the empty text for a path without a slash; the three copies
    of the code agree. *)
Theorem directory_of_current_file (dir name : string) :
  allChars Texts.notSlash name = true ->
  Debugger.dirPath (dir +:+ "/" +:+ name) = dir /\
  Debugger.dirPath name = EmptyString /\
  Viewer.dirPath (dir +:+ "/" +:+ name) = dir /\
  FunctionDebugger.dirPath (dir +:+ "/" +:+ name) = dir.
Proof.
  intros Hname.
  assert (H1 : Debugger.dirPath (dir +:+ "/" +:+ name) = dir).
  { unfold Debugger.dirPath, sliceButLast.
    destruct (join_split_before_last dir name Hname) as (x & xs & -> & _ & Hj).
    exact Hj. }
  split; [exact H1|]. split; [|split; exact H1].
  unfold Debugger.dirPath, sliceButLast.
  now rewrite (split_without "/" name Hname).
Qed.

Lemma directory_of_current_file_witness :
  Debugger.dirPath ("src/lib" +:+ "/" +:+ "Main.huff") = "src/lib" /\
  Debugger.dirPath "Main.huff" = EmptyString /\
  Viewer.dirPath ("src/lib" +:+ "/" +:+ "Main.huff") = "src/lib" /\
  FunctionDebugger.dirPath ("src/lib" +:+ "/" +:+ "Main.huff") = "src/lib".
Proof.
  apply (directory_of_current_file "src/lib" "Main.huff"). reflexivity.
Defined.

Lemma removeFirst_quote_end (p : string) :
  allChars Texts.notQuote p = true -> removeFirst DQ (p +:+ DQ) = p.
Proof.
  induction p as [|c t IH]; [reflexivity|]. cbn [allChars].
  intros H. apply andb_prop in H as [Hc Ht].
  change (String c t +:+ DQ) with (String c (t +:+ DQ)).
  cbn [removeFirst stripPrefix DQ].
  unfold Texts.notQuote in Hc. apply negb_true_iff in Hc.
  rewrite Ascii.eqb_sym in Hc. rewrite Hc. now rewrite (IH Ht).
Qed.

(** The import directive, with one white space character or none after the
    keyword, stripped of its keyword and its quotes. *)
Lemma strip_import_directive (gap : string) (p : string) :
  gap = EmptyString \/ (exists c, gap = String c EmptyString /\ isWhiteSpace c = true) ->
  allChars Texts.notQuote p = true ->
  removeFirst DQ
    (replaceFirst Debugger.importDirectiveRegex (template EmptyString)
       ("#include" +:+ gap +:+ DQ +:+ p +:+ DQ))
  = p.
Proof.
  intros [->|(c & -> & Hc)] Hp.
  - change (replaceFirst Debugger.importDirectiveRegex (template EmptyString)
              ("#include" +:+ EmptyString +:+ DQ +:+ p +:+ DQ))
      with (p +:+ DQ).
    now apply removeFirst_quote_end.
  - assert (H : replaceFirst Debugger.importDirectiveRegex (template EmptyString)
                  ("#include" +:+ String c EmptyString +:+ DQ +:+ p +:+ DQ)
                = p +:+ DQ).
    { unfold replaceFirst, Debugger.importDirectiveRegex.
      change ("#include" +:+ String c EmptyString +:+ DQ +:+ p +:+ DQ)
        with (String "#" (String "i" (String "n" (String "c" (String "l" (String "u"
                (String "d" (String "e" (String c (String "034" (p +:+ DQ))))))))))).
      cbn [replaceFirstFrom matchAt matcher seq stripPrefix Ascii.eqb Bool.eqb
             String.length Nat.add DQ].
      unfold ws. rewrite Hc. cbn [stripPrefix Ascii.eqb Bool.eqb].
      reflexivity. }
    rewrite H. now apply removeFirst_quote_end.
Qed.

(** X15: in the macro debugger and in the function debugger an include
    directive, with one white space character or none after the keyword
    and a path without a double quote, resolves to the path joined by
    [path.join] to the directory of the current file under the working
    directory. *)
Theorem import_resolves_against_directory (h : Host)
    (cwd currentFile gap p : string) :
  gap = EmptyString \/ (exists c, gap = String c EmptyString /\ isWhiteSpace c = true) ->
  allChars Texts.notQuote p = true ->
  let directive := "#include" +:+ gap +:+ DQ +:+ p +:+ DQ in
  Debugger.resolveImport h cwd currentFile directive
  = pathJoin h (cwd +:+ "/" +:+ Debugger.dirPath currentFile) p /\
  FunctionDebugger.resolveImport h cwd currentFile directive
  = pathJoin h (cwd +:+ "/" +:+ Debugger.dirPath currentFile) p.
Proof.
  intros Hgap Hp. cbv zeta.
  unfold Debugger.resolveImport, FunctionDebugger.resolveImport.
  change FunctionDebugger.importDirectiveRegex with Debugger.importDirectiveRegex.
  change (FunctionDebugger.dirPath currentFile) with (Debugger.dirPath currentFile).
  now rewrite (strip_import_directive gap p Hgap Hp).
Qed.

Lemma import_resolves_against_directory_witness :
  Debugger.resolveImport (Example.host Example.workspace) "/ws" "src/Main.huff"
    ("#include" +:+ " " +:+ DQ +:+ "./Lib.huff" +:+ DQ)
  = "/ws/src/Lib.huff" /\
  FunctionDebugger.resolveImport (Example.host Example.workspace) "/ws" "src/Main.huff"
    ("#include" +:+ " " +:+ DQ +:+ "./Lib.huff" +:+ DQ)
  = "/ws/src/Lib.huff".
Proof.
  apply (import_resolves_against_directory (Example.host Example.workspace)
           "/ws" "src/Main.huff" " " "./Lib.huff").
  - right. exists " "%char. split; reflexivity.
  - reflexivity.
Defined.

(** X16: the viewer drops the first character of the included path,
    whatever it is, and puts the rest directly after the directory of the
    current file: a path that starts with ./ resolves into that directory,
    and a path without it loses its first character. *)
Theorem viewer_import_loses_first_character (cwd currentFile : string)
    (first : ascii) (rest : string) :
  isLineTerminator first = false ->
  allChars Texts.notQuote rest = true ->
  Viewer.resolveImport cwd currentFile
    ("#include " +:+ DQ +:+ String first rest +:+ DQ)
  = cwd +:+ "/" +:+ Viewer.dirPath currentFile +:+ rest.
Proof.
  intros Hfirst Hrest. unfold Viewer.resolveImport.
  assert (H : replaceFirst Viewer.importDirectiveRegex (template EmptyString)
                ("#include " +:+ DQ +:+ String first rest +:+ DQ)
              = rest +:+ DQ).
  { unfold replaceFirst, Viewer.importDirectiveRegex.
    change ("#include " +:+ DQ +:+ String first rest +:+ DQ)
      with (String "#" (String "i" (String "n" (String "c" (String "l" (String "u"
              (String "d" (String "e" (String " " (String "034"
                (String first (rest +:+ DQ)))))))))))).
    cbn [replaceFirstFrom matchAt matcher seq stripPrefix Ascii.eqb Bool.eqb
           String.length Nat.add DQ].
    unfold ws, dot. rewrite Hfirst. reflexivity. }
  rewrite H. now rewrite (removeFirst_quote_end rest Hrest).
Qed.

Lemma viewer_import_loses_first_character_witness :
  Viewer.resolveImport "/ws" "src/Main.huff"
    ("#include " +:+ DQ +:+ String "L" "ib.huff" +:+ DQ)
  = "/ws" +:+ "/" +:+ Viewer.dirPath "src/Main.huff" +:+ "ib.huff".
Proof.
  apply (viewer_import_loses_first_character "/ws" "src/Main.huff" "L" "ib.huff");
    reflexivity.
Defined.

End Paths.

(** ** The paths of the include resolver *)

Section ResolvedPaths.

(** The viewer's pattern takes the keyword, the quote and one character
    more. *)
Lemma viewer_strip_import_directive (c first : ascii) (rest : string) :
  isWhiteSpace c = true -> isLineTerminator first = false ->
  allChars Texts.notQuote rest = true ->
  removeFirst DQ
    (replaceFirst Viewer.importDirectiveRegex (template EmptyString)
       (Texts.includeDirective c (String first rest)))
  = rest.
Proof.
  intros Hc Hfirst Hrest.
  assert (H : replaceFirst Viewer.importDirectiveRegex (template EmptyString)
                (Texts.includeDirective c (String first rest))
              = rest +:+ DQ).
  { unfold replaceFirst, Viewer.importDirectiveRegex, Texts.includeDirective.
    change ("#include" +:+ String c (DQ +:+ String first rest +:+ DQ))
      with (String "#" (String "i" (String "n" (String "c" (String "l" (String "u"
              (String "d" (String "e" (String c (String "034"
                (String first (rest +:+ DQ)))))))))))).
    cbn [replaceFirstFrom matchAt matcher seq stripPrefix Ascii.eqb Bool.eqb
           String.length Nat.add DQ].
    unfold ws, dot. rewrite Hc. cbn [stripPrefix Ascii.eqb Bool.eqb].
    rewrite Hfirst. reflexivity. }
  rewrite H. now apply removeFirst_quote_end.
Qed.

Lemma absolute_app (a b : string) :
  NodePath.isAbsolute a = true -> NodePath.isAbsolute (a +:+ b) = true.
Proof. destruct a as [|c a]; [discriminate|]. intros H. exact H. Qed.

(** [path.join] keeps a path absolute. *)
Lemma joinPaths_absolute (a b : string) :
  NodePath.isAbsolute a = true -> NodePath.isAbsolute (NodePath.joinPaths a b) = true.
Proof.
  assert (Hn : forall p, NodePath.isAbsolute p = true ->
                 NodePath.isAbsolute (NodePath.normalize p) = true).
  { intros p Hp. unfold NodePath.normalize. destruct p as [|c p]; [discriminate|].
    rewrite Hp. cbn [negb].
    destruct (join "/" _); reflexivity. }
  intros Ha. destruct a as [|c a]; [discriminate|].
  unfold NodePath.joinPaths. destruct b as [|d b]; apply Hn; [exact Ha|].
  now apply absolute_app.
Qed.

Lemma nth_error_resolved {A} (f : string -> A) (imports : list string) (last : A)
    (i : nat) (directive : string) :
  nth_error imports i = Some directive ->
  nth_error (map f imports ++ [last]) i = Some (f directive).
Proof.
  intros H. rewrite nth_error_app1.
  - now rewrite nth_error_map, H.
  - rewrite length_map. apply nth_error_Some. congruence.
Qed.

(** C9 as amended: for an absolute working directory, the paths of
    [createCompiledMacro] are absolute, one more than the include
    directives, in the order of the directives, with the path of the
    current file last. A directive, the keyword, a white space character
    and the path between double quotes, resolves in the macro debugger to
    the path joined by [path.join], which keeps a path absolute, to the
    directory of the current file; in the viewer to the path without its
    first character, put directly after that directory. *)
Theorem include_resolver_paths (h : Host) (cwd currentFile : string)
    (imports : list string) :
  NodePath.isAbsolute cwd = true ->
  (forall a b, NodePath.isAbsolute a = true ->
               NodePath.isAbsolute (pathJoin h a b) = true) ->
  let paths := Debugger.resolvePaths h cwd currentFile imports in
  let paths' := Viewer.resolvePaths cwd currentFile imports in
  (List.length paths = (List.length imports + 1)%nat /\
   List.last paths EmptyString = cwd +:+ "/" +:+ currentFile /\
   Forall (fun p => NodePath.isAbsolute p = true) paths /\
   forall i c path,
     nth_error imports i = Some (Texts.includeDirective c path) ->
     isWhiteSpace c = true -> allChars Texts.notQuote path = true ->
     nth_error paths i
     = Some (pathJoin h (cwd +:+ "/" +:+ Debugger.dirPath currentFile) path)) /\
  (List.length paths' = (List.length imports + 1)%nat /\
   List.last paths' EmptyString = cwd +:+ "/" +:+ currentFile /\
   Forall (fun p => NodePath.isAbsolute p = true) paths' /\
   forall i c first rest,
     nth_error imports i = Some (Texts.includeDirective c (String first rest)) ->
     isWhiteSpace c = true -> isLineTerminator first = false ->
     allChars Texts.notQuote rest = true ->
     nth_error paths' i
     = Some (cwd +:+ "/" +:+ Viewer.dirPath currentFile +:+ rest)).
Proof.
  intros Hcwd Hjoin. cbv zeta. split.
  - split; [apply debugger_resolvePaths_length|].
    split; [apply last_last|]. split.
    + unfold Debugger.resolvePaths. apply Forall_app. split.
      * apply Forall_forall. intros p Hp. apply list_elem_of_In in Hp.
        apply in_map_iff in Hp as (directive & <- & _).
        unfold Debugger.resolveImport. apply Hjoin. now apply absolute_app.
      * constructor; [now apply absolute_app|constructor].
    + intros i c path Hi Hc Hpath. unfold Debugger.resolvePaths.
      rewrite (nth_error_resolved _ _ _ _ _ Hi). f_equal.
      unfold Debugger.resolveImport, Texts.includeDirective. f_equal.
      apply (strip_import_directive (String c EmptyString) path); [|exact Hpath].
      right. now exists c.
  - split; [apply viewer_resolvePaths_length|].
    split; [apply last_last|]. split.
    + unfold Viewer.resolvePaths. apply Forall_app. split.
      * apply Forall_forall. intros p Hp. apply list_elem_of_In in Hp.
        apply in_map_iff in Hp as (directive & <- & _).
        unfold Viewer.resolveImport. now apply absolute_app.
      * constructor; [now apply absolute_app|constructor].
    + intros i c first rest Hi Hc Hfirst Hrest. unfold Viewer.resolvePaths.
      rewrite (nth_error_resolved _ _ _ _ _ Hi). f_equal.
      unfold Viewer.resolveImport.
      now rewrite (viewer_strip_import_directive c first rest Hc Hfirst Hrest).
Qed.

Lemma include_resolver_paths_witness :
  let imports := [Texts.includeDirective " " "./Lib.huff";
                  Texts.includeDirective " " "../interfaces/IERC20.huff"] in
  let paths := Debugger.resolvePaths (Example.host Example.workspace) "/ws"
                 "src/Main.huff" imports in
  let paths' := Viewer.resolvePaths "/ws" "src/Main.huff" imports in
  (paths = ["/ws/src/Lib.huff"; "/ws/interfaces/IERC20.huff"; "/ws/src/Main.huff"] /\
   paths' = ["/ws/src/Lib.huff"; "/ws/src./interfaces/IERC20.huff";
             "/ws/src/Main.huff"]) /\
  (List.length paths = (List.length imports + 1)%nat /\
   List.last paths EmptyString = "/ws" +:+ "/" +:+ "src/Main.huff" /\
   Forall (fun p => NodePath.isAbsolute p = true) paths /\
   forall i c path,
     nth_error imports i = Some (Texts.includeDirective c path) ->
     isWhiteSpace c = true -> allChars Texts.notQuote path = true ->
     nth_error paths i
     = Some (pathJoin (Example.host Example.workspace)
               ("/ws" +:+ "/" +:+ Debugger.dirPath "src/Main.huff") path)) /\
  (List.length paths' = (List.length imports + 1)%nat /\
   List.last paths' EmptyString = "/ws" +:+ "/" +:+ "src/Main.huff" /\
   Forall (fun p => NodePath.isAbsolute p = true) paths' /\
   forall i c first rest,
     nth_error imports i = Some (Texts.includeDirective c (String first rest)) ->
     isWhiteSpace c = true -> isLineTerminator first = false ->
     allChars Texts.notQuote rest = true ->
     nth_error paths' i
     = Some ("/ws" +:+ "/" +:+ Viewer.dirPath "src/Main.huff" +:+ rest)).
Proof.
  cbv zeta. split; [split; vm_compute; reflexivity|].
  apply (include_resolver_paths (Example.host Example.workspace) "/ws"
           "src/Main.huff"
           [Texts.includeDirective " " "./Lib.huff";
            Texts.includeDirective " " "../interfaces/IERC20.huff"]).
  - reflexivity.
  - intros a b. apply joinPaths_absolute.
Defined.

(** Under a working directory that is not absolute no path is absolute. *)
Lemma relative_workspace_paths :
  let imports := [Texts.includeDirective " " "./Lib.huff"] in
  Debugger.resolvePaths (Example.host Example.workspace) "ws" "src/Main.huff" imports
  = ["ws/src/Lib.huff"; "ws/src/Main.huff"] /\
  Viewer.resolvePaths "ws" "src/Main.huff" imports
  = ["ws/src/Lib.huff"; "ws/src/Main.huff"] /\
  forallb (fun p => negb (NodePath.isAbsolute p))
    (Debugger.resolvePaths (Example.host Example.workspace) "ws" "src/Main.huff" imports
     ++ Viewer.resolvePaths "ws" "src/Main.huff" imports) = true.
Proof. cbv zeta. split; [|split]; vm_compute; reflexivity. Qed.

End ResolvedPaths.

(** ** Bodies without a jump label *)

Section PlainBodies.

(** X17: a macro body without a jump label reference is passed on as it
    is: nothing is logged, nothing is replaced and no error block is
    appended. *)
Theorem body_without_labels_unchanged (macroBody : string) (st : State) :
  ~ hasLabelReference macroBody ->
  Debugger.isolateBody macroBody st = (st, Ok macroBody) /\
  Debugger.isolated macroBody = macroBody.
Proof.
  intros Hno.
  assert (Ht : test Debugger.jumpLabelRegex macroBody = false).
  { destruct (test Debugger.jumpLabelRegex macroBody) eqn:H; [|reflexivity].
    exfalso. apply Hno. now apply test_jumpLabel_spec. }
  unfold Debugger.isolateBody, Debugger.isolated. rewrite Ht. split; reflexivity.
Qed.

Lemma body_without_labels_unchanged_witness :
  Debugger.isolateBody "0x01 0x02 lt swap1 gt" Example.emptyState
  = (Example.emptyState, Ok "0x01 0x02 lt swap1 gt") /\
  Debugger.isolated "0x01 0x02 lt swap1 gt" = "0x01 0x02 lt swap1 gt".
Proof.
  apply (body_without_labels_unchanged "0x01 0x02 lt swap1 gt" Example.emptyState).
  intros H. apply test_jumpLabel_spec in H. vm_compute in H. discriminate.
Defined.

End PlainBodies.

(** ** The options that a debug command reads *)

Section CommandOptions.
Variable h : Host.

(** X18: the viewer has no call value: whatever [callValueChecked] and
    [callValue] are set to, its debug command is the same. The macro
    debugger puts the value into a clause of its command. *)
Theorem viewer_command_ignores_call_value (runtime cwd : string)
    (config : gmap string JsValue) (checked value : JsValue) :
  Viewer.hevmCommand h runtime
    (<["callValueChecked" := checked]> (<["callValue" := value]> config)) cwd
  = Viewer.hevmCommand h runtime config cwd /\
  Debugger.valueClause
    (<["callValueChecked" := VBool true]> (<["callValue" := value]> config))
  = "--value " +:+ toString value.
Proof.
  split.
  - unfold Viewer.hevmCommand, Viewer.stateClause, Viewer.calldataClause, get.
    now rewrite !lookup_insert_ne by discriminate.
  - unfold Debugger.valueClause, get.
    rewrite lookup_insert_eq. cbn [default toBoolean].
    rewrite lookup_insert_ne by discriminate. now rewrite lookup_insert_eq.
Qed.

End CommandOptions.

(** ** The mounted drive under WSL *)

Section MountedDrive.
Variable h : Host.

Lemma removeFirst_stripPrefix (p s t : string) :
  stripPrefix p s = Some t -> removeFirst p s = t.
Proof. destruct s; cbn [removeFirst]; now intros ->. Qed.

Lemma removeFirst_prefix (p s : string) : removeFirst p (p +:+ s) = s.
Proof. apply removeFirst_stripPrefix, stripPrefix_app. Qed.

Lemma removeFirst_absent (p s : string) : ~ occursIn p s -> removeFirst p s = s.
Proof.
  induction s as [|c t IH]; intros Hno; cbn [removeFirst].
  - destruct (stripPrefix p EmptyString) as [u|] eqn:H; [|reflexivity].
    exfalso. apply Hno. apply stripPrefix_Some in H. rewrite H. apply occursIn_here.
  - destruct (stripPrefix p (String c t)) as [u|] eqn:H.
    + exfalso. apply Hno. apply stripPrefix_Some in H. rewrite H. apply occursIn_here.
    + rewrite IH; [reflexivity|]. intros Ho. apply Hno.
      apply (occursIn_app_r p (String c EmptyString) t Ho).
Qed.

(** X19: under WSL the mount point that is taken off the workspace
    directory for the file system is put back for the simulator. For a
    workspace /mnt/<drive><rest>, where <rest> has no /c:, the working
    directory is <rest>, and the state file that the debug commands of the
    macro debugger and of the function debugger name is under the
    workspace directory as it was given. *)
Theorem wsl_state_file_under_workspace (sourceDirectory drive rest : string)
    (options : gmap string JsValue) (macro : Macro) (currentFile : string) :
  isWsl h = true ->
  wslMountedDrive h sourceDirectory = Some drive ->
  drive <> EmptyString ->
  sourceDirectory = "/mnt/" +:+ drive +:+ rest ->
  ~ occursIn "/c:" rest ->
  let cwd := Debugger.workingDirectory h sourceDirectory in
  let config :=
    Debugger.sessionConfig h (<["stateChecked" := VBool true]> options)
      (Debugger.mountedDriveOf h sourceDirectory) macro in
  let config' :=
    FunctionSession.sessionConfig h options
      (FunctionSession.mountedDriveOf h sourceDirectory) currentFile in
  cwd = rest /\
  FunctionSession.workingDirectory h sourceDirectory = rest /\
  Debugger.stateClause config cwd
  = "--state " +:+ sourceDirectory +:+ "/" +:+ toString (get config "statePath") /\
  FunctionSession.stateFile config' rest
  = sourceDirectory +:+ "/" +:+ toString (get config' "statePath").
Proof.
  intros Hwsl Hdrive Hne -> Hrest. cbv zeta.
  assert (Hcwd : Debugger.workingDirectory h ("/mnt/" +:+ drive +:+ rest) = rest).
  { unfold Debugger.workingDirectory, Debugger.mountedDriveOf.
    rewrite Hwsl, Hdrive. cbn [toString].
    rewrite <- (sapp_assoc "/mnt/" drive rest), removeFirst_prefix.
    now apply removeFirst_absent. }
  split; [exact Hcwd|]. split; [exact Hcwd|].
  assert (Htruthy : toBoolean (VString drive) = true).
  { destruct drive; [congruence|reflexivity]. }
  split.
  - rewrite Hcwd. unfold Debugger.stateClause, Debugger.sessionConfig,
      Debugger.mountedDriveOf, get.
    rewrite Hwsl, Hdrive.
    rewrite !(lookup_insert_ne _ "hevmContractAddress") by discriminate.
    rewrite !lookup_insert_eq.
    rewrite !(lookup_insert_ne _ "mountedDrive") by discriminate.
    unfold spread. rewrite (lookup_union_l' _ _ "stateChecked")
      by (rewrite lookup_insert_eq; eauto).
    rewrite lookup_insert_eq. unfold default, id. cbn [from_option]. rewrite Htruthy.
    cbn [toBoolean orb toString]. now rewrite !sapp_assoc.
  - unfold FunctionSession.stateFile, FunctionSession.sessionConfig,
      FunctionSession.mountedDriveOf, get.
    rewrite Hwsl, Hdrive, !lookup_insert_eq. unfold default, id. cbn [from_option]. rewrite Htruthy.
    cbn [toString]. now rewrite !sapp_assoc.
Qed.

End MountedDrive.

Lemma wsl_state_file_under_workspace_witness :
  let h := Scenario.wslHost Example.workspace in
  let cwd := Debugger.workingDirectory h "/mnt/c/Users/dev/ws" in
  let config :=
    Debugger.sessionConfig h (<["stateChecked" := VBool true]> ∅)
      (Debugger.mountedDriveOf h "/mnt/c/Users/dev/ws") Example.stopMacro in
  let config' :=
    FunctionSession.sessionConfig h ∅
      (FunctionSession.mountedDriveOf h "/mnt/c/Users/dev/ws") "src/Main.huff" in
  cwd = "/Users/dev/ws" /\
  FunctionSession.workingDirectory h "/mnt/c/Users/dev/ws" = "/Users/dev/ws" /\
  Debugger.stateClause config cwd
  = "--state " +:+ "/mnt/c/Users/dev/ws" +:+ "/" +:+ toString (get config "statePath") /\
  FunctionSession.stateFile config' "/Users/dev/ws"
  = "/mnt/c/Users/dev/ws" +:+ "/" +:+ toString (get config' "statePath").
Proof.
  cbv zeta.
  apply (wsl_state_file_under_workspace (Scenario.wslHost Example.workspace)
           "/mnt/c/Users/dev/ws" "c" "/Users/dev/ws" ∅ Example.stopMacro
           "src/Main.huff"); try reflexivity.
  - discriminate.
  - apply not_occursIn. reflexivity.
Defined.

(** ** Overrides for a source without a constructor *)

Section AppendedConstructor.

(** X20: for a source in which the word CONSTRUCTOR does not occur, the
    macro debugger and the viewer leave the source as it is and append a
    constructor without arguments that holds one store instruction for each
    state value, in the order of the state values. *)
Theorem overrides_appended_without_constructor (macro : string)
    (config : gmap string JsValue) (states : list (string * string)) :
  ~ occursIn "CONSTRUCTOR" macro ->
  iterate (get config "stateValues") = Ok states ->
  Debugger.overrideStorage macro config
  = Ok (macro +:+ LF +:+ "#define macro CONSTRUCTOR() = takes(0) returns(0) {"
        +:+ LF +:+ TAB
        +:+ String.concat EmptyString (map storeLine states) +:+ "}") /\
  Viewer.overrideStorage macro config
  = Ok (macro +:+ (LF +:+ "#define macro CONSTRUCTOR() = takes(0) returns(0) {" +:+ LF)
        +:+ String.concat EmptyString (map storeLine states) +:+ "}") /\
  List.length (map storeLine states) = List.length states.
Proof.
  intros Hno Hstates.
  destruct (no_literal_no_match Debugger.constructorRegex (template EmptyString)
              "CONSTRUCTOR" macro) as (Hexec & _); [cbn; tauto|exact Hno|].
  split; [now apply debugger_overrideStorage_appends|].
  split; [now apply viewer_overrideStorage_appends|apply length_map].
Qed.

Lemma overrides_appended_without_constructor_witness :
  let macro := "#define macro MAIN() = takes(0) returns (0) {" +:+ LF
               +:+ "  stop" +:+ LF +:+ "}" in
  let states := [("0x2a", "0x00"); ("0x2b", "0x01")] in
  Debugger.overrideStorage macro Example.twoOverrides
  = Ok (macro +:+ LF +:+ "#define macro CONSTRUCTOR() = takes(0) returns(0) {"
        +:+ LF +:+ TAB
        +:+ String.concat EmptyString (map storeLine states) +:+ "}") /\
  Viewer.overrideStorage macro Example.twoOverrides
  = Ok (macro +:+ (LF +:+ "#define macro CONSTRUCTOR() = takes(0) returns(0) {" +:+ LF)
        +:+ String.concat EmptyString (map storeLine states) +:+ "}") /\
  List.length (map storeLine states) = List.length states.
Proof.
  cbv zeta.
  apply (overrides_appended_without_constructor
           ("#define macro MAIN() = takes(0) returns (0) {" +:+ LF
            +:+ "  stop" +:+ LF +:+ "}")
           Example.twoOverrides [("0x2a", "0x00"); ("0x2b", "0x01")]).
  - apply not_occursIn. vm_compute. reflexivity.
  - vm_compute. reflexivity.
Defined.

End AppendedConstructor.

(** ** The deployment of the viewer's utilities *)

Section Deployment.
Variable sys : Utils.System.


End Deployment.


(** ** Removing a match *)

Section Removal.
Variable r : regex.

Lemma applyReplacer_empty (whole : string) (i n : nat) (cs : Caps) (s : string) :
  applyReplacer r (template EmptyString) whole i n cs s = EmptyString.
Proof. reflexivity. Qed.

Lemma sliceFrom_length_app (m rest : string) :
  sliceFrom (String.length m) (m +:+ rest) = rest.
Proof. induction m as [|c m IH]; [reflexivity|exact IH]. Qed.

(** A match at the front is taken out, and the search goes on after it. *)
Lemma replaceAllFrom_match (whole : string) (i : nat) (m rest : string) (cs : Caps) :
  m <> EmptyString ->
  matchAt r (m +:+ rest) = Some (String.length m, cs) ->
  replaceAllFrom r (template EmptyString) whole i 0 (m +:+ rest)
  = replaceAllFrom r (template EmptyString) whole (i + String.length m) 0 rest.
Proof.
  intros Hm Hmatch. destruct m as [|c m]; [congruence|].
  change (String c m +:+ rest) with (String c (m +:+ rest)) in *.
  cbn [replaceAllFrom String.length]. rewrite Hmatch.
  cbn [String.length]. rewrite applyReplacer_empty, sapp_nil_l.
  rewrite replaceAllFrom_skip by (rewrite slength_app; lia).
  rewrite sliceFrom_length_app.
  replace (S i + String.length m)%nat with (i + S (String.length m))%nat by lia.
  reflexivity.
Qed.

(** A text before the first match stays. *)
Lemma replaceAllFrom_before (f : Replacer) (whole : string) (i : nat)
    (pre rest : string) :
  (forall pre1 c pre2, pre = pre1 +:+ String c pre2 ->
                       matchAt r (String c pre2 +:+ rest) = None) ->
  replaceAllFrom r f whole i 0 (pre +:+ rest)
  = pre +:+ replaceAllFrom r f whole (i + String.length pre) 0 rest.
Proof.
  revert i. induction pre as [|c pre IH]; intros i H.
  - cbn [String.length]. now rewrite !sapp_nil_l, Nat.add_0_r.
  - change (String c pre +:+ rest) with (String c (pre +:+ rest)).
    cbn [replaceAllFrom].
    pose proof (H EmptyString c pre eq_refl) as H0.
    change (String c pre +:+ rest) with (String c (pre +:+ rest)) in H0.
    rewrite H0, IH.
    + cbn [String.length].
      replace (i + S (String.length pre))%nat with (S i + String.length pre)%nat by lia.
      reflexivity.
    + intros pre1 d pre2 ->. apply (H (String c pre1) d pre2). reflexivity.
Qed.

End Removal.

(** ** Where a match can start *)

Section Starts.

Lemma prefix_before_hash (u v p rest : string) :
  u +:+ v = p +:+ String "#" rest ->
  allChars Texts.notHash u = true ->
  exists m, p = u +:+ m.
Proof.
  revert p. induction u as [|d u IH]; intros p H Hu.
  - exists p. reflexivity.
  - cbn [allChars] in Hu. apply andb_prop in Hu as [Hd Hu].
    change (String d u +:+ v) with (String d (u +:+ v)) in H.
    destruct p as [|e p].
    + change (EmptyString +:+ String "#" rest) with (String "#" rest) in H.
      inversion H; subst d. discriminate.
    + change (String e p +:+ String "#" rest) with (String e (p +:+ String "#" rest)) in H.
      inversion H; subst e. destruct (IH p H2 Hu) as (m & ->).
      exists m. reflexivity.
Qed.

(** A text that starts with a hash sign and has no other, in front of a
    hash sign: when it starts before the end of [p], it lies within [p]. *)
Lemma occurs_before_hash (u v p rest : string) :
  String "#" u +:+ v = p +:+ String "#" rest ->
  p <> EmptyString ->
  allChars Texts.notHash u = true ->
  occursIn (String "#" u) p.
Proof.
  intros H Hp Hu. destruct p as [|e p]; [congruence|].
  change (String "#" u +:+ v) with (String "#" (u +:+ v)) in H.
  change (String e p +:+ String "#" rest) with (String e (p +:+ String "#" rest)) in H.
  inversion H; subst e.
  destruct (prefix_before_hash u v p rest H2 Hu) as (m & ->).
  exists EmptyString, m. reflexivity.
Qed.

Lemma whiteSpace_notHash (c : ascii) : isWhiteSpace c = true -> Texts.notHash c = true.
Proof.
  intros H. unfold Texts.notHash. destruct (Ascii.eqb c "#") eqn:E; [|reflexivity].
  apply Ascii.eqb_eq in E. subst c. discriminate.
Qed.

Lemma allChars_app (p : ascii -> bool) (a b : string) :
  allChars p (a +:+ b) = allChars p a && allChars p b.
Proof.
  induction a as [|c a IH]; [reflexivity|].
  change (String c a +:+ b) with (String c (a +:+ b)).
  cbn [allChars]. now rewrite IH, andb_assoc.
Qed.

End Starts.

(** ** Inversion of match attempts *)

Section Inversion.

Lemma lit_inv (l s : string) (i : nat) (caps : Caps)
    (k : string -> nat -> Caps -> Result) (res : nat * Caps) :
  matcher (Lit l) s i caps k = Some res ->
  exists t, s = l +:+ t /\ k t (i + String.length l)%nat caps = Some res.
Proof.
  cbn [matcher]. destruct (stripPrefix l s) as [t|] eqn:H; [|discriminate].
  intros Hk. exists t. split; [now apply stripPrefix_Some|exact Hk].
Qed.

Lemma opt_inv (p : ascii -> bool) (s : string) (i : nat) (caps : Caps)
    (k : string -> nat -> Caps -> Result) (res : nat * Caps) :
  matcher (Opt p) s i caps k = Some res ->
  exists g t j, s = g +:+ t /\ allChars p g = true /\ k t j caps = Some res.
Proof.
  cbn [matcher]. destruct s as [|c t].
  - intros H. exists EmptyString, EmptyString, i. auto.
  - destruct (p c) eqn:Hc.
    + destruct (k t (S i) caps) as [res'|] eqn:Hk.
      * intros H. inversion H; subst res'.
        exists (String c EmptyString), t, (S i). cbn [allChars]. rewrite Hc. auto.
      * intros H. exists EmptyString, (String c t), i. auto.
    + intros H. exists EmptyString, (String c t), i. auto.
Qed.

Lemma starGreedy_inv (p : ascii -> bool) (k : string -> nat -> Result)
    (s : string) (i : nat) (res : nat * Caps) :
  starGreedy p k s i = Some res ->
  exists g t j, s = g +:+ t /\ allChars p g = true /\ k t j = Some res.
Proof.
  revert i. induction s as [|c t IH]; intros i H; cbn [starGreedy] in H.
  - exists EmptyString, EmptyString, i. auto.
  - destruct (p c) eqn:Hc.
    + destruct (starGreedy p k t (S i)) as [res'|] eqn:Hrec.
      * inversion H; subst res'.
        destruct (IH _ Hrec) as (g & t' & j & -> & Hg & Hk).
        exists (String c g), t', j. cbn [allChars]. rewrite Hc, Hg. auto.
      * exists EmptyString, (String c t), i. auto.
    + exists EmptyString, (String c t), i. auto.
Qed.

Lemma plus_inv (p : ascii -> bool) (s : string) (i : nat) (caps : Caps)
    (k : string -> nat -> Caps -> Result) (res : nat * Caps) :
  matcher (Plus p) s i caps k = Some res ->
  exists g t j, s = g +:+ t /\ allChars p g = true /\ k t j caps = Some res.
Proof.
  cbn [matcher]. destruct s as [|c t]; [discriminate|].
  destruct (p c) eqn:Hc; [|discriminate]. intros H.
  apply starGreedy_inv in H as (g & t' & j & -> & Hg & Hk).
  exists (String c g), t', j. cbn [allChars]. rewrite Hc, Hg. auto.
Qed.

End Inversion.

(** ** Forward lemmas for the quantifiers *)

Section Forward.

(** A lazy quantifier goes over the characters at which what follows it
    cannot match. *)
Lemma starLazy_skip (p q : ascii -> bool) (k : string -> nat -> Result)
    (x rest : string) (i : nat) :
  (forall c u j, q c = true -> k (String c u) j = None) ->
  allChars p x = true -> allChars q x = true ->
  starLazy p k (x +:+ rest) i = starLazy p k rest (i + String.length x).
Proof.
  intros Hk. revert i. induction x as [|c x IH]; intros i Hp Hq.
  - rewrite sapp_nil_l. cbn [String.length]. now rewrite Nat.add_0_r.
  - cbn [allChars] in Hp, Hq.
    apply andb_prop in Hp as [Hpc Hp]. apply andb_prop in Hq as [Hqc Hq].
    change (String c x +:+ rest) with (String c (x +:+ rest)).
    cbn [starLazy]. rewrite (Hk c _ i Hqc), Hpc, IH by assumption.
    cbn [String.length].
    replace (i + S (String.length x))%nat with (S i + String.length x)%nat by lia.
    reflexivity.
Qed.

Lemma starLazy_here (p : ascii -> bool) (k : string -> nat -> Result)
    (s : string) (i : nat) (res : nat * Caps) :
  k s i = Some res -> starLazy p k s i = Some res.
Proof. intros H. destruct s; cbn [starLazy]; now rewrite H. Qed.

End Forward.

Section ForwardMore.

Lemma matcher_seq (r1 r2 : regex) (s : string) (i : nat) (caps : Caps)
    (k : string -> nat -> Caps -> Result) :
  matcher (Seq r1 r2) s i caps k
  = matcher r1 s i caps (fun t j cs => matcher r2 t j cs k).
Proof. reflexivity. Qed.

Lemma matcher_starLazy (p : ascii -> bool) (s : string) (i : nat) (caps : Caps)
    (k : string -> nat -> Caps -> Result) :
  matcher (StarLazy p) s i caps k = starLazy p (fun t j => k t j caps) s i.
Proof. reflexivity. Qed.

Lemma matcher_star (p : ascii -> bool) (s : string) (i : nat) (caps : Caps)
    (k : string -> nat -> Caps -> Result) :
  matcher (Star p) s i caps k = starGreedy p (fun t j => k t j caps) s i.
Proof. reflexivity. Qed.

Lemma matcher_cls (p : ascii -> bool) (c : ascii) (t : string) (i : nat) (caps : Caps)
    (k : string -> nat -> Caps -> Result) :
  p c = true -> matcher (Cls p) (String c t) i caps k = k t (S i) caps.
Proof. intros H. cbn [matcher]. now rewrite H. Qed.

Lemma matcher_lit (l t : string) (i : nat) (caps : Caps)
    (k : string -> nat -> Caps -> Result) :
  matcher (Lit l) (l +:+ t) i caps k = k t (i + String.length l)%nat caps.
Proof. cbn [matcher]. now rewrite stripPrefix_app. Qed.

(** The front of [t] is not in the class [p]. *)
Local Abbreviation headOutside p t :=
  (match t with
   | EmptyString => True
   | String c _ => p c = false
   end).

Lemma matcher_opt_gap (p : ascii -> bool) (g t : string) (i : nat) (caps : Caps)
    (k : string -> nat -> Caps -> Result) (res : nat * Caps) :
  (g = EmptyString /\ headOutside p t) \/
  (exists c, g = String c EmptyString /\ p c = true) ->
  k t (i + String.length g)%nat caps = Some res ->
  matcher (Opt p) (g +:+ t) i caps k = Some res.
Proof.
  intros [[-> Hhead]|(c & -> & Hc)] Hk.
  - rewrite sapp_nil_l. cbn [String.length] in Hk. rewrite Nat.add_0_r in Hk.
    cbn [matcher]. destruct t as [|c t]; [exact Hk|]. now rewrite Hhead.
  - change (String c EmptyString +:+ t) with (String c t).
    cbn [String.length] in Hk. replace (i + 1)%nat with (S i) in Hk by lia.
    cbn [matcher]. now rewrite Hc, Hk.
Qed.

End ForwardMore.

(** ** Entry points that [createCompiledMacro] removes *)

Section EntryPoints.

Lemma gap_spaces (g : string) : Texts.gap g -> allChars isWhiteSpace g = true.
Proof. intros [->|(c & -> & Hc)]; cbn [allChars]; [reflexivity|now rewrite Hc]. Qed.

Lemma gap_length (g : string) : Texts.gap g -> (String.length g <= 1)%nat.
Proof. intros [->|(c & -> & Hc)]; cbn; lia. Qed.

Lemma allChars_impl (p q : ascii -> bool) (s : string) :
  (forall c, p c = true -> q c = true) -> allChars p s = true -> allChars q s = true.
Proof.
  intros Hpq. induction s as [|c s IH]; [reflexivity|]. cbn [allChars].
  intros H. apply andb_prop in H as [Hc Hs]. now rewrite (Hpq c Hc), IH.
Qed.

(** What the entry point pattern of [createCompiledMacro] matches starts
    with the keywords, one hash sign among them, and the word MAIN. *)
Lemma mainRegex_inv (t : string) (res : nat * Caps) :
  matchAt Debugger.mainRegex t = Some res ->
  exists u v, t = String "#" u +:+ v /\ allChars Texts.notHash u = true /\
              exists w, String "#" u = w +:+ "MAIN".
Proof.
  unfold matchAt, Debugger.mainRegex. cbn [seq]. intros H.
  rewrite matcher_seq in H. apply lit_inv in H as (t1 & -> & H). cbv beta in H.
  rewrite matcher_seq in H. apply opt_inv in H as (g1 & t2 & j1 & -> & Hg1 & H).
  cbv beta in H.
  rewrite matcher_seq in H. apply lit_inv in H as (t3 & -> & H). cbv beta in H.
  rewrite matcher_seq in H. apply opt_inv in H as (g2 & t4 & j2 & -> & Hg2 & H).
  cbv beta in H.
  rewrite matcher_seq in H. apply lit_inv in H as (t5 & -> & _).
  exists ("define" +:+ g1 +:+ "macro" +:+ g2 +:+ "MAIN"), t5.
  split; [|split].
  - change (String "#" ("define" +:+ g1 +:+ "macro" +:+ g2 +:+ "MAIN"))
      with ("#define" +:+ g1 +:+ "macro" +:+ g2 +:+ "MAIN").
    now rewrite !sapp_assoc.
  - rewrite !allChars_app.
    rewrite (allChars_impl _ _ g1 whiteSpace_notHash Hg1).
    rewrite (allChars_impl _ _ g2 whiteSpace_notHash Hg2). reflexivity.
  - exists ("#define" +:+ g1 +:+ "macro" +:+ g2).
    change (String "#" ("define" +:+ g1 +:+ "macro" +:+ g2 +:+ "MAIN"))
      with ("#define" +:+ g1 +:+ "macro" +:+ g2 +:+ "MAIN").
    now rewrite !sapp_assoc.
Qed.

Lemma occursIn_cons (pat : string) (c : ascii) (s : string) :
  occursIn pat s -> occursIn pat (String c s).
Proof. apply (occursIn_app_r pat (String c EmptyString) s). Qed.

Lemma occursIn_prefix_part (pat before s after : string) :
  occursIn pat s -> occursIn pat (before +:+ s +:+ after).
Proof.
  intros (a & b & ->). exists (before +:+ a), (b +:+ after).
  now rewrite !sapp_assoc.
Qed.

(** No match of the entry point pattern starts in a text without the word
    MAIN that is followed by a hash sign. *)
Lemma mainRegex_not_before (pre rest : string) :
  ~ occursIn "MAIN" pre ->
  forall pre1 c pre2, pre = pre1 +:+ String c pre2 ->
    matchAt Debugger.mainRegex (String c pre2 +:+ String "#" rest) = None.
Proof.
  intros Hno pre1 c pre2 ->.
  destruct (matchAt Debugger.mainRegex (String c pre2 +:+ String "#" rest))
    as [res|] eqn:Hm; [|reflexivity].
  exfalso. apply Hno.
  apply mainRegex_inv in Hm as (u & v & Heq & Hu & w & Hw).
  symmetry in Heq.
  apply occurs_before_hash in Heq; [|discriminate|exact Hu].
  destruct Heq as (a & b & Heq). rewrite Heq, Hw.
  exists (pre1 +:+ a +:+ w), b. now rewrite !sapp_assoc.
Qed.

(** The match of the pattern at an entry point: the whole of it. *)
Lemma mainRegex_entry (g1 g2 signature body post : string) :
  Texts.gap g1 -> Texts.gap g2 ->
  allChars Texts.notOpen signature = true ->
  allChars Texts.notClose body = true ->
  matchAt Debugger.mainRegex (Texts.entryPointText g1 g2 signature body +:+ post)
  = Some (String.length (Texts.entryPointText g1 g2 signature body), []).
Proof.
  intros Hg1 Hg2 Hsig Hbody.
  unfold Texts.entryPointText. rewrite !sapp_assoc.
  unfold matchAt, Debugger.mainRegex. cbn [seq].
  rewrite matcher_seq, matcher_lit.
  rewrite matcher_seq. apply matcher_opt_gap;
    [destruct Hg1 as [->|(c & -> & Hc)]; [left; split; reflexivity|right; eauto]|].
  rewrite matcher_seq, matcher_lit.
  rewrite matcher_seq. apply matcher_opt_gap;
    [destruct Hg2 as [->|(c & -> & Hc)]; [left; split; reflexivity|right; eauto]|].
  rewrite matcher_seq, matcher_lit.
  rewrite matcher_seq, matcher_starLazy.
  rewrite (starLazy_skip any Texts.notOpen);
    [|intros c u j Hc|now apply allChars_impl with (p := Texts.notOpen)|exact Hsig].
  2:{ rewrite matcher_seq. cbn [matcher]. rewrite stripPrefix_cons_cons.
      unfold Texts.notOpen in Hc. apply negb_true_iff in Hc.
      rewrite Ascii.eqb_sym in Hc. now rewrite Hc. }
  apply starLazy_here. rewrite matcher_seq, matcher_lit.
  rewrite matcher_seq, matcher_starLazy.
  rewrite (starLazy_skip any Texts.notClose);
    [|intros c u j Hc|now apply allChars_impl with (p := Texts.notClose)|exact Hbody].
  2:{ cbn [matcher]. rewrite stripPrefix_cons_cons.
      unfold Texts.notClose in Hc. apply negb_true_iff in Hc.
      rewrite Ascii.eqb_sym in Hc. now rewrite Hc. }
  apply starLazy_here. rewrite matcher_lit.
  rewrite !slength_app. cbn [String.length]. f_equal. f_equal. lia.
Qed.

End EntryPoints.

Section EntryPointRemoved.

Lemma stripMain_entry (pre g1 g2 signature body post : string) :
  Texts.gap g1 -> Texts.gap g2 ->
  allChars Texts.notOpen signature = true ->
  allChars Texts.notClose body = true ->
  ~ occursIn "MAIN" pre -> ~ occursIn "MAIN" post ->
  replaceAll Debugger.mainRegex (template EmptyString)
    (pre +:+ Texts.entryPointText g1 g2 signature body +:+ post)
  = pre +:+ post.
Proof.
  intros Hg1 Hg2 Hsig Hbody Hpre Hpost. unfold replaceAll.
  assert (Hrest : Texts.entryPointText g1 g2 signature body +:+ post
                  = String "#" (("define" +:+ g1 +:+ "macro" +:+ g2 +:+ "MAIN"
                                 +:+ signature +:+ "{" +:+ body +:+ "}") +:+ post))
    by reflexivity.
  rewrite replaceAllFrom_before.
  2:{ intros pre1 c pre2 Heq. rewrite Hrest.
      now apply (mainRegex_not_before pre _ Hpre pre1). }
  rewrite replaceAllFrom_match with (cs := []).
  - rewrite replaceAllFrom_no_match; [reflexivity|].
    apply (execFrom_literals Debugger.mainRegex "MAIN"); [cbn; tauto|exact Hpost].
  - discriminate.
  - now apply mainRegex_entry.
Qed.

(** X22: an entry point is removed when it is written with at most one
    white space character between its keywords, has no opening brace in its
    signature and no closing brace in its body, and the word MAIN occurs
    nowhere else in the file. [createCompiledMacro], in the macro debugger
    and in the viewer, then passes on what is before and after the entry
    point, for a file without include directives as it is. *)
Theorem entry_point_removed (pre g1 g2 signature body post : string) :
  Texts.gap g1 -> Texts.gap g2 ->
  allChars Texts.notOpen signature = true ->
  allChars Texts.notClose body = true ->
  ~ occursIn "MAIN" pre -> ~ occursIn "MAIN" post ->
  ~ occursIn "#include" (pre +:+ post) ->
  let text := pre +:+ Texts.entryPointText g1 g2 signature body +:+ post in
  Debugger.stripFile text = pre +:+ post /\ Viewer.stripFile text = pre +:+ post.
Proof.
  intros Hg1 Hg2 Hsig Hbody Hpre Hpost Hinclude. cbv zeta.
  unfold Debugger.stripFile, Viewer.stripFile.
  change Viewer.mainRegex with Debugger.mainRegex.
  rewrite stripMain_entry by assumption.
  destruct (no_literal_no_match Debugger.includeRegex (template EmptyString)
              "#include" (pre +:+ post)) as (_ & _ & ->); [cbn; tauto|exact Hinclude|].
  destruct (no_literal_no_match Viewer.includeRegex (template EmptyString)
              "#include" (pre +:+ post)) as (_ & _ & ->); [cbn; tauto|exact Hinclude|].
  split; reflexivity.
Qed.

Lemma entry_point_removed_witness :
  let pre := "#define macro ADD() = takes(2) returns (1) {" +:+ LF
             +:+ "  add" +:+ LF +:+ "}" +:+ LF in
  let text := pre +:+ Texts.entryPointText " " " " "() = takes(0) returns (0) "
                        (LF +:+ "  0x01 0x02 ADD()" +:+ LF) +:+ LF in
  Debugger.stripFile text = pre +:+ LF /\ Viewer.stripFile text = pre +:+ LF.
Proof.
  cbv zeta.
  apply (entry_point_removed
           ("#define macro ADD() = takes(2) returns (1) {" +:+ LF
            +:+ "  add" +:+ LF +:+ "}" +:+ LF)
           " " " " "() = takes(0) returns (0) " (LF +:+ "  0x01 0x02 ADD()" +:+ LF) LF);
    try reflexivity;
    try (right; exists " "%char; split; reflexivity);
    apply not_occursIn; vm_compute; reflexivity.
Defined.

End EntryPointRemoved.

(** ** Include directives *)

Section IncludeDirectives.

(** What follows the greedy part of the include patterns: the closing
    quote. *)
Local Abbreviation closing :=
  (fun (t : string) (j : nat) =>
     matcher (Lit DQ) t j [] (fun _ j' cs => Some (j', cs))).

Lemma closing_cons (c : ascii) (t : string) (j : nat) :
  closing (String c t) j = if Ascii.eqb c "034" then Some (S j, []) else None.
Proof.
  cbv beta. cbn [matcher]. unfold DQ.
  rewrite stripPrefix_cons_cons. rewrite (Ascii.eqb_sym "034" c).
  destruct (Ascii.eqb c "034"); [|reflexivity].
  cbn [stripPrefix String.length]. f_equal. f_equal. lia.
Qed.

Lemma starGreedy_no_quote (cls : ascii -> bool) (t : string) (j : nat) :
  Texts.quoteAhead cls t = false -> starGreedy cls closing t j = None.
Proof.
  revert j. induction t as [|c t IH]; intros j H; [reflexivity|].
  cbn [Texts.quoteAhead] in H. apply orb_false_iff in H as [Hq H].
  cbn [starGreedy]. rewrite closing_cons, Hq.
  destruct (cls c); [|reflexivity]. cbn [andb] in H. now rewrite (IH (S j) H).
Qed.

(** The greedy part goes up to the last double quote that it can reach. *)
Lemma starGreedy_last_quote (cls : ascii -> bool) (mid tail : string) (i : nat) :
  cls "034"%char = true ->
  allChars cls mid = true ->
  Texts.quoteAhead cls tail = false ->
  starGreedy cls closing (mid +:+ DQ +:+ tail) i
  = Some (i + String.length mid + 1, [])%nat.
Proof.
  intros Hq. revert i. induction mid as [|c mid IH]; intros i Hmid Htail.
  - change (EmptyString +:+ DQ +:+ tail) with (String "034"%char tail).
    cbn [starGreedy]. rewrite Hq, (starGreedy_no_quote cls tail (S i) Htail).
    rewrite closing_cons. cbn [Ascii.eqb Bool.eqb andb String.length].
    f_equal. f_equal. lia.
  - cbn [allChars] in Hmid. apply andb_prop in Hmid as [Hc Hmid].
    change (String c mid +:+ DQ +:+ tail) with (String c (mid +:+ DQ +:+ tail)).
    cbn [starGreedy]. rewrite Hc, (IH (S i) Hmid Htail).
    cbn [String.length]. f_equal. f_equal. lia.
Qed.

Lemma include_match (cls : ascii -> bool) (c : ascii) (path tail : string) :
  isWhiteSpace c = true ->
  cls "034"%char = true ->
  allChars cls path = true ->
  Texts.quoteAhead cls tail = false ->
  matchAt (seq [Lit "#include"; Cls ws; Lit DQ; Star cls; Lit DQ])
    (Texts.includeDirective c path +:+ tail)
  = Some (String.length (Texts.includeDirective c path), []).
Proof.
  intros Hc Hq Hpath Htail. unfold matchAt, Texts.includeDirective. cbn [seq].
  rewrite sapp_assoc. rewrite matcher_seq, matcher_lit.
  rewrite sapp_cons, (sapp_assoc DQ), (sapp_assoc path).
  rewrite matcher_seq, (matcher_cls ws c _ _ _ _ Hc).
  rewrite matcher_seq, matcher_lit.
  rewrite matcher_seq, matcher_star.
  rewrite (starGreedy_last_quote cls path tail _ Hq Hpath Htail).
  rewrite !slength_app. cbn [String.length]. rewrite !slength_app.
  cbn [String.length DQ]. f_equal; try (f_equal; lia).
Qed.


Lemma include_not_at (cls : ascii -> bool) (c : ascii) (t : string) :
  Texts.notHash c = true ->
  matchAt (seq [Lit "#include"; Cls ws; Lit DQ; Star cls; Lit DQ]) (String c t) = None.
Proof.
  intros Hc. unfold matchAt. cbn [seq]. rewrite matcher_seq. cbn [matcher].
  rewrite stripPrefix_cons_cons.
  unfold Texts.notHash in Hc. apply negb_true_iff in Hc.
  rewrite Ascii.eqb_sym in Hc. now rewrite Hc.
Qed.

Lemma concat_empty_cons' (x : string) (xs : list string) :
  String.concat EmptyString (x :: xs) = x +:+ String.concat EmptyString xs.
Proof. destruct xs as [|y ys]; [symmetry; apply sapp_nil_r|reflexivity]. Qed.

(** The include directives at the top of a file, each on its line, are
    taken out by the pattern without the flag [s]; the line ends stay. *)
Lemma include_lines (c : ascii) (paths : list string) (body whole : string) (i : nat) :
  isWhiteSpace c = true ->
  Forall (fun p => allChars dot p = true) paths ->
  ~ occursIn "#include" body ->
  replaceAllFrom Debugger.includeRegex (template EmptyString) whole i 0
    (String.concat EmptyString (map (fun p => Texts.includeDirective c p +:+ LF) paths)
     +:+ body)
  = String.concat EmptyString (map (fun _ => LF) paths) +:+ body.
Proof.
  intros Hc Hpaths Hbody. revert i.
  induction Hpaths as [|p paths Hp _ IH]; intros i.
  - cbn [map String.concat]. rewrite !sapp_nil_l.
    apply replaceAllFrom_no_match.
    apply (execFrom_literals Debugger.includeRegex "#include"); [cbn; tauto|exact Hbody].
  - cbn [map]. rewrite !concat_empty_cons'.
    rewrite (sapp_assoc (Texts.includeDirective c p +:+ LF)),
      (sapp_assoc (Texts.includeDirective c p)).
    rewrite replaceAllFrom_match with (cs := []).
    + change (LF +:+ String.concat EmptyString
                       (map (fun p0 => Texts.includeDirective c p0 +:+ LF) paths) +:+ body)
        with (String "010" (String.concat EmptyString
                              (map (fun p0 => Texts.includeDirective c p0 +:+ LF) paths)
                            +:+ body)).
      cbn [replaceAllFrom].
      unfold Debugger.includeRegex at 1. rewrite include_not_at by reflexivity.
      fold Debugger.includeRegex. rewrite IH. rewrite sapp_assoc. reflexivity.
    + discriminate.
    + unfold Debugger.includeRegex. apply include_match; try assumption; reflexivity.
Qed.

Lemma notQuote_no_quote (s : string) :
  allChars Texts.notQuote s = true ->
  Texts.quoteAhead any s = false /\ ~ occursIn DQ s.
Proof.
  induction s as [|c s IH]; cbn [allChars Texts.quoteAhead].
  - intros _. split; [reflexivity|]. intros (a & b & H).
    destruct a; discriminate.
  - intros H. apply andb_prop in H as [Hc Hs]. destruct (IH Hs) as [Hq Hno].
    unfold Texts.notQuote in Hc. apply negb_true_iff in Hc.
    rewrite Hc, Hq. split; [reflexivity|].
    intros (a & b & H). destruct a as [|d a].
    + change (EmptyString +:+ DQ +:+ b) with (String "034" b) in H.
      inversion H; subst c. discriminate.
    + change (String d a +:+ DQ +:+ b) with (String d (a +:+ DQ +:+ b)) in H.
      inversion H; subst. apply Hno. now exists a, b.
Qed.

Lemma allChars_any (s : string) : allChars any s = true.
Proof. induction s as [|c s IH]; [reflexivity|exact IH]. Qed.

(** X23: in the macro debugger, the include directives at the top of a
    file are removed and their line ends stay: for a file that starts with
    include directives, each on its line with a path without a line
    terminator, and goes on with a text without include directives,
    [createCompiledMacro] passes on one empty line for each directive and
    then the text, when the word MAIN does not occur in the file. The
    pattern of [flattenFile] removes the same. *)
Theorem include_lines_removed (c : ascii) (paths : list string) (body : string) :
  let text :=
    String.concat EmptyString (map (fun p => Texts.includeDirective c p +:+ LF) paths)
    +:+ body in
  isWhiteSpace c = true ->
  Forall (fun p => allChars dot p = true) paths ->
  ~ occursIn "#include" body ->
  ~ occursIn "MAIN" text ->
  Debugger.stripFile text
  = String.concat EmptyString (map (fun _ => LF) paths) +:+ body /\
  replaceAll FunctionDebugger.includeRegex (template EmptyString) text
  = String.concat EmptyString (map (fun _ => LF) paths) +:+ body.
Proof.
  cbv zeta. intros Hc Hpaths Hbody Hmain. unfold Debugger.stripFile.
  destruct (no_literal_no_match Debugger.mainRegex (template EmptyString) "MAIN" _
              ltac:(cbn; tauto) Hmain) as (_ & _ & ->).
  change FunctionDebugger.includeRegex with Debugger.includeRegex.
  unfold replaceAll. split; now apply include_lines.
Qed.

Lemma include_lines_removed_witness :
  let text :=
    String.concat EmptyString
      (map (fun p => Texts.includeDirective " " p +:+ LF) ["./Lib.huff"; "./Math.huff"])
    +:+ "#define macro ADD() = takes(2) returns (1) { add }" in
  Debugger.stripFile text
  = String.concat EmptyString (map (fun _ => LF) ["./Lib.huff"; "./Math.huff"])
    +:+ "#define macro ADD() = takes(2) returns (1) { add }" /\
  replaceAll FunctionDebugger.includeRegex (template EmptyString) text
  = String.concat EmptyString (map (fun _ => LF) ["./Lib.huff"; "./Math.huff"])
    +:+ "#define macro ADD() = takes(2) returns (1) { add }".
Proof.
  cbv zeta.
  apply (include_lines_removed " " ["./Lib.huff"; "./Math.huff"]
           "#define macro ADD() = takes(2) returns (1) { add }").
  - reflexivity.
  - repeat constructor.
  - apply not_occursIn. vm_compute. reflexivity.
  - apply not_occursIn. vm_compute. reflexivity.
Defined.



End IncludeDirectives.

(** ** Entry points that [flattenFile] removes from the imports *)

Section StrictEntryPoints.

Lemma matcher_group (name : string) (r1 : regex) (s : string) (i : nat) (caps : Caps)
    (k : string -> nat -> Caps -> Result) :
  matcher (Group name r1) s i caps k
  = matcher r1 s i caps (fun t j cs => k t j ((name, (i, j)) :: cs)).
Proof. reflexivity. Qed.

Lemma starGreedy_takes (p : ascii -> bool) (k : string -> nat -> Result)
    (g t : string) (i : nat) (res : nat * Caps) :
  allChars p g = true ->
  match t with
  | EmptyString => True
  | String c _ => p c = false
  end ->
  k t (i + String.length g)%nat = Some res ->
  starGreedy p k (g +:+ t) i = Some res.
Proof.
  revert i. induction g as [|c g IH]; intros i Hg Ht Hk.
  - rewrite sapp_nil_l. cbn [String.length] in Hk. rewrite Nat.add_0_r in Hk.
    destruct t as [|c t]; cbn [starGreedy]; [exact Hk|]. now rewrite Ht.
  - cbn [allChars] in Hg. apply andb_prop in Hg as [Hc Hg].
    change (String c g +:+ t) with (String c (g +:+ t)).
    cbn [starGreedy]. rewrite Hc, (IH (S i) Hg Ht); [reflexivity|].
    cbn [String.length] in Hk.
    now replace (S i + String.length g)%nat with (i + S (String.length g))%nat by lia.
Qed.

Lemma matcher_plus_spaces (p : ascii -> bool) (g t : string) (i : nat) (caps : Caps)
    (k : string -> nat -> Caps -> Result) (res : nat * Caps) :
  g <> EmptyString -> allChars p g = true ->
  match t with
  | EmptyString => True
  | String c _ => p c = false
  end ->
  k t (i + String.length g)%nat caps = Some res ->
  matcher (Plus p) (g +:+ t) i caps k = Some res.
Proof.
  intros Hne Hg Ht Hk. destruct g as [|c g]; [congruence|].
  cbn [allChars] in Hg. apply andb_prop in Hg as [Hc Hg].
  change (String c g +:+ t) with (String c (g +:+ t)).
  cbn [matcher]. rewrite Hc. apply starGreedy_takes; [exact Hg|exact Ht|].
  cbn [String.length] in Hk.
  now replace (S i + String.length g)%nat with (i + S (String.length g))%nat by lia.
Qed.

Lemma matcher_opt_skip (p : ascii -> bool) (c : ascii) (l t : string) (i : nat)
    (caps : Caps) (k : string -> nat -> Caps -> Result) :
  p c = false ->
  matcher (Opt p) (String c l +:+ t) i caps k = k (String c l +:+ t) i caps.
Proof. intros H. rewrite sapp_cons. cbn [matcher]. now rewrite H. Qed.

Lemma matcher_opt_take (p : ascii -> bool) (c : ascii) (t : string) (i : nat)
    (caps : Caps) (k : string -> nat -> Caps -> Result) (res : nat * Caps) :
  p c = true -> k t (S i) caps = Some res ->
  matcher (Opt p) (String c t) i caps k = Some res.
Proof. intros H Hk. cbn [matcher]. now rewrite H, Hk. Qed.

Lemma matcher_ahead_lit (l t : string) (i : nat) (caps : Caps)
    (k : string -> nat -> Caps -> Result) :
  matcher (Ahead (Lit l)) (l +:+ t) i caps k = k (l +:+ t) i caps.
Proof. cbn [matcher]. now rewrite stripPrefix_app. Qed.

(** What the entry point pattern of [flattenFile] matches starts with the
    keywords, one hash sign among them, and the word MAIN. *)
Lemma strictRegex_inv (t : string) (res : nat * Caps) :
  matchAt FunctionDebugger.mainRegex t = Some res ->
  exists u v, t = String "#" u +:+ v /\ allChars Texts.notHash u = true /\
              exists w, String "#" u = w +:+ "MAIN".
Proof.
  unfold matchAt, FunctionDebugger.mainRegex. cbn [seq]. intros H.
  rewrite matcher_seq in H. apply lit_inv in H as (t1 & -> & H). cbv beta in H.
  rewrite matcher_seq in H. apply plus_inv in H as (g1 & t2 & j1 & -> & Hg1 & H).
  cbv beta in H.
  rewrite matcher_seq in H. apply lit_inv in H as (t3 & -> & H). cbv beta in H.
  rewrite matcher_seq in H. apply plus_inv in H as (g2 & t4 & j2 & -> & Hg2 & H).
  cbv beta in H.
  rewrite matcher_seq in H. apply lit_inv in H as (t5 & -> & _).
  exists ("define" +:+ g1 +:+ "macro" +:+ g2 +:+ "MAIN"), t5.
  split; [|split].
  - change (String "#" ("define" +:+ g1 +:+ "macro" +:+ g2 +:+ "MAIN"))
      with ("#define" +:+ g1 +:+ "macro" +:+ g2 +:+ "MAIN").
    now rewrite !sapp_assoc.
  - rewrite !allChars_app.
    rewrite (allChars_impl _ _ g1 whiteSpace_notHash Hg1).
    rewrite (allChars_impl _ _ g2 whiteSpace_notHash Hg2). reflexivity.
  - exists ("#define" +:+ g1 +:+ "macro" +:+ g2).
    change (String "#" ("define" +:+ g1 +:+ "macro" +:+ g2 +:+ "MAIN"))
      with ("#define" +:+ g1 +:+ "macro" +:+ g2 +:+ "MAIN").
    now rewrite !sapp_assoc.
Qed.

Lemma strictRegex_not_before (pre rest : string) :
  ~ occursIn "MAIN" pre ->
  forall pre1 c pre2, pre = pre1 +:+ String c pre2 ->
    matchAt FunctionDebugger.mainRegex (String c pre2 +:+ String "#" rest) = None.
Proof.
  intros Hno pre1 c pre2 ->.
  destruct (matchAt FunctionDebugger.mainRegex (String c pre2 +:+ String "#" rest))
    as [res|] eqn:Hm; [|reflexivity].
  exfalso. apply Hno.
  apply strictRegex_inv in Hm as (u & v & Heq & Hu & w & Hw).
  symmetry in Heq.
  apply occurs_before_hash in Heq; [|discriminate|exact Hu].
  destruct Heq as (a & b & Heq). rewrite Heq, Hw.
  exists (pre1 +:+ a +:+ w), b. now rewrite !sapp_assoc.
Qed.

(** The match of the pattern at an entry point: the whole of it. *)
Lemma strictRegex_entry (s1 s2 args : string) (takes returns : ascii)
    (body post : string) :
  Texts.spaces s1 -> Texts.spaces s2 ->
  allChars Texts.notParen args = true ->
  isDigit takes = true -> isDigit returns = true ->
  allChars Texts.notClose body = true ->
  exists cs,
    matchAt FunctionDebugger.mainRegex
      (Texts.strictEntryPointText s1 s2 args takes returns body +:+ post)
    = Some (String.length (Texts.strictEntryPointText s1 s2 args takes returns body), cs).
Proof.
  intros [Hn1 Hs1] [Hn2 Hs2] Hargs Htakes Hreturns Hbody.
  assert (Hshape :
    Texts.strictEntryPointText s1 s2 args takes returns body +:+ post
    = "#define" +:+ s1 +:+ "macro" +:+ s2 +:+ "MAIN" +:+ "("
      +:+ args +:+ ")" +:+ String " " ("=" +:+ String " " ("takes" +:+ "("
      +:+ String takes (")" +:+ String " " ("returns" +:+ String " " ("("
      +:+ String returns (")" +:+ String " " ("{" +:+ body +:+ "}" +:+ post)))))))).
  { unfold Texts.strictEntryPointText.
    repeat (rewrite sapp_assoc || rewrite sapp_cons || rewrite sapp_nil_l).
    reflexivity. }
  rewrite Hshape. clear Hshape.
  unfold matchAt, FunctionDebugger.mainRegex. cbn [seq].
  eexists.
  rewrite matcher_seq, matcher_lit.
  rewrite matcher_seq. apply matcher_plus_spaces; [exact Hn1|exact Hs1|reflexivity|].
  rewrite matcher_seq, matcher_lit.
  rewrite matcher_seq. apply matcher_plus_spaces; [exact Hn2|exact Hs2|reflexivity|].
  rewrite matcher_seq, matcher_lit.
  rewrite matcher_seq, matcher_opt_skip by reflexivity.
  rewrite matcher_seq, matcher_lit.
  rewrite matcher_seq, matcher_group, matcher_star.
  apply starGreedy_takes; [exact Hargs|reflexivity|].
  rewrite matcher_seq, matcher_lit.
  rewrite matcher_seq. apply matcher_opt_take; [reflexivity|].
  rewrite matcher_seq, matcher_lit.
  rewrite matcher_seq. apply matcher_opt_take; [reflexivity|].
  rewrite matcher_seq, matcher_lit.
  rewrite matcher_seq, matcher_opt_skip by reflexivity.
  rewrite matcher_seq, matcher_lit.
  rewrite matcher_seq, matcher_group, (matcher_cls digit takes _ _ _ _ Htakes).
  rewrite matcher_seq, matcher_lit.
  rewrite matcher_seq. apply matcher_opt_take; [reflexivity|].
  rewrite matcher_seq, matcher_lit.
  rewrite matcher_seq. apply matcher_opt_take; [reflexivity|].
  rewrite matcher_seq, matcher_lit.
  rewrite matcher_seq, matcher_group, (matcher_cls digit returns _ _ _ _ Hreturns).
  rewrite matcher_seq, matcher_lit.
  rewrite matcher_seq. apply matcher_opt_take; [reflexivity|].
  rewrite matcher_seq, matcher_lit.
  rewrite matcher_seq, matcher_group, matcher_seq, matcher_starLazy.
  rewrite (starLazy_skip any Texts.notClose);
    [|intros c u j Hc|now apply allChars_impl with (p := Texts.notClose)|exact Hbody].
  2:{ cbn [matcher]. rewrite stripPrefix_cons_cons.
      unfold Texts.notClose in Hc. apply negb_true_iff in Hc.
      rewrite Ascii.eqb_sym in Hc. now rewrite Hc. }
  apply starLazy_here. rewrite matcher_ahead_lit, matcher_lit.
  f_equal. f_equal.
  unfold Texts.strictEntryPointText.
  rewrite !slength_app. cbn [String.length]. rewrite !slength_app.
  cbn [String.length]. rewrite !slength_app. cbn [String.length]. lia.
Qed.

(** X25: [flattenFile] removes from the text of an import an entry point
    written with any white space after the first two keywords and then in
    the layout [MAIN(args) = takes(n) returns (m) {body}], the arguments
    without a closing parenthesis, [n] and [m] one digit each and the body
    without a closing brace, when the word MAIN occurs nowhere else in the
    text: what is before and after the entry point stays. *)
Theorem import_entry_point_removed (pre s1 s2 args : string) (takes returns : ascii)
    (body post : string) :
  Texts.spaces s1 -> Texts.spaces s2 ->
  allChars Texts.notParen args = true ->
  isDigit takes = true -> isDigit returns = true ->
  allChars Texts.notClose body = true ->
  ~ occursIn "MAIN" pre -> ~ occursIn "MAIN" post ->
  replaceAll FunctionDebugger.mainRegex (template EmptyString)
    (pre +:+ Texts.strictEntryPointText s1 s2 args takes returns body +:+ post)
  = pre +:+ post.
Proof.
  intros Hs1 Hs2 Hargs Htakes Hreturns Hbody Hpre Hpost. unfold replaceAll.
  destruct (strictRegex_entry s1 s2 args takes returns body post
              Hs1 Hs2 Hargs Htakes Hreturns Hbody) as (cs & Hentry).
  assert (Hrest :
    Texts.strictEntryPointText s1 s2 args takes returns body +:+ post
    = String "#" (("define" +:+ s1 +:+ "macro" +:+ s2 +:+ "MAIN(" +:+ args
                   +:+ ") = takes(" +:+ String takes (") returns (" +:+
                         String returns (") {" +:+ body +:+ "}"))) +:+ post))
    by reflexivity.
  rewrite replaceAllFrom_before.
  2:{ intros pre1 c pre2 Heq. rewrite Hrest.
      now apply (strictRegex_not_before pre _ Hpre pre1). }
  rewrite replaceAllFrom_match with (cs := cs).
  - rewrite replaceAllFrom_no_match; [reflexivity|].
    apply (execFrom_literals FunctionDebugger.mainRegex "MAIN"); [cbn; tauto|exact Hpost].
  - discriminate.
  - exact Hentry.
Qed.

Lemma import_entry_point_removed_witness :
  let pre := "#define macro ADD() = takes(2) returns (1) { add }" +:+ LF in
  replaceAll FunctionDebugger.mainRegex (template EmptyString)
    (pre +:+ Texts.strictEntryPointText "  " (String "009" EmptyString) "" "0" "0"
               (LF +:+ "  0x01 0x02 ADD()" +:+ LF) +:+ LF)
  = pre +:+ LF.
Proof.
  cbv zeta.
  apply (import_entry_point_removed
           ("#define macro ADD() = takes(2) returns (1) { add }" +:+ LF)
           "  " (String "009" EmptyString) "" "0" "0"
           (LF +:+ "  0x01 0x02 ADD()" +:+ LF) LF);
    try reflexivity;
    try (split; [discriminate|reflexivity]);
    apply not_occursIn; vm_compute; reflexivity.
Defined.

End StrictEntryPoints.
